(** * sst-scripts: the translation regrouping engine and its neighbours

    A shallow embedding of [src/make-json.js], [src/make-aliases.js],
    [src/make-pot.js] and [src/generate-plugin.js], with the parts of
    Node's [path] module and of lodash's [_.merge] that they call.

    Conventions of the embedding.
    - A value produced by [JSON.parse] is a [json] tree.  An object is the
      list of its own properties in insertion order; numbers are integers.
    - JavaScript strings are [string]s over one-byte characters.
    - An [async] function is a function into [outcome]: [Ok v] for a
      promise fulfilled with [v], [Throw e] for a rejected promise.
    - External tools (madge, md5, wp-cli, the file system when it is only
      read) are parameters. *)

From Stdlib Require Import String Ascii List ZArith Bool Arith Lia.
From Stdlib Require Import DecimalString.
Import ListNotations.
Open Scope list_scope.
Open Scope string_scope.

(** ** JSON values *)

#[local] Unset Elimination Schemes.

Inductive json : Type :=
| JNull
| JBool (b : bool)
| JNum (n : Z)
| JStr (s : string)
| JArr (xs : list json)
| JObj (kvs : list (string * json)).

#[local] Set Elimination Schemes.

Definition object : Type := list (string * json).

(** [o[k]] for an own property; [None] is JavaScript's [undefined]. *)
Fixpoint prop_get (k : string) (o : object) : option json :=
  match o with
  | [] => None
  | (k', v) :: r => if String.eqb k k' then Some v else prop_get k r
  end.

(** [o[k] = v]: an existing property keeps its place, a new one goes last. *)
Fixpoint prop_set (k : string) (v : json) (o : object) : object :=
  match o with
  | [] => [(k, v)]
  | (k', v') :: r =>
      if String.eqb k k' then (k, v) :: r else (k', v') :: prop_set k v r
  end.

(** [delete o[k]]. *)
Fixpoint prop_delete (k : string) (o : object) : object :=
  match o with
  | [] => []
  | (k', v') :: r =>
      if String.eqb k k' then prop_delete k r else (k', v') :: prop_delete k r
  end.

Definition keys (o : object) : list string := map fst o.

(** Property access on an arbitrary value: only objects carry named
    properties in this model. *)
Definition field (k : string) (v : json) : option json :=
  match v with
  | JObj o => prop_get k o
  | _ => None
  end.

(** JavaScript truthiness of a possibly-undefined value. *)
Definition truthy (v : option json) : bool :=
  match v with
  | None => false
  | Some JNull => false
  | Some (JBool b) => b
  | Some (JNum n) => negb (Z.eqb n 0)
  | Some (JStr s) => negb (String.eqb s "")
  | Some (JArr _) => true
  | Some (JObj _) => true
  end.

Definition is_scalar (v : json) : bool :=
  match v with
  | JArr _ | JObj _ => false
  | _ => true
  end.

(** ** lodash: [_.merge]

    [_.merge(object, ...sources)] walks each source and assigns into
    [object], recursing where the source value is an array or a plain
    object and overwriting otherwise ([baseMerge]/[baseMergeDeep] in
    lodash 4.17).  The destination is mutated and returned; sources are
    copied, never aliased.

    Two destinations cannot be written as a [json] tree: an array that
    receives named properties (source is a plain object, destination an
    array) and the array copy of an array-like object (source is an array,
    destination an object with a numeric [length]).  [mergeValue] answers
    [None] there. *)

Definition MAX_SAFE_INTEGER : Z := 9007199254740991.

Definition isArrayLikeObject (o : object) : bool :=
  match prop_get "length" o with
  | Some (JNum n) => (0 <=? n)%Z && (n <=? MAX_SAFE_INTEGER)%Z
  | _ => false
  end.

(** Index-wise walk of a source array over a destination array: index [i]
    of the destination becomes the merge of its old element (if any) with
    the source's; elements past the source's length stay. *)
Definition mergeElemsWith (f : option json -> json -> option json)
  : list json -> list json -> option (list json) :=
  fix go (sxs oxs : list json) {struct sxs} : option (list json) :=
    match sxs with
    | [] => Some oxs
    | v :: srest =>
        let old := match oxs with [] => None | o :: _ => Some o end in
        match f old v with
        | None => None
        | Some nv =>
            match go srest (tl oxs) with
            | None => None
            | Some r => Some (nv :: r)
            end
        end
    end.

(** Key-wise walk of a source object over a destination object. *)
Definition mergePropsWith (f : option json -> json -> option json)
  : list (string * json) -> object -> option object :=
  fix go (skvs : list (string * json)) (acc : object) {struct skvs}
    : option object :=
    match skvs with
    | [] => Some acc
    | (k, v) :: srest =>
        match f (prop_get k acc) v with
        | None => None
        | Some nv => go srest (prop_set k nv acc)
        end
    end.

Fixpoint mergeValue (objValue : option json) (srcValue : json)
  {struct srcValue} : option json :=
  match srcValue with
  | JArr sxs =>
      match objValue with
      | Some (JArr oxs) => option_map JArr (mergeElemsWith mergeValue sxs oxs)
      | Some (JObj o) =>
          if isArrayLikeObject o then None
          else option_map JArr (mergeElemsWith mergeValue sxs [])
      | _ => option_map JArr (mergeElemsWith mergeValue sxs [])
      end
  | JObj skvs =>
      match objValue with
      | Some (JObj o) => option_map JObj (mergePropsWith mergeValue skvs o)
      | Some (JArr _) => None
      | _ => option_map JObj (mergePropsWith mergeValue skvs [])
      end
  | _ => Some srcValue
  end.

Definition mergeElems := mergeElemsWith mergeValue.
Definition baseMerge := mergePropsWith mergeValue.

(** [_.merge(object, ...sources)], sources applied from left to right. *)
Fixpoint merge (obj : object) (sources : list object) : option object :=
  match sources with
  | [] => Some obj
  | s :: rest =>
      match baseMerge s obj with
      | None => None
      | Some obj' => merge obj' rest
      end
  end.

(** ** Strings *)

Definition slash : ascii := ascii_of_nat 47.
Definition dot : ascii := ascii_of_nat 46.
Definition dquote : ascii := ascii_of_nat 34.
Definition backslash : ascii := ascii_of_nat 92.

Definition str1 (c : ascii) : string := String c EmptyString.

(** [s.indexOf(pat) > -1]. *)
Fixpoint includes (pat s : string) : bool :=
  String.prefix pat s ||
  match s with
  | EmptyString => false
  | String _ r => includes pat r
  end.

Fixpoint drop (n : nat) (s : string) : string :=
  match n, s with
  | S n', String _ r => drop n' r
  | _, _ => s
  end.

(** [s.replace(pat, rep)] for a string pattern: the first occurrence only. *)
Fixpoint replace_first (pat rep s : string) : string :=
  if String.prefix pat s then rep ++ drop (String.length pat) s
  else match s with
       | EmptyString => EmptyString
       | String c r => String c (replace_first pat rep r)
       end.

(** [s.replace(/^\//, '')]. *)
Definition strip_leading_slash (s : string) : string :=
  match s with
  | String c r => if Ascii.eqb c slash then r else s
  | EmptyString => s
  end.

(** [s.split(sep)] for a one-character separator. *)
Fixpoint split_on (sep : ascii) (s : string) : list string :=
  match s with
  | EmptyString => [EmptyString]
  | String c r =>
      if Ascii.eqb c sep then EmptyString :: split_on sep r
      else match split_on sep r with
           | [] => [str1 c]
           | h :: t => String c h :: t
           end
  end.

(** [xs.join(sep)]. *)
Fixpoint join_with (sep : string) (xs : list string) : string :=
  match xs with
  | [] => EmptyString
  | [x] => x
  | x :: r => x ++ sep ++ join_with sep r
  end.

Definition last_char (s : string) : option ascii :=
  match rev (list_ascii_of_string s) with
  | [] => None
  | c :: _ => Some c
  end.

Definition string_of_Z (n : Z) : string :=
  NilEmpty.string_of_int (Z.to_int n).

(** [String(v)], as used when a value becomes a property name. *)
Fixpoint to_string (v : json) : string :=
  match v with
  | JNull => "null"
  | JBool true => "true"
  | JBool false => "false"
  | JNum n => string_of_Z n
  | JStr s => s
  | JArr xs =>
      join_with ","
        (map (fun x => match x with JNull => EmptyString | _ => to_string x end)
           xs)
  | JObj _ => "[object Object]"
  end.

Definition to_key (v : option json) : string :=
  match v with
  | None => "undefined"
  | Some x => to_string x
  end.

(** ** Node: [path] (POSIX) *)

Module path.

(** One step of [normalizeString] on the stack of kept segments (last
    segment first). *)
Definition push_segment (allowAboveRoot : bool) (st : list string)
  (seg : string) : list string :=
  if String.eqb seg "" || String.eqb seg "." then st
  else if String.eqb seg ".." then
    match st with
    | last :: rest =>
        if String.eqb last ".."
        then (if allowAboveRoot then ".." :: st else st)
        else rest
    | [] => if allowAboveRoot then [".."] else []
    end
  else seg :: st.

Definition normalizeString (allowAboveRoot : bool) (p : string) : string :=
  join_with "/" (rev (fold_left (push_segment allowAboveRoot) (split_on slash p) [])).

Definition normalize (p : string) : string :=
  match p with
  | EmptyString => "."
  | String c _ =>
      let isAbsolute := Ascii.eqb c slash in
      let trailingSeparator :=
        match last_char p with
        | Some l => Ascii.eqb l slash
        | None => false
        end in
      let q := normalizeString (negb isAbsolute) p in
      if String.eqb q "" then
        if isAbsolute then "/"
        else if trailingSeparator then "./" else "."
      else
        let q' := if trailingSeparator then q ++ "/" else q in
        if isAbsolute then "/" ++ q' else q'
  end.

(** [path.join(a, b)]: empty arguments are dropped, the rest joined with
    a separator and normalized. *)
Definition join (a b : string) : string :=
  match String.eqb a "", String.eqb b "" with
  | true, true => "."
  | true, false => normalize b
  | false, true => normalize a
  | false, false => normalize (a ++ "/" ++ b)
  end.

(** [path.join(a, b, c)]. *)
Definition join3 (a b c : string) : string :=
  let parts := filter (fun x => negb (String.eqb x "")) [a; b; c] in
  match parts with
  | [] => "."
  | _ => normalize (join_with "/" parts)
  end.

(** The last path segment, trailing separators ignored, as the list of
    its characters from the last to the first. *)
Fixpoint rev_basename (rp : list ascii) : list ascii :=
  match rp with
  | [] => []
  | c :: r => if Ascii.eqb c slash then [] else c :: rev_basename r
  end.

Fixpoint skip_slashes (rp : list ascii) : list ascii :=
  match rp with
  | c :: r => if Ascii.eqb c slash then skip_slashes r else rp
  | [] => []
  end.

(** Split a reversed basename at its last dot: the extension's characters
    after the dot (reversed) and what precedes the dot (reversed). *)
Fixpoint cut_at_dot (rb : list ascii) : option (list ascii * list ascii) :=
  match rb with
  | [] => None
  | c :: r =>
      if Ascii.eqb c dot then Some ([], r)
      else match cut_at_dot r with
           | Some (e, pre) => Some (c :: e, pre)
           | None => None
           end
  end.

(** [path.extname(p)]: from the last dot of the basename to its end;
    empty when there is no dot, when the basename starts with its only
    dot, and for [..]. *)
Definition extname (p : string) : string :=
  let rb := rev_basename (skip_slashes (rev (list_ascii_of_string p))) in
  match cut_at_dot rb with
  | None => ""
  | Some (e, pre) =>
      match pre, e with
      | [], _ => ""
      | [c], [] => if Ascii.eqb c dot then "" else "."
      | _, _ => string_of_list_ascii (dot :: rev e)
      end
  end.

(** [path.dirname] is only applied to the package file's path, by
    [getData]; the project root is an input here. *)

End path.

(** ** Outcomes of calls *)

Inductive js_error : Type :=
| TypeError (msg : string)
| Error (msg : string)
| ExternalFailure (tool : string).

(** [Ok]: returned (promise fulfilled).  [Throw]: threw (promise rejected).
    [Beyond]: the call reached a value the [json] model cannot express
    (see [mergeValue]). *)
Inductive outcome (A : Type) : Type :=
| Ok (a : A)
| Throw (e : js_error)
| Beyond.

Arguments Ok {A} a.
Arguments Throw {A} e.
Arguments Beyond {A}.

Definition bind {A B : Type} (m : outcome A) (k : A -> outcome B) : outcome B :=
  match m with
  | Ok a => k a
  | Throw e => Throw e
  | Beyond => Beyond
  end.

Notation "'let*' x ':=' m 'in' k" := (bind m (fun x => k))
  (at level 10, x name, m at level 100, k at level 200).

Record Paths : Type := mkPaths {
  p_root : string;
  p_src : string;
  p_dist : string;
  p_languages : string;
  p_views : string;
  p_temp : string
}.

(** The [paths] object of [getData] (data.js) for a project root and the
    operating system's temporary directory. *)
Definition getData_paths (rootDir tmpdir : string) : Paths :=
  {| p_root := rootDir;
     p_src := path.join rootDir "src";
     p_dist := path.join rootDir "dist";
     p_languages := path.join rootDir "languages";
     p_views := path.join rootDir "views";
     p_temp := tmpdir |}.

(** ** make-json.js: [extractDomain] *)

Definition is_space (c : ascii) : bool :=
  let n := nat_of_ascii c in
  (Nat.eqb n 9 || Nat.eqb n 10 || Nat.eqb n 11 || Nat.eqb n 12
   || Nat.eqb n 13 || Nat.eqb n 32 || Nat.eqb n 160)%bool.

Definition lower (c : ascii) : ascii :=
  let n := nat_of_ascii c in
  if (Nat.leb 65 n && Nat.leb n 90)%bool then ascii_of_nat (n + 32) else c.

(** [pat] matched case-insensitively at the start of [s]; what follows. *)
Fixpoint prefix_ci (pat s : string) : option string :=
  match pat, s with
  | EmptyString, _ => Some s
  | String a p, String b r =>
      if Ascii.eqb (lower a) (lower b) then prefix_ci p r else None
  | String _ _, EmptyString => None
  end.

(** The longest run of non-space characters at the start of [s]. *)
Fixpoint non_space_run (s : string) : string :=
  match s with
  | EmptyString => EmptyString
  | String c r => if is_space c then EmptyString else String c (non_space_run r)
  end.

(** The three characters that close the header line in a .po file:
    a backslash, the letter n and a double quote. *)
Definition header_end : string :=
  String backslash (String (ascii_of_nat 110) (String dquote EmptyString)).

(** The longest prefix of [run] that is followed by [header_end]. *)
Fixpoint before_last_end (run : string) : option string :=
  match run with
  | EmptyString => None
  | String c r =>
      match before_last_end r with
      | Some p => Some (String c p)
      | None =>
          match prefix_ci header_end run with
          | Some _ => Some EmptyString
          | None => None
          end
      end
  end.

(** The group [(\S+)] and the closing text at the start of [s]: the group
    is greedy and gives back characters until the closing text follows. *)
Definition capture_domain (s : string) : option string :=
  match non_space_run s with
  | EmptyString => None
  | String c r => option_map (String c) (before_last_end r)
  end.

Definition x_domain_marker : string := String dquote "x-domain: ".

(** [content.match(re)] for the case-insensitive pattern of
    [extractDomain] (a double quote, [x-domain: ], the group [(\S+)] and
    the closing text): the group of the leftmost match, [None] when
    [match] returns [null]. *)
Fixpoint match_x_domain (content : string) : option string :=
  let here :=
    match prefix_ci x_domain_marker content with
    | Some rest => capture_domain rest
    | None => None
    end in
  match here with
  | Some d => Some d
  | None =>
      match content with
      | EmptyString => None
      | String _ r => match_x_domain r
      end
  end.

Definition is_translation_file (file : string) : bool :=
  String.eqb (path.extname file) ".pot" || String.eqb (path.extname file) ".po".

Definition no_files_message : string :=
  "Could not extract text domain since no .po- or .pot-files were found in the languages directory.".

Definition no_domain_message : string :=
  "No text domain found in the .po- and .pot files in the languages directory.".

Section ExtractDomain.

(** [fs.readdir(dir)] and [fs.readFile(file, 'utf-8')]. *)
Variable readdir : string -> outcome (list string).
Variable readFile : string -> outcome string.

(** The [for] loop of lines 83 to 89.  Destructuring
    [const [, domain] = content.match(...)] throws a [TypeError] when
    [match] returns [null]. *)
Fixpoint extractDomain_loop (distDir : string) (translationFiles : list string)
  : outcome string :=
  match translationFiles with
  | [] => Throw (Error no_domain_message)
  | file :: rest =>
      let* content := readFile (path.join distDir file) in
      match match_x_domain content with
      | None => Throw (TypeError "content.match(...) is not iterable")
      | Some domain =>
          if truthy (Some (JStr domain)) then Ok domain
          else extractDomain_loop distDir rest
      end
  end.

Definition extractDomain (distDir : string) : outcome string :=
  let* files := readdir distDir in
  let translationFiles := filter is_translation_file files in
  if Nat.ltb (List.length translationFiles) 1
  then Throw (Error no_files_message)
  else extractDomain_loop distDir translationFiles.

End ExtractDomain.

(** A directory held in memory, for running the functions above: the
    names [readdir] lists, each with the text [readFile] returns. *)
Definition directory : Type := list (string * string).

Definition readdir_of (dir : string) (d : directory) (p : string)
  : outcome (list string) :=
  if String.eqb p dir then Ok (map fst d) else Throw (ExternalFailure "readdir").

Fixpoint readFile_of (dir : string) (d : directory) (p : string)
  : outcome string :=
  match d with
  | [] => Throw (ExternalFailure "readFile")
  | (name, content) :: rest =>
      if String.eqb p (path.join dir name) then Ok content
      else readFile_of dir rest p
  end.

(** ** make-json.js: [generateTranslations] *)

(** An update of element [i] of an array in place. *)
Fixpoint update_nth {A : Type} (i : nat) (x : A) (l : list A) : list A :=
  match l, i with
  | [], _ => []
  | _ :: r, O => x :: r
  | h :: r, S i' => h :: update_nth i' x r
  end.

(** [translation.source] as [path.join] accepts it: [path.join] throws a
    [TypeError] for an argument that is not a string, and reading a
    property of [null] throws as well. *)
Definition source_of (translation : json) : outcome string :=
  match translation with
  | JObj o =>
      match prop_get "source" o with
      | Some (JStr s) => Ok s
      | _ => Throw (TypeError "The path argument must be of type string")
      end
  | JNull => Throw (TypeError "Cannot read property source of null")
  | _ => Throw (TypeError "The path argument must be of type string")
  end.

(** [translations.filter(t => dependecies.includes(path.join(paths.root,
    t.source)))], from index [i] on.  Every selected element is an object;
    it is returned with its index in [translations], since the elements are
    shared with the array and not copied. *)
Fixpoint relatedTranslations (root : string) (dependecies : list string)
  (i : nat) (translations : list json) : outcome (list (nat * object)) :=
  match translations with
  | [] => Ok []
  | t :: rest =>
      let* s := source_of t in
      let* r := relatedTranslations root dependecies (S i) rest in
      if existsb (String.eqb (path.join root s)) dependecies
      then Ok (match t with JObj o => (i, o) :: r | _ => r end)
      else Ok r
  end.

Definition cannot_read : js_error :=
  TypeError "Cannot read property of undefined".

(** Lines 200 to 209: the re-domain step on the merged object. *)
Definition redomain (domain : string) (mergedTranslations : object)
  : outcome object :=
  let originalDomain := prop_get "domain" mergedTranslations in
  let differs :=
    match originalDomain with
    | Some (JStr d) => negb (String.eqb d domain)
    | _ => true
    end in
  if truthy originalDomain && differs then
    let original := to_key originalDomain in
    match prop_get "locale_data" mergedTranslations with
    | Some (JObj locale_data) =>
        match prop_get original locale_data with
        | None => Throw cannot_read
        | Some table =>
            (* locale_data[domain] = locale_data[originalDomain];
               delete locale_data[originalDomain] *)
            let locale_data1 :=
              prop_delete original (prop_set domain table locale_data) in
            (* locale_data[domain][''].domain = domain *)
            match prop_get domain locale_data1 with
            | Some (JObj tbl) =>
                match prop_get "" tbl with
                | Some (JObj meta) =>
                    let tbl' :=
                      prop_set "" (JObj (prop_set "domain" (JStr domain) meta))
                        tbl in
                    let locale_data2 :=
                      prop_set domain (JObj tbl') locale_data1 in
                    (* mergedTranslations.domain = domain *)
                    Ok (prop_set "domain" (JStr domain)
                          (prop_set "locale_data" (JObj locale_data2)
                             mergedTranslations))
                | Some (JArr _) => Beyond
                | Some _ => Throw (TypeError "Cannot create property domain")
                | None => Throw cannot_read
                end
            | _ => Throw cannot_read
            end
        end
    | Some (JArr _) => Beyond
    | _ => Throw cannot_read
    end
  else Ok mergedTranslations.

(** Lines 211 to 213. *)
Definition relativeFilename (root distFile : string) : string :=
  strip_leading_slash (replace_first root "" distFile).

(** The template literal of line 219. *)
Definition translationName (md5 : string -> string)
  (domain lang relative : string) : string :=
  domain ++ "-" ++ lang ++ "-" ++ md5 relative ++ ".json".

(** The keys a [for ... in] loop visits and their values; the keys of
    anything but an object are array indices or absent, and no index has
    an extension. *)
Definition entries (v : json) : object :=
  match v with
  | JObj o => o
  | _ => []
  end.

(** A call of [fs.writeFile(name, JSON.stringify(value), 'utf-8')]: the
    value is the one serialized at the moment of the call. *)
Definition write : Type := (string * json)%type.

(** The state of the loop: the locale's [translations] array, whose
    elements the loop mutates, and the writes issued so far (the
    [promises]). *)
Record loop_state : Type := mkState {
  st_translations : list json;
  st_writes : list write
}.

Section GenerateTranslations.

(** [Object.keys((await madge(srcFile)).obj())]. *)
Variable madge : string -> outcome (list string).
Variable md5 : string -> string.

Variable lang : string.
Variable domain : string.
Variable paths : Paths.

(** One turn of the loop over the manifest (lines 175 to 228): the state
    after it.  [_.merge] returns its first argument, so the merged object
    is the first selected fragment itself, and what lines 199 to 215
    write into it is written into [translations]. *)
Definition generateTranslations_step (st : loop_state)
  (key : string) (value : json) : outcome loop_state :=
  if negb (String.eqb (path.extname key) ".js") then Ok st
  else
    let srcFile := path.join (p_src paths) key in
    match value with
    | JStr out =>
        let distFile := path.join (p_dist paths) out in
        let* deps := madge srcFile in
        let dependecies := map (fun dep => path.join (p_src paths) dep) deps in
        let* related :=
          relatedTranslations (p_root paths) dependecies 0
            (st_translations st) in
        match related with
        | [] => Ok st
        | (i0, first) :: others =>
            match merge first (map snd others) with
            | None => Beyond
            | Some mergedTranslations =>
                let* redomained := redomain domain mergedTranslations in
                let relative := relativeFilename (p_root paths) distFile in
                let final := prop_set "source" (JStr relative) redomained in
                let translationFileName :=
                  path.join (p_dist paths)
                    (translationName md5 domain lang relative) in
                Ok {| st_translations :=
                        update_nth i0 (JObj final) (st_translations st);
                      st_writes :=
                        (st_writes st ++ [(translationFileName, JObj final)])%list |}
            end
        end
    | _ => Throw (TypeError "The path argument must be of type string")
    end.

(** The loop: the writes issued, and how the loop ended.  Writes issued
    before a throw stay issued. *)
Fixpoint generateTranslations_loop (st : loop_state) (manifest : object)
  : list write * outcome loop_state :=
  match manifest with
  | [] => (st_writes st, Ok st)
  | (key, value) :: rest =>
      match generateTranslations_step st key value with
      | Ok st' => generateTranslations_loop st' rest
      | Throw e => (st_writes st, Throw e)
      | Beyond => (st_writes st, Beyond)
      end
  end.

Definition generateTranslations (manifest : json) (translations : list json)
  : list write * outcome loop_state :=
  generateTranslations_loop
    {| st_translations := translations; st_writes := [] |}
    (entries manifest).

End GenerateTranslations.

(** ** make-aliases.js: the alias table *)

Record dependency : Type := mkDependency {
  dep_name : string;
  dep_filename : string;
  dep_content : string
}.

Definition nl : string := str1 (ascii_of_nat 10).

(** The lodash template of lines 11 to 14, applied to [moduleExport]. *)
Definition template (moduleExport : string) : string :=
  "/* eslint-disable strict */" ++ nl ++ "'use strict';" ++ nl
  ++ "module.exports = " ++ moduleExport ++ ";" ++ nl.

Definition upper (c : ascii) : ascii :=
  let n := nat_of_ascii c in
  if (Nat.leb 97 n && Nat.leb n 122)%bool then ascii_of_nat (n - 32) else c.

Definition is_lower (c : ascii) : bool :=
  let n := nat_of_ascii c in (Nat.leb 97 n && Nat.leb n 122)%bool.

Definition dash : ascii := ascii_of_nat 45.

(** [str.replace(/-([a-z])/g, (match, letter) => letter.toUpperCase())]. *)
Fixpoint camelCaseDash (str : string) : string :=
  match str with
  | EmptyString => EmptyString
  | String c r =>
      match r with
      | String l r' =>
          if (Ascii.eqb c dash && is_lower l)%bool
          then String (upper l) (camelCaseDash r')
          else String c (camelCaseDash r)
      | EmptyString => String c EmptyString
      end
  end.

(** [Object.keys(v)]. *)
Definition indices (n : nat) : list string :=
  map (fun i => string_of_Z (Z.of_nat i)) (seq 0 n).

Definition Object_keys (v : option json) : outcome (list string) :=
  match v with
  | None | Some JNull =>
      Throw (TypeError "Cannot convert undefined or null to object")
  | Some (JObj o) => Ok (keys o)
  | Some (JArr xs) => Ok (indices (List.length xs))
  | Some (JStr s) => Ok (indices (String.length s))
  | Some _ => Ok []
  end.

(** [Object.entries(v || {})]. *)
Definition Object_entries_or_empty (v : option json) : object :=
  if truthy v then
    match v with
    | Some (JObj o) => o
    | Some (JArr xs) => combine (indices (List.length xs)) xs
    | Some (JStr s) =>
        combine (indices (String.length s))
          (map (fun c => JStr (str1 c)) (list_ascii_of_string s))
    | _ => []
    end
  else [].

(** The callback of [.map] on lines 34 to 43.  [dep.split('/')[1]] is
    [undefined] for a name without a separator; the file name is then
    built from the text of [undefined] and [camelCaseDash] throws. *)
Definition wordpress_dependency (dep : string) : outcome dependency :=
  match split_on slash dep with
  | _ :: moduleName :: _ =>
      Ok {| dep_name := dep;
            dep_filename := "wordpress-" ++ moduleName ++ ".js";
            dep_content := template ("window.wp." ++ camelCaseDash moduleName) |}
  | _ => Throw (TypeError "Cannot read property replace of undefined")
  end.

Fixpoint map_outcome {A B : Type} (f : A -> outcome B) (l : list A)
  : outcome (list B) :=
  match l with
  | [] => Ok []
  | x :: r =>
      let* y := f x in
      let* ys := map_outcome f r in
      Ok (y :: ys)
  end.

(** Lines 45 to 51 and 53 to 59: react and lodash get a file each when
    they are dependencies. *)
Definition react_dependency (names : list string) : list dependency :=
  if existsb (String.eqb "react") names
  then [ {| dep_name := "react"; dep_filename := "react.js";
            dep_content := template "window.React" |} ]
  else [].

Definition lodash_dependency (names : list string) : list dependency :=
  if existsb (String.eqb "lodash") names
  then [ {| dep_name := "lodash"; dep_filename := "lodash.js";
            dep_content := template "window.lodash" |} ]
  else [].

(** Lines 32 to 59: the list [dependencies]. *)
Definition alias_dependencies (pkg : object) : outcome (list dependency) :=
  let* names := Object_keys (prop_get "dependencies" pkg) in
  let* wp :=
    map_outcome wordpress_dependency
      (filter (includes "@wordpress") names) in
  Ok (wp ++ react_dependency names ++ lodash_dependency names)%list.

(** Lines 65 to 71: the previous table without its wordpress entries. *)
Definition fresh_alias (pkg : object) : object :=
  fold_left
    (fun acc kv =>
       if includes "@wordpress" (fst kv) then acc
       else prop_set (fst kv) (snd kv) acc)
    (Object_entries_or_empty (prop_get "alias" pkg)) [].

Definition aliasesRelativeRoot : string := "./src/alias".

(** The assignment of line 78 for every dependency, in order. *)
Definition assign_aliases (alias : object) (dependencies : list dependency)
  : object :=
  fold_left
    (fun acc d =>
       prop_set (dep_name d)
         (JStr (aliasesRelativeRoot ++ "/" ++ dep_filename d)) acc)
    dependencies alias.

(** The table assigned to [pkg.alias] on line 82, when control gets
    there and every file was written. *)
Definition new_alias (pkg : object) : outcome object :=
  let* dependencies := alias_dependencies pkg in
  Ok (assign_aliases (fresh_alias pkg) dependencies).

(** ** The top-level operations

    What an operation does to the outside is the list of [event]s it
    issues, in order; how each external call answers is given by a
    [World].  The last event is not a call: it is the rejection of a
    promise that no one ever awaits, which the runtime reports as an
    [unhandledRejection] of the process.  What the runtime does then,
    print a warning or end the process, is its own affair; the outcome
    of an operation is that of its promise. *)

Inductive event : Type :=
| console_error (text : string)
| console_error_value (error : js_error)
| fs_writeFile (file : string) (data : json)
| fs_writeText (file : string) (text : string)
| fs_ensureDir (dir : string)
| fs_mkdir (dir : string)
| fs_unlink (file : string)
| fs_copy (from to : string)
| fs_remove (target : string)
| replace_in_files (files : string)
| execa (file : string) (args : list string)
| unhandledRejection (reason : js_error).

Record answers : Type := mkAnswers {
  pluginName : string;
  description : string;
  a_domain : string
}.

Record World : Type := mkWorld {
  (** [readPkg({ normalize })] followed by [path.dirname(pkg.path)]: the
      package object and the project root. *)
  w_readPkg : bool -> outcome (object * string);
  w_tmpdir : string;
  w_readdir : string -> outcome (list string);
  w_readFile : string -> outcome string;
  w_JSON_parse : string -> outcome json;
  w_madge : string -> outcome (list string);
  w_md5 : string -> string;
  (** Whether a file-system or process call succeeds. *)
  w_perform : event -> outcome unit;
  w_prompt : outcome answers;
  w_kebabCase : string -> string;
  (** A template of templates/index.js, by name, applied to its data. *)
  w_render : string -> answers -> option json -> outcome string
}.

(** The events issued and the way the computation ended. *)
Definition M (A : Type) : Type := (list event * outcome A)%type.

Definition ret {A : Type} (a : A) : M A := ([], Ok a).

Definition lift {A : Type} (o : outcome A) : M A := ([], o).

Definition bindM {A B : Type} (m : M A) (k : A -> M B) : M B :=
  match m with
  | (ev, Ok a) => let (ev', r) := k a in ((ev ++ ev')%list, r)
  | (ev, Throw e) => (ev, Throw e)
  | (ev, Beyond) => (ev, Beyond)
  end.

Notation "'let+' x ':=' m 'in' k" := (bindM m (fun x => k))
  (at level 10, x name, m at level 100, k at level 200).
Notation "m ';;' k" := (bindM m (fun _ => k))
  (at level 100, k at level 200, right associativity).

(** [try { body } catch (error) { handler }]. *)
Definition try_catch {A : Type} (body : M A) (handler : js_error -> M A) : M A :=
  match body with
  | (ev, Throw e) => let (ev', r) := handler e in ((ev ++ ev')%list, r)
  | other => other
  end.

(** [try { body } finally { cleanup }]: the cleanup runs on every exit and
    the body's outcome stands unless the cleanup itself does not return. *)
Definition try_finally {A : Type} (body : M A) (cleanup : M unit) : M A :=
  let (ev, r) := body in
  match cleanup with
  | (ev', Ok _) => ((ev ++ ev')%list, r)
  | (ev', Throw e) => ((ev ++ ev')%list, Throw e)
  | (ev', Beyond) => ((ev ++ ev')%list, Beyond)
  end.

(** [promise.catch(() => {})]. *)
Definition swallow (m : M unit) : M unit :=
  match m with
  | (ev, Throw _) => (ev, Ok tt)
  | other => other
  end.

(** [await Promise.all(ms)] for operations already started: each runs,
    and the first that did not return decides. *)
Fixpoint all {A : Type} (ms : list (M A)) : M (list A) :=
  match ms with
  | [] => ret []
  | (ev, r) :: rest =>
      let (ev', rs) := all rest in
      ((ev ++ ev')%list,
       match r with
       | Ok a => match rs with
                 | Ok l => Ok (a :: l)
                 | Throw e => Throw e
                 | Beyond => Beyond
                 end
       | Throw e => Throw e
       | Beyond => Beyond
       end)
  end.

Definition perform (w : World) (ev : event) : M unit := ([ev], w_perform w ev).

Definition log_error (text : string) (error : js_error) : M unit :=
  ([console_error text; console_error_value error], Ok tt).

(** data.js: [getData(normalizePackage)]. *)
Definition getData (w : World) (normalizePackage : bool)
  : outcome (object * Paths) :=
  let* pr := w_readPkg w normalizePackage in
  Ok (fst pr, getData_paths (snd pr) (w_tmpdir w)).

Definition paths_values (paths : Paths) : list string :=
  [p_root paths; p_src paths; p_dist paths; p_languages paths;
   p_views paths; p_temp paths].

(** *** make-json.js *)

(** Property read [v[k]] where the code expects an object: reading from
    [undefined] or [null] throws. *)
Definition read (v : option json) (k : string) : outcome (option json) :=
  match v with
  | None | Some JNull => Throw cannot_read
  | Some (JObj o) => Ok (prop_get k o)
  | Some (JArr _) | Some (JStr _) => Beyond
  | Some _ => Ok None
  end.

Definition by_lang : Type := list (string * list json).

Fixpoint lang_get (lang : string) (acc : by_lang) : list json :=
  match acc with
  | [] => []
  | (l, ts) :: r => if String.eqb lang l then ts else lang_get lang r
  end.

Fixpoint lang_set (lang : string) (ts : list json) (acc : by_lang) : by_lang :=
  match acc with
  | [] => [(lang, ts)]
  | (l, old) :: r =>
      if String.eqb lang l then (lang, ts) :: r else (l, old) :: lang_set lang ts r
  end.

(** The reducer of lines 128 to 135. *)
Definition group_by_lang (acc : by_lang) (translation : json) : outcome by_lang :=
  let* domain := read (Some translation) "domain" in
  let* locale_data := read (Some translation) "locale_data" in
  let* table := read locale_data (to_key domain) in
  let* meta := read table "" in
  let* lang := read meta "lang" in
  let l := to_key lang in
  Ok (lang_set l (lang_get l acc ++ [translation])%list acc).

Fixpoint reduce_outcome {A B : Type} (f : B -> A -> outcome B) (l : list A)
  (acc : B) : outcome B :=
  match l with
  | [] => Ok acc
  | x :: r => let* acc' := f acc x in reduce_outcome f r acc'
  end.

Definition is_json_file (file : string) : bool :=
  String.eqb (path.extname file) ".json".

Definition getOriginalTranslations (w : World) (langDir tempDir : string)
  : M by_lang :=
  perform w (execa "wp" ["i18n"; "make-json"; langDir; tempDir; "--no-purge"]) ;;
  let+ listed := lift (w_readdir w tempDir) in
  let files := filter is_json_file listed in
  let+ translations :=
    all (map (fun file =>
                lift (let* text := w_readFile w (path.join tempDir file) in
                      w_JSON_parse w text))
           files) in
  lift (reduce_outcome group_by_lang translations []).

Definition manifest_message : string :=
  "Could not read assets.json manifest inside dist directory".

Definition getAssetsManifest (w : World) (distPath : string) : outcome json :=
  match (let* content := w_readFile w (path.join distPath "assets.json") in
         w_JSON_parse w content) with
  | Throw _ => Throw (Error manifest_message)
  | other => other
  end.

(** The rejections among operations that were started and are never
    awaited. *)
Definition unhandled {A : Type} (ms : list (M A)) : list event :=
  flat_map (fun m => match snd m with
                     | Throw e => [unhandledRejection e]
                     | _ => []
                     end) ms.

(** [generateTranslations] with its writes: each write is started when the
    loop reaches it (line 222), and the promises are awaited together
    after the loop (line 231).  When the loop throws, line 231 is not
    reached: the function's promise is rejected with the loop's error, the
    writes already started go on, and the error of one that fails has no
    handler.  A write that fails while the loop is still running gets its
    handler on line 231; whether the runtime has reported it by then
    depends on timing and is not part of the trace. *)
Definition generateTranslations_io (w : World) (manifest : json)
  (translations : list json) (lang domain : string) (paths : Paths) : M unit :=
  let (writes, result) :=
    generateTranslations (w_madge w) (w_md5 w) lang domain paths
      manifest translations in
  let promises :=
    map (fun wr => perform w (fs_writeFile (fst wr) (snd wr))) writes in
  match result with
  | Ok _ => all promises ;; ret tt
  | Throw e => ((fst (all promises) ++ unhandled promises)%list, Throw e)
  | Beyond => (fst (all promises), Beyond)
  end.

(** The [try] block of [makeJson], lines 31 to 55. *)
Definition makeJson_body (w : World) : M unit :=
  let+ data := lift (getData w true) in
  let paths := snd data in
  all (map (fun p => perform w (fs_ensureDir p)) (paths_values paths)) ;;
  let+ domain :=
    lift (extractDomain (w_readdir w) (w_readFile w) (p_dist paths)) in
  let+ originalTranslations :=
    getOriginalTranslations w (p_languages paths) (p_temp paths) in
  let+ manifest := lift (getAssetsManifest w (p_dist paths)) in
  all (map (fun lt =>
              generateTranslations_io w manifest (snd lt) (fst lt) domain paths)
         originalTranslations) ;;
  ret tt.

Definition makeJson (w : World) : M unit :=
  try_catch (makeJson_body w)
    (fun error => log_error "Could not generate translations" error).

(** *** make-pot.js *)

Definition is_word (c : ascii) : bool :=
  let n := nat_of_ascii c in
  ((Nat.leb 97 n && Nat.leb n 122) || (Nat.leb 65 n && Nat.leb n 90)
   || (Nat.leb 48 n && Nat.leb n 57) || Nat.eqb n 95)%bool.

Fixpoint after_word_run (s : string) : string :=
  match s with
  | String c r => if is_word c then after_word_run r else s
  | EmptyString => s
  end.

(** [name.replace(/^(@\w+\/)/, '')]: a leading npm scope is removed. *)
Definition strip_scope (name : string) : string :=
  match name with
  | String c (String c1 r) =>
      if (Ascii.eqb c (ascii_of_nat 64) && is_word c1)%bool then
        match after_word_run r with
        | String s rest => if Ascii.eqb s slash then rest else name
        | EmptyString => name
        end
      else name
  | _ => name
  end.

(** [pkg.name.replace(...)]: only a string has a [replace] method. *)
Definition package_name (pkg : object) : outcome string :=
  match prop_get "name" pkg with
  | Some (JStr n) => Ok n
  | _ => Throw (TypeError "pkg.name.replace is not a function")
  end.

(** The [try] block of [makePot], lines 23 to 40. *)
Definition makePot_body (w : World) (pkg : object) (paths : Paths)
  (tmpSrc : string) : M unit :=
  perform w (fs_copy (p_src paths) tmpSrc) ;;
  perform w (replace_in_files (path.join (p_src paths) "**/*.js")) ;;
  let+ name := lift (package_name pkg) in
  perform w
    (execa "wp"
       ["i18n"; "make-pot"; ".";
        path.join (p_dist paths) (strip_scope name ++ ".pot");
        "--exclude=dist"]).

(** The [finally] block, lines 53 and 54. *)
Definition makePot_cleanup (w : World) (paths : Paths) (tmpSrc : string)
  : M unit :=
  swallow (perform w (fs_copy tmpSrc (p_src paths))) ;;
  swallow (perform w (fs_remove tmpSrc)).

(** [getData] is awaited on line 19, before the [try] of line 22. *)
Definition makePot (w : World) : M unit :=
  let+ data := lift (getData w false) in
  let pkg := fst data in
  let paths := snd data in
  let tmpSrc := path.join (p_temp paths) "src" in
  try_finally
    (try_catch (makePot_body w pkg paths tmpSrc)
       (fun error =>
          log_error "An error occured while generating a .pot-file" error))
    (makePot_cleanup w paths tmpSrc).

(** *** make-aliases.js *)

Fixpoint for_each {A : Type} (f : A -> M unit) (l : list A) : M unit :=
  match l with
  | [] => ret tt
  | x :: r => f x ;; for_each f r
  end.

Definition removePreviousWpAliases (w : World) (aliasesDir : string) : M unit :=
  let+ listed := lift (w_readdir w aliasesDir) in
  let wpAliases := filter (includes "wordpress") listed in
  all (map (fun f => perform w (fs_unlink (path.join aliasesDir f))) wpAliases) ;;
  ret tt.

(** The [try] block of [makeAliases], lines 18 to 87.  The package file
    is written as [JSON.stringify(pkg, null, 2)] and a line end; the event
    carries the value. *)
Definition makeAliases_body (w : World) : M unit :=
  let+ data := lift (getData w false) in
  let pkg := fst data in
  let paths := snd data in
  let aliases := path.join (p_root paths) "./src/alias" in
  let package := path.join (p_root paths) "./package.json" in
  removePreviousWpAliases w aliases ;;
  let+ dependencies := lift (alias_dependencies pkg) in
  let alias := fresh_alias pkg in
  for_each
    (fun d =>
       perform w (fs_writeText (path.join aliases (dep_filename d))
                    (dep_content d)))
    dependencies ;;
  perform w
    (fs_writeFile package
       (JObj (prop_set "alias" (JObj (assign_aliases alias dependencies))
                pkg))).

(** The [catch] of line 88 prints the error and nothing else. *)
Definition makeAliases (w : World) : M unit :=
  try_catch (makeAliases_body w)
    (fun error => ([console_error_value error], Ok tt)).

(** *** generate-plugin.js *)

(** The [paths] object that [getData] returns, property by property. *)
Definition paths_object (paths : Paths) : object :=
  [("root", JStr (p_root paths)); ("src", JStr (p_src paths));
   ("dist", JStr (p_dist paths)); ("languages", JStr (p_languages paths));
   ("views", JStr (p_views paths)); ("temp", JStr (p_temp paths))].

(** The object that [getData] returns. *)
Definition data_object (data : object * Paths) : object :=
  [("package", JObj (fst data)); ("paths", JObj (paths_object (snd data)))].

Definition plugin_templates (w : World) (a : answers) : list (string * string) :=
  [("package.json", "packageJson");
   (w_kebabCase w (pluginName a) ++ ".php", "plugin");
   ("src/" ++ w_kebabCase w (pluginName a) ++ ".js", "jsEntry");
   ("index.php", "index");
   (".babelrc", "babelrc");
   (".gitignore", "gitignore")].

Definition generatePlugin (w : World) : M unit :=
  let+ a := lift (w_prompt w) in
  let+ data := lift (getData w true) in
  let d := data_object data in
  match field "projectRoot" (JObj (paths_object (snd data))) with
  | Some (JStr projectRoot) =>
      let plugins :=
        path.join3 projectRoot "web/app/mu-plugins"
          ("sst-" ++ w_kebabCase w (pluginName a)) in
      let+ files :=
        lift (map_outcome
                (fun nt =>
                   let* content :=
                     w_render w (snd nt) a (prop_get "projectPackage" d) in
                   Ok (fst nt, content))
                (plugin_templates w a)) in
      try_catch
        (perform w (fs_mkdir plugins) ;;
         all (map (fun name => perform w (fs_mkdir (path.join plugins name)))
                ["src"]) ;;
         all (map (fun nc =>
                     perform w (fs_writeText (path.join plugins (fst nc)) (snd nc)))
                files) ;;
         ret tt)
        (fun error => log_error "Failed to create plugin" error)
  | _ => lift (Throw (TypeError "The path argument must be of type string"))
  end.

(** * Sample data and the specification's wording *)

Definition sample_meta (domain lang : string) : json :=
  JObj [("domain", JStr domain); ("lang", JStr lang)].

(** A catalog fragment as [wp i18n make-json] writes it. *)
Definition sample_fragment (domain source lang : string) (messages : object)
  : json :=
  JObj [("domain", JStr domain);
        ("source", JStr source);
        ("locale_data",
         JObj [(domain, JObj (("", sample_meta domain lang) :: messages))])].

(** The re-domain step as the specification words it: whenever the
    catalog's domain differs from the target, the table moves to the
    target's key, the old key is gone, and both domain fields name the
    target. *)
Definition redomain_as_specified (domain : string) (merged : object) : Prop :=
  prop_get "domain" merged <> Some (JStr domain) ->
  exists merged' locale_data table meta,
    redomain domain merged = Ok merged' /\
    prop_get "domain" merged' = Some (JStr domain) /\
    prop_get "locale_data" merged' = Some (JObj locale_data) /\
    prop_get domain locale_data = Some (JObj table) /\
    prop_get "" table = Some (JObj meta) /\
    prop_get "domain" meta = Some (JStr domain).

(** A catalog whose domain is the empty string: the guard
    [originalDomain && ...] of line 202 skips it. *)
Definition empty_domain_catalog : object :=
  entries (sample_fragment "" "src/a.js" "sv_SE" [("Hello", JArr [JStr "Hej"])]).


(** One header line of a .po file: the text between double quotes, closed
    by a backslash and the letter n. *)
Definition po_line (text : string) : string :=
  str1 dquote ++ text ++ header_end ++ nl.

(** Two templates in one directory; only the second declares a domain. *)
Definition two_templates : directory :=
  [("first.pot", po_line "Project-Id-Version: plugin");
   ("second.pot", po_line "Project-Id-Version: plugin" ++ po_line "X-Domain: foo")].

Definition sample_paths : Paths := getData_paths "/proj" "/tmp".

(** A stand-in for [md5]: the sum of the character codes, in decimal. *)
Definition sample_md5 (s : string) : string :=
  string_of_Z
    (Z.of_nat (fold_right (fun c n => nat_of_ascii c + n) 0
                 (list_ascii_of_string s))).

(** The path of the catalog written for an output path, in the sample
    project. *)
Definition sample_output (domain lang relative : string) : string :=
  "/proj/dist/" ++ translationName sample_md5 domain lang relative.

(** Two entrypoints that both import [shared.js]. *)
Definition sample_madge (srcFile : string) : outcome (list string) :=
  if String.eqb srcFile "/proj/src/a.js" then Ok ["a.js"; "shared.js"]
  else if String.eqb srcFile "/proj/src/b.js" then Ok ["b.js"; "shared.js"]
  else Throw (ExternalFailure "madge").

Definition shared_fragment : json :=
  sample_fragment "messages" "src/shared.js" "sv_SE"
    [("Hello", JArr [JStr "Hej"])].

Definition b_fragment : json :=
  sample_fragment "messages" "src/b.js" "sv_SE" [("Bye", JArr [JStr "Hej da"])].

Definition two_entrypoints : json :=
  JObj [("a.js", JStr "a.js"); ("b.js", JStr "b.js")].

(** The catalog written for an entrypoint, by its file name. *)
Fixpoint written (name : string) (writes : list write) : option json :=
  match writes with
  | [] => None
  | (n, v) :: r => if String.eqb n name then Some v else written name r
  end.

(** [catalog.locale_data[domain]], the table of a catalog. *)
Definition table_of (domain : string) (catalog : json) : option json :=
  match field "locale_data" catalog with
  | Some ld => field domain ld
  | None => None
  end.

(** ** Paths as lists of segments *)

Definition no_slash (s : string) : bool :=
  forallb (fun c => negb (Ascii.eqb c slash)) (list_ascii_of_string s).

(** A segment that [path.normalize] keeps as it is. *)
Definition regular (seg : string) : bool :=
  negb (String.eqb seg "") && negb (String.eqb seg ".")
  && negb (String.eqb seg "..") && no_slash seg.

(** The absolute path with the given segments. *)
Definition absolute (segs : list string) : string :=
  "/" ++ join_with "/" segs.

(** The scenario of the specification: one entrypoint, one fragment. *)
Definition scenario_manifest : json := JObj [("a.js", JStr "a.abc123.js")].

Definition scenario_fragment : json :=
  sample_fragment "messages" "src/a.js" "en_US" [("Hello", JArr [JStr "Hello"])].

Definition scenario_madge (srcFile : string) : outcome (list string) :=
  if String.eqb srcFile "/proj/src/a.js" then Ok ["a.js"]
  else Throw (ExternalFailure "madge").

(** Two entrypoints with an output file and a fragment each. *)
Definition pair_manifest : json :=
  JObj [("a.js", JStr "a.abc123.js"); ("b.js", JStr "b.def456.js")].

Definition pair_madge (srcFile : string) : outcome (list string) :=
  if String.eqb srcFile "/proj/src/a.js" then Ok ["a.js"]
  else if String.eqb srcFile "/proj/src/b.js" then Ok ["b.js"]
  else Throw (ExternalFailure "madge").

Definition pair_fragments : list json :=
  [sample_fragment "messages" "src/a.js" "en_US" [("Hello", JArr [JStr "Hello"])];
   sample_fragment "messages" "src/b.js" "en_US" [("Bye", JArr [JStr "Bye"])]].

(** The catalog that the second entrypoint gets. *)
Definition b_catalog : json :=
  JObj [("domain", JStr "myplugin");
        ("source", JStr "dist/b.def456.js");
        ("locale_data",
         JObj [("myplugin",
                JObj [("", JObj [("domain", JStr "myplugin");
                                 ("lang", JStr "en_US")]);
                      ("Bye", JArr [JStr "Bye"])])])].

(** ** Catalog fragments in the JED format

    A fragment as the localization tool writes it: scalar fields, and
    under [locale_data] one table, keyed by the fragment's domain.  In the
    table the empty key holds the metadata, an object of scalars, and
    every other key holds the array of a message's translated forms. *)

Fixpoint unique (l : list string) : bool :=
  match l with
  | [] => true
  | x :: r => negb (existsb (String.eqb x) r) && unique r
  end.

Definition jed_entry (kv : string * json) : bool :=
  if String.eqb (fst kv) "" then
    match snd kv with
    | JObj m => unique (keys m) && forallb (fun f => is_scalar (snd f)) m
    | _ => false
    end
  else
    match snd kv with
    | JArr xs => forallb is_scalar xs
    | _ => false
    end.

Definition fragment_table (d : string) (c : object) : option object :=
  match prop_get "locale_data" c with
  | Some (JObj [(d', JObj t)]) => if String.eqb d' d then Some t else None
  | _ => None
  end.

Definition wf_fragment (d : string) (c : object) : bool :=
  unique (keys c)
  && forallb (fun kv => String.eqb (fst kv) "locale_data" || is_scalar (snd kv)) c
  && match fragment_table d c with
     | Some t => unique (keys t) && forallb jed_entry t
     | None => false
     end.

(** The tables of the fragments that have one, in order. *)
Fixpoint tables (d : string) (cs : list object) : list object :=
  match cs with
  | [] => []
  | c :: r =>
      match fragment_table d c with
      | Some t => t :: tables d r
      | None => tables d r
      end
  end.

(** What the last element of [l] that has something gives. *)
Definition last_with {T A : Type} (g : T -> option A) (l : list T) : option A :=
  fold_left (fun acc t => match g t with Some a => Some a | None => acc end)
    l None.

(** Position [i] of the array a table holds for message [k]. *)
Definition position (k : string) (i : nat) (t : object) : option json :=
  match prop_get k t with
  | Some (JArr ys) => nth_error ys i
  | _ => None
  end.

(** Field [f] of a table's metadata entry. *)
Definition metafield (f : string) (t : object) : option json :=
  match prop_get "" t with
  | Some (JObj m) => prop_get f m
  | _ => None
  end.

(** Last-write-wins as the specification words it: the merged table holds,
    for a key, the value of the last fragment that has the key. *)
Definition last_fragment_wins (d : string) (first : object) (rest : list object)
  : Prop :=
  forall merged T before t after k v,
    merge first rest = Some merged ->
    fragment_table d merged = Some T ->
    tables d (first :: rest) = (before ++ t :: after)%list ->
    prop_get k t = Some v ->
    (forall t', In t' after -> prop_get k t' = None) ->
    prop_get k T = Some v.

(** Two fragments for one message: the earlier one with a plural form. *)
Definition plural_fragment : object :=
  entries (sample_fragment "messages" "src/list.js" "sv_SE"
             [("%d item", JArr [JStr "%d sak"; JStr "%d saker"])]).

Definition singular_fragment : object :=
  entries (sample_fragment "messages" "src/badge.js" "sv_SE"
             [("%d item", JArr [JStr "%d artikel"])]).

(** The shape every merged table keeps: metadata under the empty key is
    an object, every message an array. *)
Definition shaped (t : object) : Prop :=
  forall k v, prop_get k t = Some v ->
              if String.eqb k "" then exists m, v = JObj m
              else exists xs, v = JArr xs.

(** What a merged table [T] owes to the tables [L] it was merged from:
    their keys, and, position by position and field by field, the value
    of the last table that has one. *)
Definition merged_from (T : object) (L : list object) : Prop :=
  shaped T /\
  (forall k, In k (keys T) <-> exists t, In t L /\ In k (keys t)) /\
  (forall k i, k <> "" -> position k i T = last_with (position k i) L) /\
  (forall f, metafield f T = last_with (metafield f) L).

(** The value line 78 assigns for a dependency named [k]. *)
Definition alias_for (k : string) (d : dependency) : option json :=
  if String.eqb (dep_name d) k
  then Some (JStr (aliasesRelativeRoot ++ "/" ++ dep_filename d))
  else None.

(** ** The specification's wording of the other claims *)

(** Every entry of the old alias table whose key has no [@wordpress] in
    it is in the new table with the same value. *)
Definition other_aliases_preserved (pkg : object) : Prop :=
  forall alias' k v,
    new_alias pkg = Ok alias' ->
    includes "@wordpress" k = false ->
    prop_get k (Object_entries_or_empty (prop_get "alias" pkg)) = Some v ->
    prop_get k alias' = Some v.

(** A package that depends on react and already aliases it. *)
Definition react_package : object :=
  [("name", JStr "plugin");
   ("dependencies",
    JObj [("@wordpress/element", JStr "^2.0.0"); ("react", JStr "^16.8.0")]);
   ("alias", JObj [("react", JStr "preact/compat");
                   ("@wordpress/data", JStr "./src/alias/wordpress-data.js");
                   ("~", JStr "./src")])].



(** A world in which the package is found and wp-cli fails. *)
Definition failing_wp_world : World :=
  {| w_readPkg := fun _ => Ok (react_package, "/proj");
     w_tmpdir := "/tmp";
     w_readdir := fun _ => Ok [];
     w_readFile := fun _ => Throw (ExternalFailure "readFile");
     w_JSON_parse := fun _ => Throw (ExternalFailure "JSON.parse");
     w_madge := fun _ => Ok [];
     w_md5 := sample_md5;
     w_perform := fun ev =>
       match ev with
       | execa _ _ => Throw (ExternalFailure "wp")
       | _ => Ok tt
       end;
     w_prompt := Ok {| pluginName := "Plugin"; description := ""; a_domain := "plugin" |};
     w_kebabCase := fun s => s;
     w_render := fun _ _ _ => Ok "" |}.

(** * Further definitions *)

(** The characters of a string that are not spaces for [\S]. *)
Definition no_space (s : string) : bool :=
  forallb (fun c => negb (is_space c)) (list_ascii_of_string s).

(** The language [getOriginalTranslations] files a translation under:
    [translation.locale_data[translation.domain][''].lang], as a property
    name (lines 129, 130 and 133). *)
Definition translation_lang (translation : json) : outcome string :=
  let* domain := read (Some translation) "domain" in
  let* locale_data := read (Some translation) "locale_data" in
  let* table := read locale_data (to_key domain) in
  let* meta := read table "" in
  let* lang := read meta "lang" in
  Ok (to_key lang).

Definition has_lang (lang : string) (translation : json) : bool :=
  match translation_lang translation with
  | Ok l => String.eqb lang l
  | _ => false
  end.

(** The callback of [translations.filter] on lines 189 to 191, where it
    returns. *)
Definition is_related (root : string) (dependecies : list string)
  (translation : json) : bool :=
  match source_of translation with
  | Ok s => existsb (String.eqb (path.join root s)) dependecies
  | _ => false
  end.

Definition is_js_entry (kv : string * json) : bool :=
  String.eqb (path.extname (fst kv)) ".js".

(** No [x-domain: ] marker starts inside [before] when [content] follows
    it. *)
Fixpoint marker_free (before content : string) : bool :=
  match before with
  | EmptyString => true
  | String _ r =>
      match prefix_ci x_domain_marker (before ++ content) with
      | None => marker_free r content
      | Some _ => false
      end
  end.

(** Fragments of two languages, as [wp i18n make-json] leaves them in the
    temporary directory. *)
Definition sv_one : json := sample_fragment "messages" "src/a.js" "sv_SE" [].
Definition en_one : json := sample_fragment "messages" "src/a.js" "en_US" [].
Definition sv_two : json := sample_fragment "messages" "src/b.js" "sv_SE" [].

(** A dependency analysis that fails for [b.js]. *)
Definition failing_madge (srcFile : string) : outcome (list string) :=
  if String.eqb srcFile "/proj/src/a.js" then Ok ["a.js"]
  else Throw (ExternalFailure "madge").

(** A fragment that lost its [source]. *)
Definition sourceless_fragment : json :=
  JObj [("domain", JStr "messages");
        ("locale_data",
         JObj [("messages", JObj [("", sample_meta "messages" "sv_SE")])])].

(** A catalog whose domain names no table of [locale_data]. *)
Definition orphan_domain_catalog : object :=
  [("domain", JStr "theme"); ("source", JStr "src/a.js");
   ("locale_data",
    JObj [("messages", JObj [("", sample_meta "messages" "sv_SE")])])].

(** Two fragments of one domain that differ in their scalar fields. *)
Definition early_fragment : object :=
  [("translation-revision-date", JStr "2019-06-01"); ("domain", JStr "messages");
   ("source", JStr "src/a.js");
   ("locale_data",
    JObj [("messages", JObj [("", sample_meta "messages" "sv_SE")])])].

Definition late_fragment : object :=
  [("domain", JStr "plugin"); ("source", JStr "src/b.js");
   ("locale_data",
    JObj [("messages", JObj [("", sample_meta "messages" "sv_SE")])])].

(** A dash directly followed by a lower-case letter occurs in [s]: what
    the pattern of [camelCaseDash] matches. *)
Fixpoint dash_lower (s : string) : bool :=
  match s with
  | EmptyString => false
  | String c r =>
      match r with
      | String l _ => (Ascii.eqb c dash && is_lower l) || dash_lower r
      | EmptyString => false
      end
  end.

(** The write of one alias file, lines 77 to 79. *)
Definition alias_file (aliases : string) (d : dependency) : event :=
  fs_writeText (path.join aliases (dep_filename d)) (dep_content d).

(** A package with a wordpress dependency whose name has no separator. *)
Definition unscoped_package : object :=
  [("name", JStr "plugin");
   ("dependencies",
    JObj [("@wordpress/element", JStr "^2.0.0"); ("@wordpress-i18n", JStr "^1.0.0")]);
   ("alias", JObj [("~", JStr "./src")])].

(** A world with a package and an alias directory, in which every call
    succeeds. *)
Definition alias_world (pkg : object) : World :=
  {| w_readPkg := fun _ => Ok (pkg, "/proj");
     w_tmpdir := "/tmp";
     w_readdir := fun _ => Ok ["wordpress-data.js"; "react.js"];
     w_readFile := fun _ => Throw (ExternalFailure "readFile");
     w_JSON_parse := fun _ => Throw (ExternalFailure "JSON.parse");
     w_madge := fun _ => Ok [];
     w_md5 := sample_md5;
     w_perform := fun _ => Ok tt;
     w_prompt := Ok {| pluginName := "Plugin"; description := ""; a_domain := "plugin" |};
     w_kebabCase := fun s => s;
     w_render := fun _ _ _ => Ok "" |}.

Definition all_word (s : string) : bool :=
  forallb is_word (list_ascii_of_string s).

(** A world with a package, readable directories and a template without
    a domain. *)
Definition domainless_world : World :=
  {| w_readPkg := fun _ => Ok (react_package, "/proj");
     w_tmpdir := "/tmp";
     w_readdir := readdir_of "/proj/dist" two_templates;
     w_readFile := readFile_of "/proj/dist" two_templates;
     w_JSON_parse := fun _ => Throw (ExternalFailure "JSON.parse");
     w_madge := fun _ => Ok [];
     w_md5 := sample_md5;
     w_perform := fun _ => Ok tt;
     w_prompt := Ok {| pluginName := "Plugin"; description := ""; a_domain := "plugin" |};
     w_kebabCase := fun s => s;
     w_render := fun _ _ _ => Ok "" |}.

(** The text the sample worlds take for the content of a file, and its
    parse. *)
Definition scenario_text : string := "scenario_fragment".

(** A world that holds the scenario of the specification: a template
    that declares [myplugin], one fragment and a manifest. *)
Definition scenario_world : World :=
  {| w_readPkg := fun _ => Ok (react_package, "/proj");
     w_tmpdir := "/tmp";
     w_readdir := fun dir =>
       if String.eqb dir "/proj/dist" then Ok ["plugin.pot"; "assets.json"]
       else if String.eqb dir "/tmp" then Ok ["plugin-en_US-1.json"; "src"]
       else Throw (ExternalFailure "readdir");
     w_readFile := fun file =>
       if String.eqb file "/proj/dist/plugin.pot"
       then Ok (po_line "X-Domain: myplugin")
       else if String.eqb file "/tmp/plugin-en_US-1.json" then Ok scenario_text
       else if String.eqb file "/proj/dist/assets.json" then Ok "manifest"
       else Throw (ExternalFailure "readFile");
     w_JSON_parse := fun text =>
       if String.eqb text scenario_text then Ok scenario_fragment
       else if String.eqb text "manifest" then Ok scenario_manifest
       else Throw (ExternalFailure "JSON.parse");
     w_madge := scenario_madge;
     w_md5 := sample_md5;
     w_perform := fun _ => Ok tt;
     w_prompt := Ok {| pluginName := "Plugin"; description := ""; a_domain := "plugin" |};
     w_kebabCase := fun s => s;
     w_render := fun _ _ _ => Ok "" |}.

(** The same world with an unreadable file. *)
Definition without_file (w : World) (missing : string) : World :=
  {| w_readPkg := w_readPkg w;
     w_tmpdir := w_tmpdir w;
     w_readdir := w_readdir w;
     w_readFile := fun file =>
       if String.eqb file missing then Throw (ExternalFailure "ENOENT")
       else w_readFile w file;
     w_JSON_parse := w_JSON_parse w;
     w_madge := w_madge w;
     w_md5 := w_md5 w;
     w_perform := w_perform w;
     w_prompt := w_prompt w;
     w_kebabCase := w_kebabCase w;
     w_render := w_render w |}.

Definition generation_failed : string := "Could not generate translations".

(** The catalog that the scenario's entrypoint gets. *)
Definition scenario_catalog : json :=
  JObj [("domain", JStr "myplugin");
        ("source", JStr "dist/a.abc123.js");
        ("locale_data",
         JObj [("myplugin",
                JObj [("", JObj [("domain", JStr "myplugin");
                                 ("lang", JStr "en_US")]);
                      ("Hello", JArr [JStr "Hello"])])])].

(** ** make-pot.js: commenting out the dynamic imports *)

(** What [.] matches: every character but a line terminator.  Of the
    four terminators of the language, the line feed and the carriage
    return are characters of this model. *)
Definition is_dot (c : ascii) : bool :=
  let n := nat_of_ascii c in negb (Nat.eqb n 10 || Nat.eqb n 13).

Definition close_paren : ascii := ascii_of_nat 41.
Definition semicolon : ascii := ascii_of_nat 59.

(** [.+\);?] at the start of [s], the longest run first: the length of
    the match. *)
Fixpoint argument_end (s : string) : option nat :=
  match s with
  | String c r =>
      if is_dot c then
        match argument_end r with
        | Some n => Some (S n)
        | None =>
            match r with
            | String p r' =>
                if Ascii.eqb p close_paren then
                  match r' with
                  | String q _ => if Ascii.eqb q semicolon then Some 3 else Some 2
                  | EmptyString => Some 2
                  end
                else None
            | EmptyString => None
            end
        end
      else None
  | EmptyString => None
  end.

(** [.+import\(.+\);?] at the start of [s], the longest run first: the
    length of the match. *)
Fixpoint import_call (s : string) : option nat :=
  match s with
  | String c r =>
      if is_dot c then
        match import_call r with
        | Some n => Some (S n)
        | None =>
            if String.prefix "import(" r
            then option_map (fun n => 8 + n) (argument_end (drop 7 r))
            else None
        end
      else None
  | EmptyString => None
  end.

(** The replacement of lines 29 and 30 on the content of one file: the
    content is scanned from left to right, every match is replaced by
    itself after two slashes and a space, and the scan goes on after the
    match.  [skip] counts the characters of a match still to be copied. *)
Fixpoint comment_imports_from (skip : nat) (s : string) : string :=
  match s with
  | EmptyString => EmptyString
  | String c r =>
      match skip with
      | S k => String c (comment_imports_from k r)
      | O =>
          match import_call s with
          | Some n => "// " ++ String c (comment_imports_from (n - 1) r)
          | None => String c (comment_imports_from 0 r)
          end
      end
  end.

Definition comment_imports (content : string) : string :=
  comment_imports_from 0 content.

Definition all_dot (s : string) : bool :=
  forallb is_dot (list_ascii_of_string s).

Definition no_paren (s : string) : bool :=
  forallb (fun c => negb (Ascii.eqb c close_paren)) (list_ascii_of_string s).

(** Where a line ends: at the end of the content or before a terminator. *)
Definition line_end (rest : string) : bool :=
  match rest with
  | EmptyString => true
  | String t _ => negb (is_dot t)
  end.

(** The length of the semicolon that [;?] takes at the start of [post]. *)
Definition semi (post : string) : nat :=
  match post with
  | String q _ => if Ascii.eqb q semicolon then 1 else 0
  | EmptyString => 0
  end.

(** The call does not occur on the line after its first character. *)
Definition call_free (line : string) : bool :=
  match line with
  | String _ tail => negb (includes "import(" tail)
  | EmptyString => true
  end.

(** A source file with a dynamic import in a statement and one at the
    start of a line. *)
Definition lazy_source : string :=
  "const page = import('./page');" ++ nl
  ++ "import('./menu').then(show);" ++ nl
  ++ "export default page;" ++ nl.

(** ** A write that no one awaits *)


(** * Properties *)

(** ** Objects as property lists *)

Lemma prop_get_set_same (k : string) (v : json) (o : object) :
  prop_get k (prop_set k v o) = Some v.
Proof.
  induction o as [|[k' v'] r IH]; simpl.
  - now rewrite String.eqb_refl.
  - destruct (String.eqb k k') eqn:E; simpl.
    + now rewrite String.eqb_refl.
    + now rewrite E.
Qed.

Lemma prop_get_set_other (k k' : string) (v : json) (o : object) :
  k <> k' -> prop_get k (prop_set k' v o) = prop_get k o.
Proof.
  intros Hne. induction o as [|[k0 v0] r IH]; simpl.
  - apply String.eqb_neq in Hne. now rewrite Hne.
  - destruct (String.eqb k' k0) eqn:E; simpl.
    + apply String.eqb_eq in E. subst k0.
      apply String.eqb_neq in Hne. now rewrite Hne.
    + destruct (String.eqb k k0); auto.
Qed.

Lemma prop_get_delete_same (k : string) (o : object) :
  prop_get k (prop_delete k o) = None.
Proof.
  induction o as [|[k' v'] r IH]; simpl; auto.
  destruct (String.eqb k k') eqn:E; simpl; auto. now rewrite E.
Qed.

Lemma prop_get_delete_other (k k' : string) (o : object) :
  k <> k' -> prop_get k (prop_delete k' o) = prop_get k o.
Proof.
  intros Hne. induction o as [|[k0 v0] r IH]; simpl; auto.
  destruct (String.eqb k' k0) eqn:E; simpl.
  - apply String.eqb_eq in E. subst k0.
    apply String.eqb_neq in Hne. now rewrite Hne.
  - destruct (String.eqb k k0); auto.
Qed.

Lemma prop_get_in_keys (k : string) (o : object) :
  In k (keys o) <-> prop_get k o <> None.
Proof.
  induction o as [|[k' v'] r IH]; simpl.
  - split; [tauto | congruence].
  - destruct (String.eqb k k') eqn:E.
    + apply String.eqb_eq in E. subst. split; [congruence | auto].
    + apply String.eqb_neq in E. rewrite <- IH. split.
      * intros [H|H]; [congruence | auto].
      * auto.
Qed.

Lemma keys_prop_set (k k' : string) (v : json) (o : object) :
  In k (keys (prop_set k' v o)) <-> k = k' \/ In k (keys o).
Proof.
  rewrite !prop_get_in_keys.
  destruct (String.eqb_spec k k') as [->|Hne].
  - rewrite prop_get_set_same. split; [auto | congruence].
  - rewrite prop_get_set_other by assumption. tauto.
Qed.

(** ** The re-domain step *)

Lemma redomain_same_domain (domain : string) (m : object) :
  prop_get "domain" m = Some (JStr domain) -> redomain domain m = Ok m.
Proof.
  intros H. unfold redomain. rewrite H, String.eqb_refl.
  now rewrite andb_false_r.
Qed.

(** Whatever the step returned, running it again on the result changes
    nothing. *)
Lemma redomain_twice (domain : string) (merged merged' : object) :
  redomain domain merged = Ok merged' -> redomain domain merged' = Ok merged'.
Proof.
  intros H. unfold redomain in H.
  destruct (truthy (prop_get "domain" merged) && _) eqn:G.
  - destruct (prop_get "locale_data" merged) as [[| | | | |ld]|]; try discriminate.
    destruct (prop_get _ ld) as [table|]; try discriminate.
    destruct (prop_get domain _) as [[| | | | |tbl]|]; try discriminate.
    destruct (prop_get "" tbl) as [[| | | | |meta]|]; try discriminate.
    injection H as <-. apply redomain_same_domain. apply prop_get_set_same.
  - injection H as <-. unfold redomain. now rewrite G.
Qed.

(** C8.  When the merged catalog's domain already is the target domain,
    the re-domain step returns the merged object as it is: no key of
    [locale_data] is moved, deleted or rewritten, and a second run of the
    step on the result returns it again. *)
Theorem redomain_idempotent :
  forall (domain : string) (merged : object),
    prop_get "domain" merged = Some (JStr domain) ->
    redomain domain merged = Ok merged /\
    bind (redomain domain merged) (redomain domain) = Ok merged.
Proof.
  intros domain merged H.
  pose proof (redomain_same_domain domain merged H) as E.
  split; auto. rewrite E. simpl. exact E.
Qed.

Lemma redomain_idempotent_witness :
  prop_get "domain"
    (entries (sample_fragment "myplugin" "src/a.js" "sv_SE" [])) =
  Some (JStr "myplugin") /\
  redomain "myplugin" (entries (sample_fragment "myplugin" "src/a.js" "sv_SE" []))
  = Ok (entries (sample_fragment "myplugin" "src/a.js" "sv_SE" [])).
Proof.
  split; [reflexivity|].
  apply (redomain_idempotent "myplugin"
           (entries (sample_fragment "myplugin" "src/a.js" "sv_SE" []))).
  reflexivity.
Defined.

Lemma redomain_skips_empty_domain :
  ~ redomain_as_specified "myplugin" empty_domain_catalog.
Proof.
  intros H.
  destruct H as (m' & ld & t & meta & Hr & Hd & _); [discriminate|].
  vm_compute in Hr. injection Hr as <-. discriminate Hd.
Qed.

(** C2, amended.  For a merged catalog whose domain is a non-empty string
    other than the target, naming a table of [locale_data] that has a
    metadata entry, the step returns a catalog in which the table sits
    under the target's key, the original key is gone, the metadata entry
    and the catalog both name the target as their domain, and everything
    else is as it was.  A catalog whose domain is empty or absent is
    returned unchanged. *)
Theorem redomain_moves_table :
  forall (domain original : string) (merged locale_data table meta : object),
    prop_get "domain" merged = Some (JStr original) ->
    original <> "" ->
    original <> domain ->
    prop_get "locale_data" merged = Some (JObj locale_data) ->
    prop_get original locale_data = Some (JObj table) ->
    prop_get "" table = Some (JObj meta) ->
    exists merged' locale_data' table' meta',
      redomain domain merged = Ok merged' /\
      prop_get "domain" merged' = Some (JStr domain) /\
      prop_get "locale_data" merged' = Some (JObj locale_data') /\
      prop_get original locale_data' = None /\
      prop_get domain locale_data' = Some (JObj table') /\
      prop_get "" table' = Some (JObj meta') /\
      prop_get "domain" meta' = Some (JStr domain) /\
      (forall k, k <> "domain" -> prop_get k meta' = prop_get k meta) /\
      (forall k, k <> "" -> prop_get k table' = prop_get k table) /\
      (forall k, k <> original -> k <> domain ->
                 prop_get k locale_data' = prop_get k locale_data) /\
      (forall k, k <> "domain" -> k <> "locale_data" ->
                 prop_get k merged' = prop_get k merged) /\
      (forall m, truthy (prop_get "domain" m) = false ->
                 redomain domain m = Ok m).
Proof.
  intros domain original merged ld table meta Hd Hne Hdiff Hld Ht Hm.
  set (ld1 := prop_delete original (prop_set domain (JObj table) ld)).
  set (meta' := prop_set "domain" (JStr domain) meta).
  set (table' := prop_set "" (JObj meta') table).
  set (ld2 := prop_set domain (JObj table') ld1).
  exists (prop_set "domain" (JStr domain)
            (prop_set "locale_data" (JObj ld2) merged)), ld2, table', meta'.
  assert (Hg1 : prop_get domain ld1 = Some (JObj table)).
  { unfold ld1. rewrite prop_get_delete_other by congruence.
    apply prop_get_set_same. }
  repeat split.
  - unfold redomain. rewrite Hd. simpl truthy.
    apply String.eqb_neq in Hne, Hdiff. rewrite Hne, Hdiff. simpl.
    rewrite Hld, Ht. fold ld1. rewrite Hg1, Hm. reflexivity.
  - apply prop_get_set_same.
  - rewrite prop_get_set_other by discriminate. apply prop_get_set_same.
  - unfold ld2. rewrite prop_get_set_other by assumption.
    unfold ld1. apply prop_get_delete_same.
  - apply prop_get_set_same.
  - apply prop_get_set_same.
  - apply prop_get_set_same.
  - intros k Hk. unfold meta'. now rewrite prop_get_set_other.
  - intros k Hk. unfold table'. now rewrite prop_get_set_other.
  - intros k Hk1 Hk2. unfold ld2, ld1.
    rewrite prop_get_set_other by assumption.
    rewrite prop_get_delete_other by assumption.
    now rewrite prop_get_set_other.
  - intros k Hk1 Hk2. now rewrite !prop_get_set_other.
  - intros m Hf. unfold redomain. now rewrite Hf.
Qed.

Lemma redomain_moves_table_witness :
  exists merged',
    redomain "myplugin"
      (entries (sample_fragment "messages" "src/a.js" "sv_SE"
                  [("Hello", JArr [JStr "Hej"])])) = Ok merged' /\
    prop_get "domain" merged' = Some (JStr "myplugin").
Proof.
  destruct (redomain_moves_table "myplugin" "messages"
              (entries (sample_fragment "messages" "src/a.js" "sv_SE"
                          [("Hello", JArr [JStr "Hej"])]))
              [("messages",
                JObj [("", sample_meta "messages" "sv_SE");
                      ("Hello", JArr [JStr "Hej"])])]
              [("", sample_meta "messages" "sv_SE");
               ("Hello", JArr [JStr "Hej"])]
              [("domain", JStr "messages"); ("lang", JStr "sv_SE")])
    as (m' & _ & _ & _ & Hr & Hd & _);
    try reflexivity; try discriminate.
  exists m'. split; assumption.
Defined.

(** ** Domain extraction *)

(** When the first template read declares a domain, that domain is
    returned. *)
Lemma extractDomain_first_file
  (readdir : string -> outcome (list string))
  (readFile : string -> outcome string)
  (distDir file content domain : string) (files rest : list string) :
  readdir distDir = Ok files ->
  filter is_translation_file files = file :: rest ->
  readFile (path.join distDir file) = Ok content ->
  match_x_domain content = Some domain ->
  domain <> "" ->
  extractDomain readdir readFile distDir = Ok domain.
Proof.
  intros Hd Hf Hr Hm Hne. unfold extractDomain. rewrite Hd. simpl.
  rewrite Hf. simpl. rewrite Hr. simpl. rewrite Hm. simpl.
  apply String.eqb_neq in Hne. now rewrite Hne.
Qed.

(** C4.  With two templates of which only the second declares
    [X-Domain: foo], extraction does not return [foo]: the first
    template has no marker, [match] returns [null] and the destructuring
    on line 86 throws.  The second template alone, or listed first,
    gives [foo]. *)
Theorem extractDomain_throws_on_unmarked_first_template :
  extractDomain (readdir_of "/proj/dist" two_templates)
    (readFile_of "/proj/dist" two_templates) "/proj/dist"
  = Throw (TypeError "content.match(...) is not iterable")
  /\ extractDomain (readdir_of "/proj/dist" (rev two_templates))
       (readFile_of "/proj/dist" (rev two_templates)) "/proj/dist"
     = Ok "foo"
  /\ extractDomain (readdir_of "/proj/dist" (tl two_templates))
       (readFile_of "/proj/dist" (tl two_templates)) "/proj/dist"
     = Ok "foo".
Proof. repeat split; vm_compute; reflexivity. Qed.

(** ** The loop of [generateTranslations] *)

Lemma relatedTranslations_none (root : string) (deps : list string)
  (ts : list json) :
  (forall t s, In t ts -> source_of t = Ok s ->
               ~ In (path.join root s) deps) ->
  forall i,
    relatedTranslations root deps i ts = Ok [] \/
    exists e, relatedTranslations root deps i ts = Throw e.
Proof.
  induction ts as [|t r IH]; intros H i; simpl; auto.
  assert (Hs : (exists s, source_of t = Ok s) \/ exists e, source_of t = Throw e).
  { unfold source_of. destruct t as [| | | | |o]; eauto.
    destruct (prop_get "source" o) as [[| | | | |]|]; eauto. }
  destruct Hs as [[s Hs]|[e Hs]]; rewrite Hs; simpl; eauto.
  destruct (IH (fun t' s' Hin => H t' s' (or_intror Hin)) (S i)) as [E|[e E]];
    rewrite E; simpl; eauto.
  destruct (existsb _ deps) eqn:X; auto.
  apply existsb_exists in X. destruct X as (d & Hin & Heq).
  apply String.eqb_eq in Heq. subst d.
  exfalso. apply (H t s); simpl; auto.
Qed.

(** C3.  When no fragment's source, joined to the project root, is among
    the entrypoint's dependencies, the turn of the loop for that
    entrypoint leaves the state as it was and issues no write, however
    the turn ends. *)
Theorem no_match_no_write :
  forall (madge : string -> outcome (list string)) (md5 : string -> string)
         (lang domain : string) (paths : Paths) (st : loop_state)
         (key : string) (value : json),
    (forall deps t s,
        madge (path.join (p_src paths) key) = Ok deps ->
        In t (st_translations st) ->
        source_of t = Ok s ->
        ~ In (path.join (p_root paths) s)
            (map (fun dep => path.join (p_src paths) dep) deps)) ->
    (forall st',
        generateTranslations_step madge md5 lang domain paths st key value
        = Ok st' -> st' = st) /\
    fst (generateTranslations_loop madge md5 lang domain paths st
           [(key, value)]) = st_writes st.
Proof.
  intros madge md5 lang domain paths st key value H.
  assert (Hstep : forall st',
             generateTranslations_step madge md5 lang domain paths st key value
             = Ok st' -> st' = st).
  { intros st'. unfold generateTranslations_step.
    destruct (negb (String.eqb (path.extname key) ".js")).
    - congruence.
    - destruct value; try discriminate.
      destruct (madge (path.join (p_src paths) key)) as [deps| |] eqn:Hm;
        simpl; try discriminate.
      destruct (relatedTranslations_none (p_root paths)
                  (map (fun dep => path.join (p_src paths) dep) deps)
                  (st_translations st)
                  (fun t s => H deps t s eq_refl) 0) as [E|[e E]];
        rewrite E; simpl; congruence. }
  split; [exact Hstep|].
  simpl.
  destruct (generateTranslations_step madge md5 lang domain paths st key value)
    as [st'| |] eqn:E; simpl; auto.
  now rewrite (Hstep st' eq_refl).
Qed.

Lemma no_match_no_write_witness :
  fst (generateTranslations_loop sample_madge sample_md5 "sv_SE" "myplugin"
         sample_paths {| st_translations := [b_fragment]; st_writes := [] |}
         [("a.js", JStr "a.js")]) = [].
Proof.
  apply (no_match_no_write sample_madge sample_md5 "sv_SE" "myplugin"
           sample_paths {| st_translations := [b_fragment]; st_writes := [] |}
           "a.js" (JStr "a.js")).
  intros deps t s Hm Hin Hs.
  vm_compute in Hm. injection Hm as <-.
  destruct Hin as [<-|[]]. vm_compute in Hs. injection Hs as <-.
  vm_compute. intros [H|[H|[]]]; discriminate H.
Defined.

(** C5.  The merge is not free of effects on its inputs.  [_.merge] writes
    into its first argument, which is the first selected fragment itself,
    and lines 203 to 215 go on writing into it.  With two entrypoints
    that both import [shared.js]: after the first entrypoint the fragment
    of [shared.js] carries the first entrypoint's output path as its
    source and the target domain; the second entrypoint no longer selects
    it, and its catalog lacks the message of [shared.js]. *)
Theorem merge_overwrites_first_fragment :
  let run :=
    generateTranslations sample_madge sample_md5 "sv_SE" "myplugin"
      sample_paths two_entrypoints [shared_fragment; b_fragment] in
  exists st catalog_b table_b,
    snd run = Ok st /\
    nth_error (st_translations st) 0
    = Some (sample_fragment "myplugin" "dist/a.js" "sv_SE"
              [("Hello", JArr [JStr "Hej"])]) /\
    nth_error (st_translations st) 0 <> Some shared_fragment /\
    written (sample_output "myplugin" "sv_SE" "dist/b.js") (fst run)
    = Some catalog_b /\
    table_of "myplugin" catalog_b = Some table_b /\
    field "Bye" table_b = Some (JArr [JStr "Hej da"]) /\
    field "Hello" table_b = None /\
    (* while a run for the second entrypoint alone selects both fragments *)
    (exists catalog_b' table_b',
        written (sample_output "myplugin" "sv_SE" "dist/b.js")
          (fst (generateTranslations sample_madge sample_md5 "sv_SE" "myplugin"
                  sample_paths (JObj [("b.js", JStr "b.js")])
                  [shared_fragment; b_fragment]))
        = Some catalog_b' /\
        table_of "myplugin" catalog_b' = Some table_b' /\
        field "Hello" table_b' = Some (JArr [JStr "Hej"])).
Proof.
  vm_compute. do 3 eexists.
  repeat split; try reflexivity; try discriminate.
  do 2 eexists. repeat split; reflexivity.
Qed.

(** What a turn of the loop adds to the writes: nothing, or one catalog
    named after the domain, the language and the hash of the output path
    relative to the root, which is also the catalog's source. *)
Lemma step_writes
  (madge : string -> outcome (list string)) (md5 : string -> string)
  (lang domain : string) (paths : Paths) (st st' : loop_state)
  (key : string) (value : json) :
  generateTranslations_step madge md5 lang domain paths st key value = Ok st' ->
  st_writes st' = st_writes st \/
  exists out final,
    value = JStr out /\
    path.extname key = ".js" /\
    prop_get "source" final
    = Some (JStr (relativeFilename (p_root paths) (path.join (p_dist paths) out))) /\
    st_writes st' =
    (st_writes st ++
     [(path.join (p_dist paths)
         (translationName md5 domain lang
            (relativeFilename (p_root paths) (path.join (p_dist paths) out))),
       JObj final)])%list.
Proof.
  unfold generateTranslations_step.
  destruct (String.eqb (path.extname key) ".js") eqn:Hext; simpl.
  2:{ intros H. injection H as <-. now left. }
  apply String.eqb_eq in Hext.
  destruct value as [| | |out| |]; try discriminate.
  destruct (madge _) as [deps| |]; simpl; try discriminate.
  destruct (relatedTranslations _ _ _ _) as [[|[i0 first] others]| |];
    simpl; try discriminate.
  - intros H. injection H as <-. now left.
  - destruct (merge first _) as [merged|]; try discriminate.
    destruct (redomain domain merged) as [redomained| |]; simpl; try discriminate.
    intros H. injection H as <-. right.
    exists out, (prop_set "source"
                   (JStr (relativeFilename (p_root paths)
                            (path.join (p_dist paths) out))) redomained).
    simpl. repeat split; auto. apply prop_get_set_same.
Qed.

(** A write of the loop that was not there before comes from an entry of
    the manifest. *)
Lemma loop_writes
  (madge : string -> outcome (list string)) (md5 : string -> string)
  (lang domain : string) (paths : Paths) (manifest : object) :
  forall (st : loop_state) (w : write),
    In w (fst (generateTranslations_loop madge md5 lang domain paths st manifest)) ->
    In w (st_writes st) \/
    exists key out final,
      In (key, JStr out) manifest /\
      path.extname key = ".js" /\
      snd w = JObj final /\
      prop_get "source" final
      = Some (JStr (relativeFilename (p_root paths) (path.join (p_dist paths) out))) /\
      fst w =
      path.join (p_dist paths)
        (translationName md5 domain lang
           (relativeFilename (p_root paths) (path.join (p_dist paths) out))).
Proof.
  induction manifest as [|[key value] rest IH]; intros st w; simpl; auto.
  destruct (generateTranslations_step madge md5 lang domain paths st key value)
    as [st'| |] eqn:E; simpl; auto.
  intros Hin. destruct (IH st' w Hin) as [Hold|(k & o & f & Hk & He & Hs & Hsrc & Hn)].
  - destruct (step_writes _ _ _ _ _ _ _ _ _ E) as [Hw|(out & final & -> & Hext & Hsrc & Hw)];
      rewrite Hw in Hold; auto.
    apply in_app_or in Hold. destruct Hold as [Hold|[<-|[]]]; auto.
    right. exists key, out, final. simpl. repeat split; auto.
  - right. exists k, o, f. repeat split; auto.
Qed.

(** A write of the loop that was not there before is the one write that
    the turn of one entry of the manifest adds: the turn runs in the
    state that the entries before it leave, and the catalog it adds is
    named after, and carries as its source, the relative output path of
    that very entry. *)
Lemma loop_write_turn
  (madge : string -> outcome (list string)) (md5 : string -> string)
  (lang domain : string) (paths : Paths) (manifest : object) :
  forall (st : loop_state) (w : write),
    In w (fst (generateTranslations_loop madge md5 lang domain paths st manifest)) ->
    In w (st_writes st) \/
    exists before key out after s s' final,
      manifest = (before ++ (key, JStr out) :: after)%list /\
      path.extname key = ".js" /\
      generateTranslations_loop madge md5 lang domain paths st before
      = (st_writes s, Ok s) /\
      generateTranslations_step madge md5 lang domain paths s key (JStr out)
      = Ok s' /\
      st_writes s' = (st_writes s ++ [w])%list /\
      w = (path.join (p_dist paths)
             (translationName md5 domain lang
                (relativeFilename (p_root paths) (path.join (p_dist paths) out))),
           JObj final) /\
      prop_get "source" final
      = Some (JStr (relativeFilename (p_root paths) (path.join (p_dist paths) out))).
Proof.
  induction manifest as [|[key value] rest IH]; intros st w; simpl; auto.
  destruct (generateTranslations_step madge md5 lang domain paths st key value)
    as [st'| |] eqn:E; simpl; auto.
  intros Hin.
  destruct (IH st' w Hin)
    as [Hold|(b & k & o & a & s & s' & f & Hm & He & Hl & Hs & Hw & Hweq & Hsrc)].
  - destruct (step_writes _ _ _ _ _ _ _ _ _ E)
      as [Hw|(out & final & -> & Hext & Hsrc & Hw)];
      rewrite Hw in Hold; auto.
    apply in_app_or in Hold. destruct Hold as [Hold|[<-|[]]]; auto.
    right. exists [], key, out, rest, st, st', final. simpl.
    repeat split; auto.
  - right. exists ((key, value) :: b), k, o, a, s, s', f. subst rest.
    simpl. rewrite E. repeat split; auto.
Qed.

(** ** Paths built from regular segments *)

Lemma append_nil_r (s : string) : s ++ "" = s.
Proof. induction s; simpl; congruence. Qed.

Lemma append_assoc (a b c : string) : (a ++ b) ++ c = a ++ (b ++ c).
Proof. induction a; simpl; congruence. Qed.

Lemma prefix_append (p s : string) : String.prefix p (p ++ s) = true.
Proof.
  induction p as [|c p IH]; simpl.
  - now destruct s.
  - destruct (ascii_dec c c); [exact IH | congruence].
Qed.

Lemma drop_append (p s : string) : drop (String.length p) (p ++ s) = s.
Proof. induction p; simpl; auto. Qed.

Lemma replace_first_unfold (pat rep s : string) :
  replace_first pat rep s =
  if String.prefix pat s then rep ++ drop (String.length pat) s
  else match s with
       | EmptyString => EmptyString
       | String c r => String c (replace_first pat rep r)
       end.
Proof. destruct s; reflexivity. Qed.

Lemma replace_first_prefix (p s : string) : replace_first p "" (p ++ s) = s.
Proof.
  rewrite replace_first_unfold, prefix_append, drop_append. reflexivity.
Qed.

Lemma split_on_no_slash (s : string) :
  no_slash s = true -> split_on slash s = [s].
Proof.
  unfold no_slash. induction s as [|c s IH]; simpl; auto.
  intros H. apply andb_prop in H. destruct H as [Hc Hs].
  apply negb_true_iff in Hc. rewrite Hc, (IH Hs). reflexivity.
Qed.

Lemma split_on_cons (s t : string) :
  no_slash s = true ->
  split_on slash (s ++ String slash t) = s :: split_on slash t.
Proof.
  unfold no_slash. induction s as [|c s IH]; simpl.
  - reflexivity.
  - intros H. apply andb_prop in H. destruct H as [Hc Hs].
    apply negb_true_iff in Hc. rewrite Hc, (IH Hs). reflexivity.
Qed.

Lemma split_on_head (t : string) :
  split_on slash (String slash t) = "" :: split_on slash t.
Proof. reflexivity. Qed.

Lemma regular_no_slash (seg : string) : regular seg = true -> no_slash seg = true.
Proof. unfold regular. intros H. now apply andb_prop in H. Qed.

Lemma split_on_join (segs : list string) :
  Forall (fun s => regular s = true) segs -> segs <> [] ->
  split_on slash (join_with "/" segs) = segs.
Proof.
  induction 1 as [|s r Hs Hr IH]; [congruence|]. intros _.
  destruct r as [|s' r'].
  - simpl. apply split_on_no_slash, regular_no_slash, Hs.
  - change (join_with "/" (s :: s' :: r'))
      with (s ++ "/" ++ join_with "/" (s' :: r')).
    change ("/" ++ join_with "/" (s' :: r'))
      with (String slash (join_with "/" (s' :: r'))).
    rewrite split_on_cons by (apply regular_no_slash, Hs).
    rewrite IH by discriminate. reflexivity.
Qed.

Lemma push_regular (b : bool) (st : list string) (seg : string) :
  regular seg = true -> path.push_segment b st seg = seg :: st.
Proof.
  unfold regular, path.push_segment. intros H.
  repeat (apply andb_prop in H; destruct H as [H ?]).
  apply negb_true_iff in H, H1, H2. now rewrite H, H1, H2.
Qed.

Lemma fold_push_regular (b : bool) (segs st : list string) :
  Forall (fun s => regular s = true) segs ->
  fold_left (path.push_segment b) segs st = (rev segs ++ st)%list.
Proof.
  intros H. revert st. induction H as [|s r Hs Hr IH]; intros st; simpl; auto.
  rewrite push_regular by assumption. rewrite IH, <- app_assoc. reflexivity.
Qed.

Lemma join_with_app (a b : list string) :
  a <> [] -> b <> [] ->
  join_with "/" (a ++ b) = join_with "/" a ++ "/" ++ join_with "/" b.
Proof.
  induction a as [|x a IH]; [congruence|]. intros _ Hb.
  destruct a as [|y a].
  - simpl. destruct b; [congruence | reflexivity].
  - change (join_with "/" ((x :: y :: a) ++ b))
      with (x ++ "/" ++ join_with "/" ((y :: a) ++ b)).
    rewrite IH by (auto; discriminate).
    change (join_with "/" (x :: y :: a)) with (x ++ "/" ++ join_with "/" (y :: a)).
    now rewrite !append_assoc.
Qed.

Lemma list_ascii_append (s t : string) :
  list_ascii_of_string (s ++ t)
  = (list_ascii_of_string s ++ list_ascii_of_string t)%list.
Proof. induction s; simpl; congruence. Qed.

(** A string that ends in a regular segment does not end in a separator. *)
Lemma last_char_regular (p seg : string) :
  regular seg = true ->
  match last_char (p ++ seg) with
  | Some l => Ascii.eqb l slash
  | None => false
  end = false.
Proof.
  intros H. unfold last_char. rewrite list_ascii_append, rev_app_distr.
  pose proof (regular_no_slash _ H) as Hn. unfold no_slash in Hn.
  assert (Hne : seg <> "").
  { unfold regular in H. repeat (apply andb_prop in H; destruct H as [H ?]).
    apply negb_true_iff in H. now apply String.eqb_neq. }
  destruct (rev (list_ascii_of_string seg)) as [|c r] eqn:E.
  - destruct seg; [congruence|]. simpl in E.
    apply (f_equal (@List.length ascii)) in E.
    rewrite length_app in E. simpl in E. lia.
  - simpl. rewrite forallb_forall in Hn.
    assert (Hin : In c (list_ascii_of_string seg)).
    { apply in_rev. rewrite E. now left. }
    apply Hn in Hin. now apply negb_true_iff in Hin.
Qed.

Lemma join_with_last (segs : list string) (seg : string) :
  exists p, join_with "/" (segs ++ [seg]) = p ++ seg.
Proof.
  destruct segs as [|x r].
  - now exists "".
  - rewrite join_with_app by discriminate. simpl.
    exists (join_with "/" (x :: r) ++ "/"). now rewrite append_assoc.
Qed.

Lemma join_with_nonempty (segs : list string) :
  Forall (fun s => regular s = true) segs -> segs <> [] ->
  String.eqb (join_with "/" segs) "" = false.
Proof.
  intros H Hne. destruct H as [|s r Hs Hr]; [congruence|].
  assert (exists c t, s = String c t) as (c & t & ->).
  { destruct s; [discriminate Hs | eauto]. }
  destruct r; reflexivity.
Qed.

(** Normalizing the text of regular segments behind a separator gives the
    absolute path of those segments. *)
Lemma normalize_slash_join (text : string) (segs : list string) :
  Forall (fun s => regular s = true) segs -> segs <> [] ->
  split_on slash text = "" :: segs \/ split_on slash text = "" :: "" :: segs ->
  (exists p seg, regular seg = true /\ text = p ++ seg) ->
  (exists t, text = String slash t) ->
  path.normalize text = absolute segs.
Proof.
  intros Hreg Hne Hsplit (p & seg & Hseg & Hp) (t & Ht).
  unfold path.normalize. rewrite Ht at 1.
  replace (Ascii.eqb slash slash) with true by reflexivity. simpl negb.
  assert (Hq : path.normalizeString false text = join_with "/" segs).
  { unfold path.normalizeString.
    destruct Hsplit as [-> | ->]; simpl;
      rewrite fold_push_regular by assumption;
      now rewrite app_nil_r, rev_involutive. }
  rewrite Hq, join_with_nonempty by assumption.
  rewrite Hp, last_char_regular by assumption. reflexivity.
Qed.

Lemma Forall_last_regular (segs : list string) :
  Forall (fun s => regular s = true) segs -> segs <> [] ->
  exists front seg, segs = (front ++ [seg])%list /\ regular seg = true.
Proof.
  intros H Hne. destruct (exists_last Hne) as (front & seg & ->).
  exists front, seg. split; auto.
  rewrite Forall_forall in H. apply H, in_or_app. right. now left.
Qed.

(** [path.join] of an absolute path of regular segments with a relative
    path of regular segments appends the segments. *)
Lemma join_absolute (a b : list string) :
  Forall (fun s => regular s = true) a ->
  Forall (fun s => regular s = true) b -> b <> [] ->
  path.join (absolute a) (join_with "/" b) = absolute (a ++ b).
Proof.
  intros Ha Hb Hne. unfold path.join.
  rewrite (join_with_nonempty b) by assumption.
  replace (String.eqb (absolute a) "") with false by reflexivity.
  assert (Hab : Forall (fun s => regular s = true) (a ++ b))
    by (apply Forall_app; auto).
  assert (Hne' : (a ++ b)%list <> []) by (destruct a; [auto | discriminate]).
  apply normalize_slash_join; auto.
  - unfold absolute. destruct a as [|x a'].
    + right. simpl. do 2 f_equal. now apply split_on_join.
    + left. rewrite append_assoc.
      rewrite <- join_with_app by (auto; discriminate).
      change ("/" ++ join_with "/" ((x :: a') ++ b))
        with (String slash (join_with "/" ((x :: a') ++ b))).
      rewrite split_on_head. f_equal. now apply split_on_join.
  - destruct (Forall_last_regular b Hb Hne) as (front & seg & -> & Hseg).
    destruct (join_with_last front seg) as (p & Hp).
    exists (absolute a ++ "/" ++ p), seg. split; auto.
    now rewrite Hp, !append_assoc.
  - now exists (join_with "/" a ++ "/" ++ join_with "/" b).
Qed.

(** The output path of an entrypoint, made relative as on lines 211 to
    213, is [dist/] followed by the manifest's value. *)
Lemma relativeFilename_under_root (root out : list string) (tmp : string) :
  Forall (fun s => regular s = true) root ->
  Forall (fun s => regular s = true) out -> out <> [] ->
  let paths := getData_paths (absolute root) tmp in
  relativeFilename (p_root paths) (path.join (p_dist paths) (join_with "/" out))
  = "dist/" ++ join_with "/" out.
Proof.
  intros Hr Ho Hne paths. unfold paths, getData_paths. simpl p_root. simpl p_dist.
  assert (Hdist : path.join (absolute root) "dist" = absolute (root ++ ["dist"])).
  { apply (join_absolute root ["dist"]); auto; discriminate. }
  assert (Hreg : Forall (fun s => regular s = true) (root ++ ["dist"])).
  { apply Forall_app. split; auto. }
  rewrite Hdist, join_absolute by assumption.
  rewrite <- app_assoc. simpl app.
  unfold relativeFilename, absolute.
  assert (Hd : join_with "/" ("dist" :: out) = "dist/" ++ join_with "/" out).
  { destruct out; [congruence | reflexivity]. }
  destruct root as [|x r].
  - simpl app. rewrite Hd.
    change ("/" ++ join_with "/" []) with "/".
    rewrite replace_first_prefix. reflexivity.
  - rewrite join_with_app by discriminate.
    set (J := join_with "/" (x :: r)).
    set (Y := "/" ++ join_with "/" ("dist" :: out)).
    change ("/" ++ J ++ Y) with (("/" ++ J) ++ Y).
    rewrite replace_first_prefix. unfold Y. rewrite Hd. reflexivity.
Qed.

(** C7.  Every catalog written is the one write that the turn of one
    [.js] entry of the manifest adds, in the state left by the entries
    before it, and its [source] is the output path of that very entry
    (the entry's value under the output directory) with the project root
    and one leading separator taken off; for a root and a manifest value
    made of regular segments this is [dist/] followed by the entry's
    value. *)
Theorem source_is_relative_output_path :
  forall (madge : string -> outcome (list string)) (md5 : string -> string)
         (lang domain tmp : string) (root : list string) (manifest : json)
         (translations : list json) (w : write),
    Forall (fun s => regular s = true) root ->
    In w (fst (generateTranslations madge md5 lang domain
                 (getData_paths (absolute root) tmp) manifest translations)) ->
    let paths := getData_paths (absolute root) tmp in
    exists before key out after st st',
      entries manifest = (before ++ (key, JStr out) :: after)%list /\
      path.extname key = ".js" /\
      generateTranslations_loop madge md5 lang domain paths
        {| st_translations := translations; st_writes := [] |} before
      = (st_writes st, Ok st) /\
      generateTranslations_step madge md5 lang domain paths st key (JStr out)
      = Ok st' /\
      st_writes st' = (st_writes st ++ [w])%list /\
      field "source" (snd w)
      = Some (JStr (relativeFilename (absolute root)
                      (path.join (path.join (absolute root) "dist") out))) /\
      (forall segs,
          Forall (fun s => regular s = true) segs -> segs <> [] ->
          out = join_with "/" segs ->
          field "source" (snd w) = Some (JStr ("dist/" ++ out))).
Proof.
  intros madge md5 lang domain tmp root manifest translations w Hroot Hin paths.
  unfold generateTranslations in Hin. apply loop_write_turn in Hin.
  destruct Hin
    as [[]|(b & k & o & a & s & s' & f & Hm & He & Hl & Hs & Hw & -> & Hsrc)].
  exists b, k, o, a, s, s'. cbn [snd field].
  repeat split; auto.
  intros segs Hsegs Hne ->. fold paths in Hsrc. rewrite Hsrc.
  pose proof (relativeFilename_under_root root segs tmp Hroot Hsegs Hne) as E.
  simpl in E. unfold paths. simpl. now rewrite E.
Qed.

Lemma source_is_relative_output_path_witness :
  exists catalog,
    fst (generateTranslations scenario_madge sample_md5 "en_US" "myplugin"
           (getData_paths (absolute ["proj"]) "/tmp") scenario_manifest
           [scenario_fragment])
    = [(sample_output "myplugin" "en_US" "dist/a.abc123.js", catalog)] /\
    field "domain" catalog = Some (JStr "myplugin") /\
    field "source" catalog = Some (JStr "dist/a.abc123.js").
Proof.
  eexists. split; [vm_compute; reflexivity|]. split; [reflexivity|].
  destruct (source_is_relative_output_path scenario_madge sample_md5
              "en_US" "myplugin" "/tmp" ["proj"] scenario_manifest
              [scenario_fragment]
              (sample_output "myplugin" "en_US" "dist/a.abc123.js",
               sample_fragment "myplugin" "dist/a.abc123.js" "en_US"
                 [("Hello", JArr [JStr "Hello"])]))
    as (before & key & out & after & st & st' & Hm & _ & _ & _ & _ & _ & Hrel).
  - repeat constructor.
  - vm_compute. now left.
  - assert (Hout : out = "a.abc123.js").
    { destruct before as [|x [|y b]]; [now injection Hm as _ <- | |];
        discriminate Hm. }
    subst out.
    apply (Hrel ["a.abc123.js"]); [repeat constructor | discriminate | reflexivity].
Defined.

(** ** [_.merge] on property lists *)

Lemma unique_NoDup (l : list string) : unique l = true -> NoDup l.
Proof.
  induction l as [|x r IH]; simpl; intros H; constructor.
  - apply andb_prop in H. destruct H as [H _]. apply negb_true_iff in H.
    intros Hin. assert (existsb (String.eqb x) r = true); [|congruence].
    apply existsb_exists. exists x. split; auto. apply String.eqb_refl.
  - apply andb_prop in H. now apply IH.
Qed.

Lemma prop_get_In (k : string) (v : json) (o : object) :
  prop_get k o = Some v -> In (k, v) o.
Proof.
  induction o as [|[k' v'] r IH]; simpl; [discriminate|].
  destruct (String.eqb_spec k k') as [->|Hne]; intros H.
  - injection H as ->. now left.
  - right. auto.
Qed.

Lemma In_prop_get (k : string) (v : json) (o : object) :
  NoDup (keys o) -> In (k, v) o -> prop_get k o = Some v.
Proof.
  induction o as [|[k' v'] r IH]; simpl; [tauto|].
  intros Hnd [Heq|Hin].
  - injection Heq as -> ->. now rewrite String.eqb_refl.
  - inversion Hnd as [|? ? Hnot Hnd']; subst.
    destruct (String.eqb_spec k k') as [->|Hne]; auto.
    exfalso. apply Hnot. change (In (fst (k', v)) (map fst r)).
    now apply in_map.
Qed.

Section MergeProps.

Variable f : option json -> json -> option json.

Lemma mergeProps_keys (S : object) :
  forall A R, mergePropsWith f S A = Some R ->
  forall k, In k (keys R) <-> In k (keys A) \/ In k (keys S).
Proof.
  induction S as [|[k0 v0] rest IH]; simpl; intros A R H k.
  - injection H as <-. tauto.
  - destruct (f (prop_get k0 A) v0) as [nv|]; [|discriminate].
    rewrite (IH _ _ H k), keys_prop_set. intuition auto.
Qed.

Lemma mergeProps_get (S : object) :
  NoDup (keys S) ->
  forall A R, mergePropsWith f S A = Some R ->
  forall k,
    match prop_get k S with
    | Some v => exists nv, f (prop_get k A) v = Some nv /\ prop_get k R = Some nv
    | None => prop_get k R = prop_get k A
    end.
Proof.
  induction S as [|[k0 v0] rest IH]; simpl; intros Hnd A R H k.
  - now injection H as <-.
  - inversion Hnd as [|? ? Hnot Hnd']; subst.
    destruct (f (prop_get k0 A) v0) as [nv|] eqn:E; [|discriminate].
    specialize (IH Hnd' _ _ H).
    destruct (String.eqb_spec k k0) as [->|Hne].
    + exists nv. split; auto.
      specialize (IH k0).
      destruct (prop_get k0 rest) eqn:G.
      * exfalso. apply Hnot. apply prop_get_in_keys. congruence.
      * now rewrite IH, prop_get_set_same.
    + specialize (IH k). rewrite prop_get_set_other in IH by assumption.
      exact IH.
Qed.

Lemma mergeProps_total (S : object) :
  NoDup (keys S) ->
  forall A,
    (forall k v, In (k, v) S -> f (prop_get k A) v <> None) ->
    exists R, mergePropsWith f S A = Some R.
Proof.
  induction S as [|[k0 v0] rest IH]; simpl; intros Hnd A H.
  - eauto.
  - inversion Hnd as [|? ? Hnot Hnd']; subst.
    destruct (f (prop_get k0 A) v0) as [nv|] eqn:E.
    2:{ exfalso. apply (H k0 v0); auto. }
    apply IH; auto. intros k v Hin.
    assert (Hne : k <> k0).
    { intros ->. apply Hnot. change (In (fst (k0, v)) (map fst rest)).
      now apply in_map. }
    rewrite prop_get_set_other by assumption. apply H. now right.
Qed.

End MergeProps.

Lemma mergeValue_scalar (o : option json) (v : json) :
  is_scalar v = true -> mergeValue o v = Some v.
Proof. destruct v; simpl; congruence. Qed.

Lemma skipn_tl {A : Type} (n : nat) (l : list A) :
  skipn n (tl l) = skipn (S n) l.
Proof. destruct l; simpl; auto. now rewrite skipn_nil. Qed.

Lemma mergeElems_scalars (sxs : list json) :
  forallb is_scalar sxs = true ->
  forall oxs,
    mergeElemsWith mergeValue sxs oxs
    = Some (sxs ++ skipn (List.length sxs) oxs)%list.
Proof.
  induction sxs as [|v r IH]; simpl; intros H oxs; auto.
  apply andb_prop in H. destruct H as [Hv Hr].
  rewrite (mergeValue_scalar _ v Hv), (IH Hr), skipn_tl. reflexivity.
Qed.

(** An array of scalars over an array, or over nothing. *)
Lemma mergeValue_array (sxs oxs : list json) :
  forallb is_scalar sxs = true ->
  mergeValue (Some (JArr oxs)) (JArr sxs)
  = Some (JArr (sxs ++ skipn (List.length sxs) oxs)) /\
  mergeValue None (JArr sxs) = Some (JArr sxs).
Proof.
  intros H. simpl. rewrite !(mergeElems_scalars sxs H). simpl.
  now rewrite skipn_nil, app_nil_r.
Qed.

Lemma nth_error_app_skipn {A : Type} (ys oxs : list A) (i : nat) :
  nth_error (ys ++ skipn (List.length ys) oxs) i
  = match nth_error ys i with
    | Some a => Some a
    | None => nth_error oxs i
    end.
Proof.
  destruct (nth_error ys i) as [a|] eqn:E.
  - rewrite nth_error_app1; auto. apply nth_error_Some. congruence.
  - apply nth_error_None in E. rewrite nth_error_app2 by assumption.
    rewrite nth_error_skipn. f_equal. lia.
Qed.

(** An object of scalars over an object, or over nothing: field by
    field, the source's value where it has one. *)
Lemma mergeValue_meta (sm : object) (o : option json) (om : object) :
  unique (keys sm) = true ->
  forallb (fun f => is_scalar (snd f)) sm = true ->
  (o = Some (JObj om) \/ (o = None /\ om = [])) ->
  exists m,
    mergeValue o (JObj sm) = Some (JObj m) /\
    forall f, prop_get f m = match prop_get f sm with
                             | Some v => Some v
                             | None => prop_get f om
                             end.
Proof.
  intros Hu Hs Ho. apply unique_NoDup in Hu.
  assert (Hm : mergeValue o (JObj sm)
               = option_map JObj (mergePropsWith mergeValue sm om)).
  { destruct Ho as [->|[-> ->]]; reflexivity. }
  rewrite forallb_forall in Hs.
  destruct (mergeProps_total mergeValue sm Hu om) as [m E].
  { intros k v Hin. rewrite mergeValue_scalar; [discriminate|].
    apply (Hs (k, v) Hin). }
  exists m. rewrite Hm, E. split; auto.
  intros f. pose proof (mergeProps_get mergeValue sm Hu om m E f) as G.
  destruct (prop_get f sm) as [v|] eqn:Ef; auto.
  destruct G as (nv & Hnv & Hg).
  rewrite mergeValue_scalar in Hnv; [congruence|].
  apply (Hs (f, v)). now apply prop_get_In.
Qed.

(** ** Merging the tables of fragments *)

Lemma jed_entry_shaped (t : object) :
  forallb jed_entry t = true -> shaped t.
Proof.
  intros H k v Hg. rewrite forallb_forall in H.
  specialize (H (k, v) (prop_get_In _ _ _ Hg)). unfold jed_entry in H. simpl in H.
  destruct (String.eqb k ""); destruct v; try discriminate; eauto.
Qed.

Lemma jed_entry_get (t : object) (k : string) (v : json) :
  forallb jed_entry t = true -> prop_get k t = Some v -> jed_entry (k, v) = true.
Proof.
  intros H Hg. rewrite forallb_forall in H. apply H. now apply prop_get_In.
Qed.

Lemma mergeValue_entry_total (st dest : object) (k : string) (v : json) :
  forallb jed_entry st = true -> shaped dest -> In (k, v) st ->
  mergeValue (prop_get k dest) v <> None.
Proof.
  intros Hj Hsh Hin. rewrite forallb_forall in Hj.
  specialize (Hj (k, v) Hin). unfold jed_entry in Hj. simpl in Hj.
  pose proof (Hsh k) as Hk.
  destruct (String.eqb k "") eqn:Ek.
  - destruct v as [| | | | |sm]; try discriminate.
    apply andb_prop in Hj. destruct Hj as [Hu Hs].
    destruct (prop_get k dest) as [x|] eqn:G.
    + destruct (Hk x eq_refl) as [om ->].
      destruct (mergeValue_meta sm (Some (JObj om)) om Hu Hs) as (m & -> & _);
        [auto | discriminate].
    + destruct (mergeValue_meta sm None [] Hu Hs) as (m & -> & _);
        [auto | discriminate].
  - destruct v as [| | | |sxs|]; try discriminate.
    destruct (mergeValue_array sxs [] Hj) as [_ Hnone].
    destruct (prop_get k dest) as [x|] eqn:G.
    + destruct (Hk x eq_refl) as [oxs ->].
      destruct (mergeValue_array sxs oxs Hj) as [-> _]. discriminate.
    + rewrite Hnone. discriminate.
Qed.

(** One source table merged into the table merged so far. *)
Lemma table_step (st dest : object) :
  unique (keys st) = true -> forallb jed_entry st = true -> shaped dest ->
  exists T,
    baseMerge st dest = Some T /\
    shaped T /\
    (forall k, In k (keys T) <-> In k (keys dest) \/ In k (keys st)) /\
    (forall k i, k <> "" ->
        position k i T = match position k i st with
                         | Some a => Some a
                         | None => position k i dest
                         end) /\
    (forall f,
        metafield f T = match metafield f st with
                        | Some a => Some a
                        | None => metafield f dest
                        end).
Proof.
  intros Hu Hj Hsh. pose proof (unique_NoDup _ Hu) as Hnd.
  destruct (mergeProps_total mergeValue st Hnd dest) as [T E].
  { intros k v. now apply mergeValue_entry_total. }
  exists T. split; [exact E|].
  pose proof (mergeProps_get mergeValue st Hnd dest T E) as G.
  split; [|split; [|split]].
  - intros k v Hg. specialize (G k). pose proof (Hsh k) as Hk.
    destruct (prop_get k st) as [sv|] eqn:Es.
    + destruct G as (nv & Hnv & Hr). rewrite Hr in Hg. injection Hg as <-.
      pose proof (jed_entry_get st k sv Hj Es) as Hjk.
      unfold jed_entry in Hjk. simpl in Hjk.
      destruct (String.eqb k "").
      * destruct sv as [| | | | |sm]; try discriminate.
        apply andb_prop in Hjk. destruct Hjk as [Hu' Hs'].
        destruct (prop_get k dest) as [x|].
        -- destruct (Hk x eq_refl) as [om ->].
           destruct (mergeValue_meta sm (Some (JObj om)) om Hu' Hs')
             as (m & Hm & _); auto.
           rewrite Hm in Hnv. injection Hnv as <-. eauto.
        -- destruct (mergeValue_meta sm None [] Hu' Hs') as (m & Hm & _); auto.
           rewrite Hm in Hnv. injection Hnv as <-. eauto.
      * destruct sv as [| | | |sxs|]; try discriminate.
        simpl in Hnv.
        destruct (prop_get k dest) as [x|].
        -- destruct (Hk x eq_refl) as [oxs ->].
           destruct (mergeElemsWith mergeValue sxs oxs); [|discriminate].
           injection Hnv as <-. eauto.
        -- destruct (mergeElemsWith mergeValue sxs []); [|discriminate].
           injection Hnv as <-. eauto.
    + rewrite G in Hg. now apply Hk.
  - apply (mergeProps_keys mergeValue st dest T E).
  - intros k i Hne. unfold position. specialize (G k). pose proof (Hsh k) as Hk.
    apply String.eqb_neq in Hne. rewrite Hne in Hk.
    destruct (prop_get k st) as [sv|] eqn:Es.
    + destruct G as (nv & Hnv & ->).
      pose proof (jed_entry_get st k sv Hj Es) as Hjk.
      unfold jed_entry in Hjk. simpl in Hjk. rewrite Hne in Hjk.
      destruct sv as [| | | |sxs|]; try discriminate.
      destruct (mergeValue_array sxs [] Hjk) as [_ Hnone].
      destruct (prop_get k dest) as [x|].
      * destruct (Hk x eq_refl) as [oxs ->].
        destruct (mergeValue_array sxs oxs Hjk) as [Hsome _].
        rewrite Hsome in Hnv. injection Hnv as <-.
        apply nth_error_app_skipn.
      * rewrite Hnone in Hnv. injection Hnv as <-.
        now destruct (nth_error sxs i).
    + now rewrite G.
  - intros f. unfold metafield. specialize (G ""). pose proof (Hsh "") as Hk.
    simpl in Hk.
    destruct (prop_get "" st) as [sv|] eqn:Es.
    + destruct G as (nv & Hnv & ->).
      pose proof (jed_entry_get st "" sv Hj Es) as Hjk.
      unfold jed_entry in Hjk. simpl in Hjk.
      destruct sv as [| | | | |sm]; try discriminate.
      apply andb_prop in Hjk. destruct Hjk as [Hu' Hs'].
      destruct (prop_get "" dest) as [x|].
      * destruct (Hk x eq_refl) as [om ->].
        destruct (mergeValue_meta sm (Some (JObj om)) om Hu' Hs')
          as (m & Hm & Hf); auto.
        rewrite Hm in Hnv. injection Hnv as <-. apply Hf.
      * destruct (mergeValue_meta sm None [] Hu' Hs') as (m & Hm & Hf); auto.
        rewrite Hm in Hnv. injection Hnv as <-. rewrite Hf.
        now destruct (prop_get f sm).
    + now rewrite G.
Qed.

Lemma fragment_table_locale_data (d : string) (c t : object) :
  fragment_table d c = Some t ->
  prop_get "locale_data" c = Some (JObj [(d, JObj t)]).
Proof.
  unfold fragment_table.
  destruct (prop_get "locale_data" c) as [[| | | | |[|[d' [| | | | |t']] [|]]]|];
    try discriminate.
  destruct (String.eqb_spec d' d) as [->|]; [|discriminate].
  now intros [= ->].
Qed.

Lemma mergeValue_locale_data (d : string) (st dest : object) :
  mergeValue (Some (JObj [(d, JObj dest)])) (JObj [(d, JObj st)])
  = match baseMerge st dest with
    | Some T => Some (JObj [(d, JObj T)])
    | None => None
    end.
Proof.
  simpl. rewrite String.eqb_refl. unfold baseMerge.
  destruct (mergePropsWith mergeValue st dest); simpl; auto.
Qed.

(** One source fragment merged into the catalog merged so far. *)
Lemma catalog_step (d : string) (s acc st dest T : object) :
  wf_fragment d s = true ->
  fragment_table d s = Some st ->
  fragment_table d acc = Some dest ->
  baseMerge st dest = Some T ->
  exists acc', baseMerge s acc = Some acc' /\ fragment_table d acc' = Some T.
Proof.
  intros Hwf Hst Hacc HT.
  unfold wf_fragment in Hwf. rewrite Hst in Hwf.
  apply andb_prop in Hwf. destruct Hwf as [Hwf _].
  apply andb_prop in Hwf. destruct Hwf as [Hu Hs].
  pose proof (unique_NoDup _ Hu) as Hnd.
  apply fragment_table_locale_data in Hst, Hacc.
  rewrite forallb_forall in Hs.
  assert (Hld : mergeValue (prop_get "locale_data" acc) (JObj [(d, JObj st)])
                = Some (JObj [(d, JObj T)])).
  { now rewrite Hacc, mergeValue_locale_data, HT. }
  destruct (mergeProps_total mergeValue s Hnd acc) as [acc' E].
  { intros k v Hin. specialize (Hs (k, v) Hin). simpl in Hs.
    destruct (String.eqb_spec k "locale_data") as [->|Hne].
    - rewrite (In_prop_get _ _ _ Hnd Hin) in Hst. injection Hst as ->.
      rewrite Hld. discriminate.
    - simpl in Hs. rewrite mergeValue_scalar by assumption. discriminate. }
  exists acc'. split; [exact E|].
  pose proof (mergeProps_get mergeValue s Hnd acc acc' E "locale_data") as G.
  rewrite Hst in G. destruct G as (nv & Hnv & Hg).
  rewrite Hld in Hnv. injection Hnv as <-.
  unfold fragment_table. now rewrite Hg, String.eqb_refl.
Qed.

Lemma fold_last_with {T A : Type} (g : T -> option A) (l : list T)
  (acc : option A) :
  fold_left (fun acc t => match g t with Some a => Some a | None => acc end)
    l acc
  = match last_with g l with
    | Some a => Some a
    | None => acc
    end.
Proof.
  unfold last_with. revert acc.
  induction l as [|t r IH]; intros acc; simpl; auto.
  rewrite IH. rewrite (IH (match g t with Some a => Some a | None => None end)).
  destruct (fold_left _ r None); auto. now destruct (g t).
Qed.

Lemma last_with_app {T A : Type} (g : T -> option A) (a b : list T) :
  last_with g (a ++ b) = match last_with g b with
                         | Some x => Some x
                         | None => last_with g a
                         end.
Proof.
  unfold last_with at 1. rewrite fold_left_app. apply fold_last_with.
Qed.

Lemma last_with_cons {T A : Type} (g : T -> option A) (t : T) (l : list T) :
  last_with g (t :: l) = match last_with g l with
                         | Some x => Some x
                         | None => g t
                         end.
Proof.
  change (t :: l) with ([t] ++ l)%list. rewrite last_with_app.
  destruct (last_with g l); auto. unfold last_with. simpl. now destruct (g t).
Qed.

Lemma last_with_none {T A : Type} (g : T -> option A) (l : list T) :
  (forall t, In t l -> g t = None) -> last_with g l = None.
Proof.
  induction l as [|t r IH]; intros H; auto.
  rewrite last_with_cons, IH; auto using in_cons. apply H. now left.
Qed.

Lemma merged_from_single (t : object) :
  forallb jed_entry t = true -> merged_from t [t].
Proof.
  intros Hj. split; [now apply jed_entry_shaped|]. split; [|split].
  - intros k. split.
    + intros H. exists t. split; auto. now left.
    + intros (t' & [<-|[]] & H). exact H.
  - intros k i _. rewrite last_with_cons. simpl.
    unfold last_with. simpl. reflexivity.
  - intros f. rewrite last_with_cons. reflexivity.
Qed.

Lemma merged_from_step (dest st T : object) (L : list object) :
  merged_from dest L ->
  shaped T ->
  (forall k, In k (keys T) <-> In k (keys dest) \/ In k (keys st)) ->
  (forall k i, k <> "" ->
      position k i T = match position k i st with
                       | Some a => Some a
                       | None => position k i dest
                       end) ->
  (forall f,
      metafield f T = match metafield f st with
                      | Some a => Some a
                      | None => metafield f dest
                      end) ->
  merged_from T (L ++ [st]).
Proof.
  intros (_ & Hk & Hp & Hm) Hsh Hk' Hp' Hm'.
  split; [exact Hsh|]. split; [|split].
  - intros k. rewrite Hk', Hk. split.
    + intros [(t & Hin & H)|H].
      * exists t. split; auto. apply in_or_app. now left.
      * exists st. split; auto. apply in_or_app. right. now left.
    + intros (t & Hin & H). apply in_app_or in Hin.
      destruct Hin as [Hin|[<-|[]]]; eauto.
  - intros k i Hne. rewrite Hp', last_with_app, last_with_cons by assumption.
    simpl. rewrite Hp by assumption.
    unfold last_with at 1. simpl. reflexivity.
  - intros f. rewrite Hm', last_with_app, last_with_cons. simpl.
    rewrite Hm. unfold last_with at 1. simpl. reflexivity.
Qed.

(** The whole merge, from the catalog merged so far. *)
Lemma merge_chain (d : string) (rest : list object) :
  Forall (fun c => wf_fragment d c = true) rest ->
  forall (acc dest : object) (L : list object),
    fragment_table d acc = Some dest ->
    merged_from dest L ->
    exists merged T,
      merge acc rest = Some merged /\
      fragment_table d merged = Some T /\
      merged_from T (L ++ tables d rest).
Proof.
  induction 1 as [|s rest Hwf Hrest IH]; intros acc dest L Hacc Hm.
  - exists acc, dest. simpl. rewrite app_nil_r. auto.
  - pose proof Hwf as Hwf'. unfold wf_fragment in Hwf'.
    destruct (fragment_table d s) as [st|] eqn:Hst.
    2:{ now rewrite andb_false_r in Hwf'. }
    apply andb_prop in Hwf'. destruct Hwf' as [_ Hwf'].
    apply andb_prop in Hwf'. destruct Hwf' as [Hu Hj].
    destruct (table_step st dest Hu Hj (proj1 Hm))
      as (T & HT & Hsh & Hk & Hp & Hf).
    destruct (catalog_step d s acc st dest T Hwf Hst Hacc HT) as (acc' & E & Hacc').
    destruct (IH acc' T (L ++ [st])%list Hacc'
                (merged_from_step dest st T L Hm Hsh Hk Hp Hf))
      as (merged & T' & Hmerge & Htab & Hfrom).
    exists merged, T'. simpl. rewrite E, Hst.
    rewrite <- app_assoc in Hfrom. auto.
Qed.

(** The specification's wording of last-write-wins fails on two fragments
    that hold the same message with arrays of different lengths: after the
    second fragment's one form, the merged array keeps the first
    fragment's second form. *)
Lemma merge_keeps_longer_array :
  ~ last_fragment_wins "messages" plural_fragment [singular_fragment].
Proof.
  intros H.
  assert (C : exists T,
             fragment_table "messages"
               (entries (sample_fragment "messages" "src/badge.js" "sv_SE"
                  [("%d item", JArr [JStr "%d artikel"; JStr "%d saker"])]))
             = Some T /\
             prop_get "%d item" T = Some (JArr [JStr "%d artikel"])).
  { eexists. split; [reflexivity|].
    eapply (H _ _
              [ [("", sample_meta "messages" "sv_SE");
                 ("%d item", JArr [JStr "%d sak"; JStr "%d saker"])] ]
              [("", sample_meta "messages" "sv_SE");
               ("%d item", JArr [JStr "%d artikel"])]
              [] "%d item").
    - vm_compute. reflexivity.
    - reflexivity.
    - reflexivity.
    - reflexivity.
    - intros t' []. }
  destruct C as (T & HT & Hk). vm_compute in HT. injection HT as <-.
  vm_compute in Hk. discriminate Hk.
Qed.

(** C1, amended.  Merging well-formed fragments of one domain returns a
    catalog whose table has exactly the keys of the fragments' tables.
    Values are merged in depth, last write winning at each leaf: position
    [i] of a message's array is that of the last fragment whose array for
    the message reaches [i], and a metadata field is that of the last
    fragment whose metadata has the field.  So a message's array is the
    last fragment's whenever no earlier fragment has a longer one. *)
Theorem merge_tables_last_write_wins_per_leaf :
  forall (d : string) (first : object) (rest : list object),
    wf_fragment d first = true ->
    Forall (fun c => wf_fragment d c = true) rest ->
    exists merged T,
      merge first rest = Some merged /\
      fragment_table d merged = Some T /\
      (forall k, In k (keys T) <->
                 exists t, In t (tables d (first :: rest)) /\ In k (keys t)) /\
      (forall k i, k <> "" ->
          position k i T = last_with (position k i) (tables d (first :: rest))) /\
      (forall f,
          metafield f T = last_with (metafield f) (tables d (first :: rest))) /\
      (forall before t after k xs,
          k <> "" ->
          tables d (first :: rest) = (before ++ t :: after)%list ->
          prop_get k t = Some (JArr xs) ->
          (forall t', In t' after -> prop_get k t' = None) ->
          (forall t' ys, In t' before -> prop_get k t' = Some (JArr ys) ->
                         List.length ys <= List.length xs) ->
          prop_get k T = Some (JArr xs)).
Proof.
  intros d first rest Hfirst Hrest.
  pose proof Hfirst as Hwf. unfold wf_fragment in Hwf.
  destruct (fragment_table d first) as [t0|] eqn:Ht0.
  2:{ now rewrite andb_false_r in Hwf. }
  apply andb_prop in Hwf. destruct Hwf as [_ Hwf].
  apply andb_prop in Hwf. destruct Hwf as [_ Hj].
  destruct (merge_chain d rest Hrest first t0 [t0] Ht0 (merged_from_single t0 Hj))
    as (merged & T & Hmerge & HT & Hsh & Hk & Hp & Hm).
  assert (HL : tables d (first :: rest) = ([t0] ++ tables d rest)%list).
  { simpl. now rewrite Ht0. }
  rewrite HL.
  exists merged, T. repeat split; auto; try apply Hk.
  intros before t after k xs Hne Hsplit Ht Hafter Hbefore.
  assert (Hin : In k (keys T)).
  { apply Hk. exists t. split.
    - rewrite Hsplit. apply in_or_app. right. now left.
    - apply prop_get_in_keys. congruence. }
  apply prop_get_in_keys in Hin.
  destruct (prop_get k T) as [v|] eqn:Hv; [|congruence].
  pose proof (Hsh k v Hv) as Hshape.
  apply String.eqb_neq in Hne. rewrite Hne in Hshape.
  apply String.eqb_neq in Hne.
  destruct Hshape as [zs ->]. do 2 f_equal.
  apply nth_error_ext. intros i.
  pose proof (Hp k i Hne) as Hpos. unfold position at 1 in Hpos.
  rewrite Hv in Hpos. rewrite Hpos, Hsplit, last_with_app, last_with_cons.
  rewrite (last_with_none (position k i) after).
  2:{ intros t' Hin'. unfold position. now rewrite (Hafter t' Hin'). }
  unfold position at 1. rewrite Ht.
  destruct (nth_error xs i) eqn:Hi; auto.
  apply nth_error_None in Hi.
  apply last_with_none. intros t' Hin'. unfold position.
  destruct (prop_get k t') as [[| | | |ys|]|] eqn:Hg; auto.
  apply nth_error_None. specialize (Hbefore t' ys Hin' Hg). lia.
Qed.

Lemma merge_tables_last_write_wins_per_leaf_witness :
  wf_fragment "messages" plural_fragment = true /\
  wf_fragment "messages" singular_fragment = true /\
  exists merged T,
    merge plural_fragment [singular_fragment] = Some merged /\
    fragment_table "messages" merged = Some T /\
    position "%d item" 0 T = Some (JStr "%d artikel") /\
    position "%d item" 1 T = Some (JStr "%d saker").
Proof.
  split; [reflexivity|]. split; [reflexivity|].
  destruct (merge_tables_last_write_wins_per_leaf "messages" plural_fragment
              [singular_fragment])
    as (merged & T & Hm & HT & _ & Hp & _).
  - reflexivity.
  - repeat constructor.
  - exists merged, T. repeat split; auto.
    + rewrite Hp by discriminate. reflexivity.
    + rewrite Hp by discriminate. reflexivity.
Defined.

(** ** The alias table of [makeAliases] *)

Lemma prop_get_app (k : string) (a b : object) :
  prop_get k (a ++ b)%list = match prop_get k a with
                        | Some v => Some v
                        | None => prop_get k b
                        end.
Proof.
  induction a as [|[k' v'] r IH]; simpl; auto.
  now destruct (String.eqb k k').
Qed.

Lemma fresh_alias_get (old : object) (k : string) :
  NoDup (keys old) ->
  prop_get k
    (fold_left
       (fun acc kv =>
          if includes "@wordpress" (fst kv) then acc
          else prop_set (fst kv) (snd kv) acc) old [])
  = if includes "@wordpress" k then None else prop_get k old.
Proof.
  induction old as [|[k0 v0] l IH] using rev_ind; intros Hnd.
  - simpl. now destruct (includes "@wordpress" k).
  - rewrite fold_left_app. simpl.
    unfold keys in Hnd. rewrite map_app in Hnd. simpl in Hnd.
    assert (Hl : NoDup (keys l)).
    { pose proof (NoDup_remove_1 _ _ _ Hnd) as H1. now rewrite app_nil_r in H1. }
    assert (Hk0 : prop_get k0 l = None).
    { apply NoDup_remove_2 in Hnd. rewrite app_nil_r in Hnd.
      destruct (prop_get k0 l) eqn:G; auto.
      exfalso. apply Hnd. apply prop_get_in_keys. congruence. }
    specialize (IH Hl). rewrite prop_get_app. simpl.
    destruct (String.eqb_spec k k0) as [->|Hne].
    + rewrite Hk0. destruct (includes "@wordpress" k0) eqn:Ei.
      * rewrite IH. reflexivity.
      * now rewrite prop_get_set_same.
    + destruct (includes "@wordpress" k0).
      * rewrite IH. now destruct (prop_get k l).
      * rewrite prop_get_set_other by assumption. rewrite IH.
        now destruct (prop_get k l).
Qed.

Lemma assign_aliases_get (ds : list dependency) (a : object) (k : string) :
  prop_get k (assign_aliases a ds)
  = match last_with (alias_for k) ds with
    | Some v => Some v
    | None => prop_get k a
    end.
Proof.
  unfold assign_aliases.
  induction ds as [|d l IH] using rev_ind; auto.
  rewrite fold_left_app, last_with_app, last_with_cons. simpl.
  unfold last_with at 1. simpl. unfold alias_for at 1.
  destruct (String.eqb_spec (dep_name d) k) as [<-|Hne].
  - now rewrite prop_get_set_same.
  - rewrite prop_get_set_other by congruence. exact IH.
Qed.

Lemma alias_for_single (name filename content k : string) :
  last_with (alias_for k) [mkDependency name filename content]
  = if String.eqb name k
    then Some (JStr (aliasesRelativeRoot ++ "/" ++ filename)) else None.
Proof.
  unfold last_with, alias_for. simpl. now destruct (String.eqb name k).
Qed.

Lemma bind_Ok {A B : Type} (m : outcome A) (k : A -> outcome B) (b : B) :
  bind m k = Ok b -> exists a, m = Ok a /\ k a = Ok b.
Proof. destruct m; simpl; [eauto | discriminate | discriminate]. Qed.

Lemma map_outcome_Ok {A B : Type} (f : A -> outcome B) (l : list A) :
  forall r, map_outcome f l = Ok r -> Forall2 (fun x y => f x = Ok y) l r.
Proof.
  induction l as [|x l IH]; simpl; intros r H.
  - injection H as <-. constructor.
  - destruct (f x) as [y| |] eqn:E; simpl in H; try discriminate.
    destruct (map_outcome f l) as [ys| |]; simpl in H; try discriminate.
    injection H as <-. constructor; auto.
Qed.

Lemma wordpress_dependency_Ok (name : string) (d : dependency) :
  wordpress_dependency name = Ok d ->
  dep_name d = name /\
  exists m, nth_error (split_on slash name) 1 = Some m /\
            dep_filename d = "wordpress-" ++ m ++ ".js".
Proof.
  unfold wordpress_dependency.
  destruct (split_on slash name) as [|x [|m r]]; try discriminate.
  intros H. injection H as <-. simpl. eauto.
Qed.

(** Among the dependencies made from wordpress names, the alias for [k]
    exists exactly when [k] is one of the names, and it is built from the
    second segment of [k]. *)
Lemma wordpress_aliases (names : list string) (wp : list dependency) (k : string) :
  Forall2 (fun x y => wordpress_dependency x = Ok y) names wp ->
  (last_with (alias_for k) wp <> None <-> In k names) /\
  (forall v, last_with (alias_for k) wp = Some v ->
             exists m, nth_error (split_on slash k) 1 = Some m /\
                       v = JStr ("./src/alias/wordpress-" ++ m ++ ".js")).
Proof.
  induction 1 as [|name d names wp Hd Hrest IH].
  - unfold last_with. simpl.
    split; [split; [congruence | intros []]| discriminate].
  - destruct IH as [IHin IHv]. rewrite last_with_cons.
    apply wordpress_dependency_Ok in Hd. destruct Hd as (Hn & m & Hm & Hf).
    destruct (last_with (alias_for k) wp) as [v|] eqn:L.
    + split.
      * split; [|congruence]. intros _. right. apply IHin. congruence.
      * exact IHv.
    + unfold alias_for. rewrite Hn.
      destruct (String.eqb_spec name k) as [->|Hne].
      * split; [split; [now left | congruence]|].
        intros v [= <-]. exists m. split; auto. now rewrite Hf.
      * split; [|discriminate]. split; [congruence|].
        intros [Heq|Hin]; [congruence|]. now apply IHin.
Qed.

Lemma existsb_eqb_In (x : string) (l : list string) :
  existsb (String.eqb x) l = true <-> In x l.
Proof.
  rewrite existsb_exists. split.
  - intros (y & Hin & E). apply String.eqb_eq in E. now subst.
  - intros H. exists x. split; auto. apply String.eqb_refl.
Qed.

(** In the old table, the alias of react is not kept when react is a
    dependency. *)
Lemma makeAliases_overwrites_react :
  ~ other_aliases_preserved react_package.
Proof.
  intros H.
  specialize (H [("react", JStr "./src/alias/react.js"); ("~", JStr "./src");
                 ("@wordpress/element", JStr "./src/alias/wordpress-element.js")]
                "react" (JStr "preact/compat") eq_refl eq_refl eq_refl).
  discriminate H.
Qed.

(** C10, amended.  When [makeAliases] gets to write the package file, the
    new alias table keeps every old entry whose key has no [@wordpress] in
    it, except [react] and [lodash] when they are dependencies: these are
    mapped to their own alias files.  An entry whose key has [@wordpress]
    in it is in the new table exactly when the key is a dependency, and
    it maps to [./src/alias/wordpress-{module}.js], the module being the
    second segment of the key. *)
Theorem makeAliases_alias_table :
  forall (pkg : object) (names : list string) (alias' : object),
    Object_keys (prop_get "dependencies" pkg) = Ok names ->
    NoDup (keys (Object_entries_or_empty (prop_get "alias" pkg))) ->
    new_alias pkg = Ok alias' ->
    (forall k,
        includes "@wordpress" k = false ->
        (k = "react" -> ~ In "react" names) ->
        (k = "lodash" -> ~ In "lodash" names) ->
        prop_get k alias'
        = prop_get k (Object_entries_or_empty (prop_get "alias" pkg))) /\
    (forall k,
        includes "@wordpress" k = true ->
        (In k (keys alias') <-> In k names) /\
        (forall v, prop_get k alias' = Some v ->
                   exists m, nth_error (split_on slash k) 1 = Some m /\
                             v = JStr ("./src/alias/wordpress-" ++ m ++ ".js"))) /\
    (In "react" names ->
     prop_get "react" alias' = Some (JStr "./src/alias/react.js")) /\
    (In "lodash" names ->
     prop_get "lodash" alias' = Some (JStr "./src/alias/lodash.js")).
Proof.
  intros pkg names alias' Hnames Hnd Hnew.
  unfold new_alias in Hnew.
  apply bind_Ok in Hnew. destruct Hnew as (deps & Hdeps & Hnew).
  injection Hnew as <-.
  unfold alias_dependencies in Hdeps. rewrite Hnames in Hdeps.
  apply bind_Ok in Hdeps. destruct Hdeps as (names' & Hn' & Hdeps).
  injection Hn' as <-.
  apply bind_Ok in Hdeps. destruct Hdeps as (wp & Hwp & Hdeps).
  injection Hdeps as <-.
  apply map_outcome_Ok in Hwp.
  set (react := react_dependency names).
  set (lodash := lodash_dependency names).
  assert (Hget : forall k,
             prop_get k (assign_aliases (fresh_alias pkg) (wp ++ react ++ lodash)%list)
             = match last_with (alias_for k) lodash with
               | Some v => Some v
               | None =>
                   match last_with (alias_for k) react with
                   | Some v => Some v
                   | None =>
                       match last_with (alias_for k) wp with
                       | Some v => Some v
                       | None =>
                           if includes "@wordpress" k then None
                           else prop_get k
                                  (Object_entries_or_empty (prop_get "alias" pkg))
                       end
                   end
               end).
  { intros k. rewrite assign_aliases_get, !last_with_app.
    unfold fresh_alias. rewrite fresh_alias_get by assumption.
    destruct (last_with (alias_for k) lodash); auto.
    destruct (last_with (alias_for k) react); auto. }
  assert (Hreact : forall k,
             last_with (alias_for k) react
             = if (String.eqb "react" k && existsb (String.eqb "react") names)%bool
               then Some (JStr "./src/alias/react.js") else None).
  { intros k. unfold react, react_dependency.
    destruct (existsb (String.eqb "react") names); [|now rewrite andb_false_r].
    rewrite andb_true_r. apply alias_for_single. }
  assert (Hlodash : forall k,
             last_with (alias_for k) lodash
             = if (String.eqb "lodash" k && existsb (String.eqb "lodash") names)%bool
               then Some (JStr "./src/alias/lodash.js") else None).
  { intros k. unfold lodash, lodash_dependency.
    destruct (existsb (String.eqb "lodash") names); [|now rewrite andb_false_r].
    rewrite andb_true_r. apply alias_for_single. }
  assert (Hwpk : forall k,
             includes "@wordpress" k = false -> last_with (alias_for k) wp = None).
  { intros k Hk.
    destruct (wordpress_aliases _ wp k Hwp) as [Hin _].
    destruct (last_with (alias_for k) wp) eqn:L; auto.
    assert (Hf : In k (filter (includes "@wordpress") names))
      by (apply Hin; congruence).
    apply filter_In in Hf. destruct Hf. congruence. }
  split; [|split; [|split]].
  - intros k Hk Hr Hl. rewrite Hget, Hlodash, Hreact, (Hwpk k Hk), Hk.
    destruct (String.eqb_spec "lodash" k) as [<-|_].
    + destruct (existsb (String.eqb "lodash") names) eqn:E; [|reflexivity].
      exfalso. apply Hl; auto. now apply existsb_eqb_In.
    + destruct (String.eqb_spec "react" k) as [<-|_]; [|reflexivity].
      destruct (existsb (String.eqb "react") names) eqn:E; [|reflexivity].
      exfalso. apply Hr; auto. now apply existsb_eqb_In.
  - intros k Hk.
    assert (Hnr : String.eqb "react" k = false).
    { apply String.eqb_neq. intros <-. discriminate Hk. }
    assert (Hnl : String.eqb "lodash" k = false).
    { apply String.eqb_neq. intros <-. discriminate Hk. }
    destruct (wordpress_aliases _ wp k Hwp) as [Hin Hv].
    assert (Hg : prop_get k (assign_aliases (fresh_alias pkg) (wp ++ react ++ lodash)%list)
                 = last_with (alias_for k) wp).
    { rewrite Hget, Hlodash, Hreact, Hnr, Hnl, Hk. simpl.
      now destruct (last_with (alias_for k) wp). }
    split.
    + rewrite prop_get_in_keys, Hg, Hin, filter_In. tauto.
    + intros v. rewrite Hg. apply Hv.
  - intros Hin. apply existsb_eqb_In in Hin.
    rewrite Hget, Hlodash, Hreact, Hin. reflexivity.
  - intros Hin. apply existsb_eqb_In in Hin.
    rewrite Hget, Hlodash, Hin. reflexivity.
Qed.

Lemma makeAliases_alias_table_witness :
  exists alias',
    new_alias react_package = Ok alias' /\
    prop_get "~" alias' = Some (JStr "./src") /\
    (In "@wordpress/data" (keys alias') <->
     In "@wordpress/data" ["@wordpress/element"; "react"]) /\
    prop_get "react" alias' = Some (JStr "./src/alias/react.js").
Proof.
  exists [("react", JStr "./src/alias/react.js"); ("~", JStr "./src");
          ("@wordpress/element", JStr "./src/alias/wordpress-element.js")].
  split; [reflexivity|].
  destruct (makeAliases_alias_table react_package
              ["@wordpress/element"; "react"]
              [("react", JStr "./src/alias/react.js"); ("~", JStr "./src");
               ("@wordpress/element", JStr "./src/alias/wordpress-element.js")]
              eq_refl)
    as (Hkeep & Hwp & Hreact & _).
  - vm_compute. repeat constructor; simpl; intuition discriminate.
  - reflexivity.
  - split; [|split].
    + rewrite (Hkeep "~"); [reflexivity | reflexivity | discriminate | discriminate].
    + apply (Hwp "@wordpress/data"). reflexivity.
    + apply Hreact. right. now left.
Defined.

(** ** What [makeAliases] writes *)

Lemma bindM_events {A B : Type} (m : M A) (k : A -> M B) :
  fst (bindM m k)
  = (fst m ++ match snd m with
              | Ok a => fst (k a)
              | _ => []
              end)%list.
Proof.
  destruct m as [ev [a|e|]]; simpl; try now rewrite app_nil_r.
  now destruct (k a).
Qed.

Lemma all_perform_events (w : World) {X : Type} (f : X -> event) (l : list X) :
  fst (all (map (fun x => perform w (f x)) l)) = map f l.
Proof.
  induction l as [|x l IH]; simpl; auto.
  destruct (all (map (fun x0 => perform w (f x0)) l)) as [ev rs].
  simpl in *. now rewrite IH.
Qed.

Lemma for_each_perform_events (w : World) {X : Type} (f : X -> event)
  (l : list X) (ev : event) :
  In ev (fst (for_each (fun x => perform w (f x)) l)) -> In ev (map f l).
Proof.
  induction l as [|x l IH]; [simpl; auto|].
  change (for_each (fun x0 => perform w (f x0)) (x :: l))
    with (bindM (perform w (f x))
            (fun _ => for_each (fun x0 => perform w (f x0)) l)).
  rewrite bindM_events. simpl. intros [H|H]; auto.
  destruct (w_perform w (f x)); simpl in H; tauto.
Qed.

Lemma try_catch_events {A : Type} (body : M A) (handler : js_error -> M A)
  (ev : event) :
  In ev (fst (try_catch body handler)) ->
  In ev (fst body) \/ exists e, In ev (fst (handler e)).
Proof.
  destruct body as [evs [a|e|]]; simpl; auto.
  destruct (handler e) as [evs' r] eqn:E. simpl. intros H.
  apply in_app_or in H. destruct H; auto.
  right. exists e. now rewrite E.
Qed.

Lemma bindM_lift_Ok {A B : Type} (a : A) (k : A -> M B) :
  bindM (lift (Ok a)) k = k a.
Proof. unfold bindM, lift. now destruct (k a). Qed.

(** The only file [makeAliases] writes as JSON is the package file, and
    what it writes there is the package with the table of [new_alias]. *)
Lemma makeAliases_writes_new_alias (w : World) (file : string) (v : json) :
  In (fs_writeFile file v) (fst (makeAliases w)) ->
  exists pkg root alias',
    w_readPkg w false = Ok (pkg, root) /\
    new_alias pkg = Ok alias' /\
    file = path.join root "./package.json" /\
    v = JObj (prop_set "alias" (JObj alias') pkg).
Proof.
  intros H. unfold makeAliases in H. apply try_catch_events in H.
  destruct H as [H|[e H]].
  2:{ simpl in H. destruct H as [H|[]]. discriminate H. }
  unfold makeAliases_body, getData in H.
  destruct (w_readPkg w false) as [[pkg root]| |] eqn:Hpkg;
    [| destruct H | destruct H].
  unfold bind in H. rewrite bindM_lift_Ok in H. cbn [fst snd p_root getData_paths] in H.
  rewrite bindM_events in H. apply in_app_or in H. destruct H as [H|H].
  { exfalso. unfold removePreviousWpAliases in H.
    rewrite bindM_events in H. cbn [lift fst snd app] in H.
    destruct (w_readdir w _) as [listed| |]; [| destruct H | destruct H].
    rewrite bindM_events in H. apply in_app_or in H. destruct H as [H|H].
    - rewrite all_perform_events in H. apply in_map_iff in H.
      destruct H as (x & Hx & _). discriminate Hx.
    - destruct (snd (all _)); destruct H. }
  destruct (snd (removePreviousWpAliases w _)); [| destruct H | destruct H].
  rewrite bindM_events in H. cbn [lift fst snd app] in H.
  destruct (alias_dependencies pkg) as [deps| |] eqn:Hdeps;
    [| destruct H | destruct H].
  rewrite bindM_events in H. apply in_app_or in H. destruct H as [H|H].
  { exfalso. apply for_each_perform_events in H. apply in_map_iff in H.
    destruct H as (x & Hx & _). discriminate Hx. }
  destruct (snd (for_each _ deps)); [| destruct H | destruct H].
  simpl in H. destruct H as [H|[]]. injection H as <- <-.
  exists pkg, root, (assign_aliases (fresh_alias pkg) deps).
  repeat split; auto. unfold new_alias. now rewrite Hdeps.
Qed.

(** ** Errors at the boundary of the top-level operations *)

Lemma try_catch_Throw {A : Type} (body : M A) (handler : js_error -> M A)
  (ev : list event) (e : js_error) :
  body = (ev, Throw e) ->
  try_catch body handler = ((ev ++ fst (handler e))%list, snd (handler e)).
Proof. intros ->. simpl. now destruct (handler e). Qed.




Lemma bindM_Ok {A B : Type} (m : M A) (k : A -> M B) (ev : list event) (a : A) :
  m = (ev, Ok a) -> bindM m k = ((ev ++ fst (k a))%list, snd (k a)).
Proof. intros ->. simpl. now destruct (k a). Qed.

Lemma bindM_Throw {A B : Type} (m : M A) (k : A -> M B) (ev : list event)
  (e : js_error) :
  m = (ev, Throw e) -> bindM m k = (ev, Throw e).
Proof. now intros ->. Qed.

Lemma all_perform_Ok (w : World) {X : Type} (f : X -> event) (l : list X) :
  (forall x, In x l -> w_perform w (f x) = Ok tt) ->
  all (map (fun x => perform w (f x)) l) = (map f l, Ok (map (fun _ => tt) l)).
Proof.
  induction l as [|x l IH]; intros H; [reflexivity|].
  simpl. rewrite IH by auto using in_cons.
  now rewrite (H x (or_introl eq_refl)).
Qed.

Lemma swallow_perform (w : World) (ev : event) :
  w_perform w ev <> Beyond -> swallow (perform w ev) = ([ev], Ok tt).
Proof.
  unfold swallow, perform.
  destruct (w_perform w ev) as [[]| |]; [reflexivity | reflexivity | congruence].
Qed.

Lemma all_events {A : Type} (ms : list (M A)) :
  fst (all ms) = concat (map fst ms).
Proof.
  induction ms as [|[ev r] rest IH]; [reflexivity|].
  simpl. destruct (all rest) as [ev' rs]. simpl in *. now rewrite IH.
Qed.

Lemma bindM_lift_events {A B : Type} (o : outcome A) (k : A -> M B) :
  fst (bindM (lift o) k)
  = match o with
    | Ok a => fst (k a)
    | _ => []
    end.
Proof. destruct o as [a| |]; [|reflexivity|reflexivity]. now rewrite bindM_lift_Ok. Qed.

(** The rejections without a handler among writes that were started are
    the errors of the writes that fail. *)
Lemma unhandled_perform (w : World) {X : Type} (f : X -> event) (l : list X)
  (ev : event) :
  In ev (unhandled (map (fun x => perform w (f x)) l)) <->
  exists x e, In x l /\ w_perform w (f x) = Throw e /\ ev = unhandledRejection e.
Proof.
  unfold unhandled. rewrite in_flat_map. split.
  - intros (m & Hm & Hev). apply in_map_iff in Hm. destruct Hm as (x & <- & Hx).
    cbn [perform snd] in Hev.
    destruct (w_perform w (f x)) as [u|e|] eqn:E; [destruct Hev | | destruct Hev].
    destruct Hev as [<-|[]]. exists x, e. auto.
  - intros (x & e & Hx & Hp & ->). exists (perform w (f x)). split.
    + apply in_map_iff. exists x. auto.
    + cbn [perform snd]. rewrite Hp. now left.
Qed.

(** What a run of [generateTranslations] issues: the writes of its loop
    and, when the loop throws, the rejections of the writes that fail. *)
Lemma generateTranslations_io_events (w : World) (manifest : json)
  (translations : list json) (lang domain : string) (paths : Paths) :
  fst (generateTranslations_io w manifest translations lang domain paths)
  = (map (fun wr => fs_writeFile (fst wr) (snd wr))
       (fst (generateTranslations (w_madge w) (w_md5 w) lang domain paths
               manifest translations))
     ++ match snd (generateTranslations (w_madge w) (w_md5 w) lang domain paths
                     manifest translations) with
        | Throw _ =>
            unhandled
              (map (fun wr => perform w (fs_writeFile (fst wr) (snd wr)))
                 (fst (generateTranslations (w_madge w) (w_md5 w) lang domain
                         paths manifest translations)))
        | _ => []
        end)%list.
Proof.
  unfold generateTranslations_io.
  destruct (generateTranslations _ _ _ _ _ _ _) as [writes result].
  pose proof (all_perform_events w
                (fun wr : write => fs_writeFile (fst wr) (snd wr)) writes) as Hev.
  unfold write in *. cbv beta in Hev.
  destruct result; cbv zeta; cbn [fst snd]; rewrite ?bindM_events, Hev;
    [|reflexivity|now rewrite app_nil_r].
  destruct (snd _); reflexivity.
Qed.

Lemma getOriginalTranslations_events (w : World) (langDir tempDir : string) :
  fst (getOriginalTranslations w langDir tempDir)
  = [execa "wp" ["i18n"; "make-json"; langDir; tempDir; "--no-purge"]].
Proof.
  unfold getOriginalTranslations.
  rewrite bindM_events. cbn [perform fst snd].
  destruct (w_perform w _) as [[]| |]; [|reflexivity|reflexivity].
  rewrite bindM_events. cbn [lift fst snd].
  destruct (w_readdir w tempDir) as [listed| |]; [|reflexivity|reflexivity].
  rewrite bindM_events, all_events, map_map. cbn [lift fst].
  assert (Hnil : forall l : list string,
             concat (map (fun _ : string => @nil event) l) = [])
    by (induction l; auto).
  rewrite Hnil. now destruct (snd _).
Qed.







(** ** The written file, in the output directory *)

Lemma no_slash_append (a b : string) :
  no_slash (a ++ b) = (no_slash a && no_slash b)%bool.
Proof. unfold no_slash. now rewrite list_ascii_append, forallb_app. Qed.

Lemma length_append (a b : string) :
  String.length (a ++ b) = String.length a + String.length b.
Proof. induction a; simpl; auto. Qed.

(** A name built by [translationName] from a domain, a language and a
    hash without separators is a regular segment. *)
Lemma translationName_regular (md5 : string -> string)
  (domain lang relative : string) :
  no_slash domain = true -> no_slash lang = true ->
  no_slash (md5 relative) = true ->
  regular (translationName md5 domain lang relative) = true.
Proof.
  intros Hd Hl Hh. unfold regular, translationName.
  rewrite !no_slash_append, Hd, Hl, Hh. simpl.
  set (name := domain ++ "-" ++ lang ++ "-" ++ md5 relative ++ ".json").
  assert (Hlen : 7 <= String.length name).
  { unfold name. rewrite !length_append. simpl. lia. }
  assert (E : forall s, String.length s < 7 -> String.eqb name s = false).
  { intros s Hs. apply String.eqb_neq. intros ->. lia. }
  rewrite !E by (simpl; lia). reflexivity.
Qed.

(** For such a name the file is written directly under the project's
    [dist] directory. *)
Lemma translation_file_in_dist (md5 : string -> string)
  (domain lang relative tmp : string) (root : list string) :
  Forall (fun s => regular s = true) root ->
  no_slash domain = true -> no_slash lang = true ->
  no_slash (md5 relative) = true ->
  path.join (p_dist (getData_paths (absolute root) tmp))
    (translationName md5 domain lang relative)
  = absolute (root ++ ["dist"; translationName md5 domain lang relative]).
Proof.
  intros Hr Hd Hl Hh. simpl p_dist.
  assert (Hdist : path.join (absolute root) "dist" = absolute (root ++ ["dist"])).
  { apply (join_absolute root ["dist"]); auto; discriminate. }
  rewrite Hdist.
  pose proof (translationName_regular md5 domain lang relative Hd Hl Hh) as Hn.
  change (translationName md5 domain lang relative)
    with (join_with "/" [translationName md5 domain lang relative]) at 1.
  rewrite join_absolute.
  - now rewrite <- app_assoc.
  - apply Forall_app. split; auto.
  - now repeat constructor.
  - discriminate.
Qed.

(** C6.  Every catalog written is the one write that the turn of one
    [.js] entry of the manifest adds, in the state left by the entries
    before it.  It goes to the output directory under the name
    [{domain}-{lang}-{hash}.json], where the hash is [md5] of the output
    path of that very entry relative to the project root, which is also
    the catalog's own source: the name depends on the domain, the
    language and that relative path, and on nothing else.  When the root
    is made of regular segments and neither the domain, the language nor
    the hash holds a separator, the file lies directly in the root's
    [dist] directory under that name. *)
Theorem output_name_is_domain_lang_hash :
  forall (madge : string -> outcome (list string)) (md5 : string -> string)
         (lang domain rootDir tmp : string) (manifest : json)
         (translations : list json) (w : write),
    In w (fst (generateTranslations madge md5 lang domain
                 (getData_paths rootDir tmp) manifest translations)) ->
    let paths := getData_paths rootDir tmp in
    exists before key out after st st',
      entries manifest = (before ++ (key, JStr out) :: after)%list /\
      path.extname key = ".js" /\
      generateTranslations_loop madge md5 lang domain paths
        {| st_translations := translations; st_writes := [] |} before
      = (st_writes st, Ok st) /\
      generateTranslations_step madge md5 lang domain paths st key (JStr out)
      = Ok st' /\
      st_writes st' = (st_writes st ++ [w])%list /\
      let relative :=
        relativeFilename rootDir (path.join (path.join rootDir "dist") out) in
      let name := domain ++ "-" ++ lang ++ "-" ++ md5 relative ++ ".json" in
      field "source" (snd w) = Some (JStr relative) /\
      fst w = path.join (path.join rootDir "dist") name /\
      (forall root,
          rootDir = absolute root ->
          Forall (fun s => regular s = true) root ->
          no_slash domain = true -> no_slash lang = true ->
          no_slash (md5 relative) = true ->
          fst w = absolute (root ++ ["dist"; name])).
Proof.
  intros madge md5 lang domain rootDir tmp manifest translations w Hin paths.
  unfold generateTranslations in Hin. apply loop_write_turn in Hin.
  destruct Hin
    as [[]|(b & k & o & a & s & s' & f & Hm & He & Hl & Hs & Hw & -> & Hsrc)].
  exists b, k, o, a, s, s'. cbn [fst snd field].
  repeat split; auto.
  intros root -> Hroot Hd Hlang Hh.
  apply (translation_file_in_dist md5 domain lang _ tmp root Hroot Hd Hlang Hh).
Qed.

Lemma output_name_is_domain_lang_hash_witness :
  In (sample_output "myplugin" "en_US" "dist/b.def456.js", b_catalog)
    (fst (generateTranslations pair_madge sample_md5 "en_US" "myplugin"
            (getData_paths "/proj" "/tmp") pair_manifest pair_fragments)) /\
  exists before after,
    entries pair_manifest
    = (before ++ ("b.js", JStr "b.def456.js") :: after)%list /\
    sample_output "myplugin" "en_US" "dist/b.def456.js"
    = absolute ["proj"; "dist";
                "myplugin" ++ "-" ++ "en_US" ++ "-"
                ++ sample_md5 "dist/b.def456.js" ++ ".json"].
Proof.
  assert (Hin : In (sample_output "myplugin" "en_US" "dist/b.def456.js",
                    b_catalog)
                  (fst (generateTranslations pair_madge sample_md5
                          "en_US" "myplugin" (getData_paths "/proj" "/tmp")
                          pair_manifest pair_fragments)))
    by (vm_compute; right; now left).
  split; [exact Hin|].
  destruct (output_name_is_domain_lang_hash pair_madge sample_md5
              "en_US" "myplugin" "/proj" "/tmp" pair_manifest pair_fragments
              (sample_output "myplugin" "en_US" "dist/b.def456.js", b_catalog)
              Hin)
    as (before & key & out & after & st & st' & Hm & _ & _ & _ & _ & Hsrc & _ & Hloc).
  assert (Hout : key = "b.js" /\ out = "b.def456.js").
  { destruct before as [|x [|y [|z b]]]; cbn [entries pair_manifest app] in Hm.
    - injection Hm as _ <- _. discriminate Hsrc.
    - now injection Hm as _ <- <- _.
    - discriminate Hm.
    - discriminate Hm. }
  destruct Hout as [-> ->].
  exists before, after. split; [exact Hm|].
  apply (Hloc ["proj"]); try reflexivity. repeat constructor.
Defined.

(** * Further properties *)

(** ** [extractDomain] *)

Lemma filter_none {A : Type} (f : A -> bool) (l : list A) :
  (forall x, In x l -> f x = false) -> filter f l = [].
Proof.
  induction l as [|x r IH]; simpl; intros H; auto.
  rewrite (H x (or_introl eq_refl)). apply IH. auto.
Qed.

(** X1.  A directory that lists no [.po] or [.pot] file makes
    [extractDomain] throw its first error, whatever else the directory
    holds; no file is read. *)
Theorem extractDomain_without_templates :
  forall (readdir : string -> outcome (list string))
         (readFile readFile' : string -> outcome string)
         (distDir : string) (files : list string),
    readdir distDir = Ok files ->
    (forall f, In f files -> is_translation_file f = false) ->
    extractDomain readdir readFile distDir = Throw (Error no_files_message) /\
    extractDomain readdir readFile' distDir = extractDomain readdir readFile distDir.
Proof.
  intros readdir readFile readFile' distDir files Hd Hnone.
  unfold extractDomain. rewrite Hd. simpl.
  rewrite (filter_none _ _ Hnone). simpl. auto.
Qed.

Lemma extractDomain_without_templates_witness :
  extractDomain (fun _ => Ok ["assets.json"; "a.abc123.js"; "notes.potx"])
    (fun _ => Throw (ExternalFailure "readFile")) "/proj/dist"
  = Throw (Error no_files_message).
Proof.
  apply (extractDomain_without_templates
           (fun _ => Ok ["assets.json"; "a.abc123.js"; "notes.potx"])
           (fun _ => Throw (ExternalFailure "readFile"))
           (fun _ => Throw (ExternalFailure "readFile"))
           "/proj/dist" ["assets.json"; "a.abc123.js"; "notes.potx"]).
  - reflexivity.
  - intros f [<-|[<-|[<-|[]]]]; reflexivity.
Defined.

Lemma prefix_ci_append (pat s r t : string) :
  prefix_ci pat s = Some r -> prefix_ci pat (s ++ t) = Some (r ++ t).
Proof.
  revert s. induction pat as [|a p IH]; intros s; simpl.
  - now intros [= ->].
  - destruct s as [|b s']; [discriminate|]. simpl.
    destruct (Ascii.eqb (lower a) (lower b)); [apply IH | discriminate].
Qed.

Lemma prefix_ci_split (pat s r : string) :
  prefix_ci pat s = Some r -> exists m, s = m ++ r.
Proof.
  revert s. induction pat as [|a p IH]; intros s; simpl.
  - intros [= ->]. now exists "".
  - destruct s as [|b s']; [discriminate|].
    destruct (Ascii.eqb (lower a) (lower b)); [|discriminate].
    intros H. destruct (IH _ H) as [m ->]. now exists (String b m).
Qed.

Lemma non_space_run_split (s : string) :
  exists rest, s = non_space_run s ++ rest /\ no_space (non_space_run s) = true.
Proof.
  unfold no_space. induction s as [|c s IH]; simpl.
  - now exists "".
  - destruct (is_space c) eqn:E.
    + now exists (String c s).
    + destruct IH as (rest & Hs & Hn). exists rest. simpl. rewrite E. simpl.
      split; [now f_equal | exact Hn].
Qed.

Lemma before_last_end_sound (run p : string) :
  before_last_end run = Some p ->
  exists tail, run = p ++ tail /\ prefix_ci header_end tail <> None.
Proof.
  revert p. induction run as [|c r IH]; intros p; [discriminate|].
  cbn [before_last_end].
  destruct (before_last_end r) as [p'|].
  - intros [= <-]. destruct (IH p' eq_refl) as (tail & -> & Ht).
    now exists tail.
  - destruct (prefix_ci header_end (String c r)) eqn:E; [|discriminate].
    intros [= <-]. exists (String c r). split; auto. congruence.
Qed.

Lemma no_space_append (a b : string) :
  no_space (a ++ b) = (no_space a && no_space b)%bool.
Proof. unfold no_space. now rewrite list_ascii_append, forallb_app. Qed.

Lemma capture_domain_sound (s d : string) :
  capture_domain s = Some d ->
  d <> "" /\ no_space d = true /\
  exists tail, s = d ++ tail /\ prefix_ci header_end tail <> None.
Proof.
  unfold capture_domain.
  destruct (non_space_run_split s) as (rest & Hs & Hn).
  destruct (non_space_run s) as [|c r]; [discriminate|].
  destruct (before_last_end r) as [p|] eqn:E; [|discriminate].
  intros [= <-]. destruct (before_last_end_sound r p E) as (tail & -> & Ht).
  split; [discriminate|]. split.
  - change (String c (p ++ tail)) with (String c p ++ tail) in Hn.
    rewrite no_space_append in Hn. now apply andb_prop in Hn.
  - exists (tail ++ rest). split.
    + rewrite Hs. simpl. now rewrite append_assoc.
    + destruct (prefix_ci header_end tail) as [x|] eqn:Ex; [|congruence].
      rewrite (prefix_ci_append _ _ _ rest Ex). discriminate.
Qed.

Lemma match_x_domain_nonempty :
  forall (content d : string), match_x_domain content = Some d -> d <> "".
Proof.
  induction content as [|c r IH]; intros d.
  - simpl. discriminate.
  - cbn [match_x_domain].
    destruct (prefix_ci x_domain_marker (String c r)) as [rest|]; [|apply IH].
    destruct (capture_domain rest) as [d'|] eqn:Ec; [|apply IH].
    intros [= <-]. now destruct (capture_domain_sound rest d' Ec).
Qed.

(** X3.  What the pattern of line 86 captures is never empty and holds no
    white space; it stands in the content right after an [x-domain: ]
    marker (in any case) and right before the closing backslash, [n] and
    quote. *)
Theorem match_x_domain_sound :
  forall (content d : string),
    match_x_domain content = Some d ->
    d <> "" /\ no_space d = true /\
    exists before from_marker tail,
      content = before ++ from_marker /\
      prefix_ci x_domain_marker from_marker = Some (d ++ tail) /\
      prefix_ci header_end tail <> None.
Proof.
  induction content as [|c r IH]; intros d.
  - simpl. discriminate.
  - cbn [match_x_domain].
    destruct (prefix_ci x_domain_marker (String c r)) as [rest|] eqn:Em.
    + destruct (capture_domain rest) as [d'|] eqn:Ec.
      * intros [= <-].
        destruct (capture_domain_sound rest d' Ec) as (Hne & Hns & tail & -> & Ht).
        repeat split; auto. exists "", (String c r), tail. auto.
      * intros H. destruct (IH d H) as (Hne & Hns & b & f & t & -> & Hp & Ht).
        repeat split; auto. exists (String c b), f, t. auto.
    + intros H. destruct (IH d H) as (Hne & Hns & b & f & t & -> & Hp & Ht).
      repeat split; auto. exists (String c b), f, t. auto.
Qed.

Lemma match_x_domain_sound_witness :
  no_space "foo" = true /\
  match_x_domain (po_line "Project-Id-Version: plugin" ++ po_line "X-Domain: foo")
  = Some "foo".
Proof.
  destruct (match_x_domain_sound
              (po_line "Project-Id-Version: plugin" ++ po_line "X-Domain: foo")
              "foo" eq_refl) as (_ & Hn & _).
  split; [exact Hn | reflexivity].
Defined.

(** X2.  The outcome of [extractDomain] is decided by the first template
    the directory lists: its content is read, and either holds a marker,
    whose domain is returned, or makes the destructuring of line 86 throw.
    The templates listed after it are never read, and the error of lines
    91 to 93 is never thrown by the loop. *)
Theorem extractDomain_decided_by_first_template :
  forall (readdir : string -> outcome (list string))
         (readFile : string -> outcome string)
         (distDir file : string) (files rest : list string),
    readdir distDir = Ok files ->
    filter is_translation_file files = file :: rest ->
    extractDomain readdir readFile distDir
    = (let* content := readFile (path.join distDir file) in
       match match_x_domain content with
       | Some domain => Ok domain
       | None => Throw (TypeError "content.match(...) is not iterable")
       end).
Proof.
  intros readdir readFile distDir file files rest Hd Hf.
  unfold extractDomain. rewrite Hd. simpl. rewrite Hf. simpl.
  destruct (readFile (path.join distDir file)) as [content| |]; simpl; auto.
  destruct (match_x_domain content) as [d|] eqn:E; auto.
  pose proof (match_x_domain_nonempty content d E) as Hne.
  apply String.eqb_neq in Hne. now rewrite Hne.
Qed.

Lemma extractDomain_decided_by_first_template_witness :
  extractDomain (readdir_of "/proj/dist" (rev two_templates))
    (readFile_of "/proj/dist" (rev two_templates)) "/proj/dist"
  = Ok "foo".
Proof.
  rewrite (extractDomain_decided_by_first_template
             (readdir_of "/proj/dist" (rev two_templates))
             (readFile_of "/proj/dist" (rev two_templates))
             "/proj/dist" "second.pot" ["second.pot"; "first.pot"] ["first.pot"]);
    reflexivity.
Defined.

Lemma non_space_run_append (a b : string) :
  no_space a = true -> non_space_run (a ++ b) = a ++ non_space_run b.
Proof.
  unfold no_space. induction a as [|c a IH]; simpl; auto.
  intros H. apply andb_prop in H. destruct H as [Hc Ha].
  apply negb_true_iff in Hc. rewrite Hc. now rewrite IH.
Qed.

Lemma before_last_end_complete (p : string) :
  before_last_end (p ++ header_end) = Some p.
Proof.
  induction p as [|c p IH]; [reflexivity|].
  change (String c p ++ header_end) with (String c (p ++ header_end)).
  cbn [before_last_end]. now rewrite IH.
Qed.

Lemma capture_domain_complete (d rest : string) :
  d <> "" -> no_space d = true ->
  capture_domain (d ++ header_end ++ nl ++ rest) = Some d.
Proof.
  intros Hne Hns. unfold capture_domain.
  rewrite non_space_run_append by assumption.
  replace (non_space_run (header_end ++ nl ++ rest)) with header_end
    by reflexivity.
  destruct d as [|c d']; [congruence|].
  change (String c d' ++ header_end) with (String c (d' ++ header_end)).
  cbv beta iota. now rewrite before_last_end_complete.
Qed.

Lemma match_x_domain_skip (before content : string) :
  marker_free before content = true ->
  match_x_domain (before ++ content) = match_x_domain content.
Proof.
  induction before as [|c r IH]; auto.
  cbn [marker_free].
  change (String c r ++ content) with (String c (r ++ content)).
  cbn [match_x_domain].
  destruct (prefix_ci x_domain_marker (String c (r ++ content)));
    [discriminate | exact IH].
Qed.

(** X4.  A header line [X-Domain: d] of a template, written as the
    localization tools write it, gives its domain [d] back, provided [d]
    is not empty, holds no white space, and no marker starts earlier in
    the content.  The marker is found although the pattern spells it in
    lower case. *)
Theorem match_x_domain_of_header_line :
  forall (before d rest : string),
    d <> "" -> no_space d = true ->
    marker_free before (po_line ("X-Domain: " ++ d) ++ rest) = true ->
    match_x_domain (before ++ po_line ("X-Domain: " ++ d) ++ rest) = Some d.
Proof.
  intros before d rest Hne Hns Hskip.
  rewrite match_x_domain_skip by assumption.
  unfold po_line.
  assert (E : (str1 dquote ++ ("X-Domain: " ++ d) ++ header_end ++ nl) ++ rest
              = String dquote ("X-Domain: " ++ (d ++ header_end ++ nl ++ rest))).
  { simpl. now rewrite !append_assoc. }
  rewrite E. cbn [match_x_domain].
  replace (prefix_ci x_domain_marker
             (String dquote ("X-Domain: " ++ (d ++ header_end ++ nl ++ rest))))
    with (Some (d ++ header_end ++ nl ++ rest)) by reflexivity.
  now rewrite capture_domain_complete.
Qed.

Lemma match_x_domain_of_header_line_witness :
  match_x_domain
    (po_line "Project-Id-Version: plugin" ++ po_line ("X-Domain: " ++ "my-plugin")
     ++ po_line "Language: sv_SE")
  = Some "my-plugin".
Proof.
  apply (match_x_domain_of_header_line (po_line "Project-Id-Version: plugin")
           "my-plugin" (po_line "Language: sv_SE")).
  - discriminate.
  - reflexivity.
  - reflexivity.
Defined.

(** ** [getOriginalTranslations]: grouping by language *)

Lemma lang_get_set_same (l : string) (ts : list json) (acc : by_lang) :
  lang_get l (lang_set l ts acc) = ts.
Proof.
  induction acc as [|[l' g] r IH]; simpl.
  - now rewrite String.eqb_refl.
  - destruct (String.eqb l l') eqn:E; simpl.
    + now rewrite String.eqb_refl.
    + now rewrite E.
Qed.

Lemma lang_get_set_other (l l' : string) (ts : list json) (acc : by_lang) :
  l <> l' -> lang_get l (lang_set l' ts acc) = lang_get l acc.
Proof.
  intros Hne. induction acc as [|[l0 g] r IH]; simpl.
  - apply String.eqb_neq in Hne. now rewrite Hne.
  - destruct (String.eqb l' l0) eqn:E; simpl.
    + apply String.eqb_eq in E. subst l0.
      apply String.eqb_neq in Hne. now rewrite Hne.
    + destruct (String.eqb l l0); auto.
Qed.

Lemma lang_set_keys (l : string) (ts : list json) (acc : by_lang) (k : string) :
  In k (map fst (lang_set l ts acc)) <-> k = l \/ In k (map fst acc).
Proof.
  induction acc as [|[l0 g] r IH]; simpl.
  - intuition auto.
  - destruct (String.eqb_spec l l0) as [->|Hne]; simpl.
    + intuition auto.
    + rewrite IH. intuition auto.
Qed.

Lemma lang_set_NoDup (l : string) (ts : list json) (acc : by_lang) :
  NoDup (map fst acc) -> NoDup (map fst (lang_set l ts acc)).
Proof.
  induction acc as [|[l0 g] r IH]; simpl; intros H.
  - constructor; [intros [] | constructor].
  - inversion H as [|? ? Hnot Hr]; subst.
    destruct (String.eqb_spec l l0) as [->|Hne]; simpl.
    + now constructor.
    + constructor; auto. rewrite lang_set_keys. intros [E|E]; congruence.
Qed.

Lemma lang_set_In (l : string) (ts : list json) (acc : by_lang)
  (k : string) (g : list json) :
  In (k, g) (lang_set l ts acc) -> (k = l /\ g = ts) \/ In (k, g) acc.
Proof.
  induction acc as [|[l0 g0] r IH]; simpl.
  - intros [[= <- <-]|[]]. auto.
  - destruct (String.eqb l l0); simpl.
    + intros [[= <- <-]|H]; auto.
    + intros [H|H]; auto. destruct (IH H); auto.
Qed.

Lemma group_by_lang_lang (acc : by_lang) (translation : json) :
  group_by_lang acc translation
  = (let* l := translation_lang translation in
     Ok (lang_set l (lang_get l acc ++ [translation])%list acc)).
Proof.
  unfold group_by_lang, translation_lang.
  repeat match goal with
         | |- context [bind ?m _] =>
             is_var m || (destruct m; cbn [bind]; try reflexivity)
         end.
Qed.

Lemma reduce_group_by_lang (translations : list json) :
  forall acc groups,
    reduce_outcome group_by_lang translations acc = Ok groups ->
    (forall l, lang_get l groups
               = (lang_get l acc ++ filter (has_lang l) translations)%list) /\
    (NoDup (map fst acc) -> NoDup (map fst groups)) /\
    ((forall l g, In (l, g) acc -> g <> []) ->
     forall l g, In (l, g) groups -> g <> []) /\
    (forall t, In t translations -> exists l, translation_lang t = Ok l).
Proof.
  induction translations as [|t r IH]; intros acc groups; simpl.
  - intros [= <-]. repeat split; auto.
    + intros l. now rewrite app_nil_r.
    + intros t [].
  - rewrite group_by_lang_lang.
    destruct (translation_lang t) as [lt| |] eqn:El; simpl; try discriminate.
    intros H. destruct (IH _ _ H) as (Hget & Hnd & Hne & Hall).
    repeat split.
    + intros l. rewrite Hget. unfold has_lang at 2. rewrite El.
      destruct (String.eqb_spec l lt) as [->|Hneq].
      * rewrite lang_get_set_same, <- app_assoc. reflexivity.
      * now rewrite lang_get_set_other.
    + intros Hacc. apply Hnd. now apply lang_set_NoDup.
    + intros Hacc. apply Hne. intros l g Hin.
      apply lang_set_In in Hin. destruct Hin as [[-> ->]|Hin].
      * now destruct (lang_get lt acc).
      * eauto.
    + intros t' [<-|Hin]; eauto.
Qed.

(** X5.  When the grouping of lines 128 to 135 returns, every language
    holds exactly the translations of that language, in the order the
    files were read; no language is listed twice; no group is empty; and
    every translation has a language. *)
Theorem translations_grouped_by_language :
  forall (translations : list json) (groups : by_lang),
    reduce_outcome group_by_lang translations [] = Ok groups ->
    (forall l, lang_get l groups = filter (has_lang l) translations) /\
    NoDup (map fst groups) /\
    (forall l g, In (l, g) groups -> g <> []) /\
    (forall t, In t translations -> exists l, translation_lang t = Ok l).
Proof.
  intros translations groups H.
  destruct (reduce_group_by_lang translations [] groups H)
    as (Hget & Hnd & Hne & Hall).
  repeat split; auto.
  - apply Hnd. constructor.
  - apply Hne. intros l g [].
Qed.

Lemma translations_grouped_by_language_witness :
  reduce_outcome group_by_lang [sv_one; en_one; sv_two] []
  = Ok [("sv_SE", [sv_one; sv_two]); ("en_US", [en_one])] /\
  lang_get "sv_SE" [("sv_SE", [sv_one; sv_two]); ("en_US", [en_one])]
  = filter (has_lang "sv_SE") [sv_one; en_one; sv_two].
Proof.
  split; [reflexivity|].
  apply (translations_grouped_by_language [sv_one; en_one; sv_two]).
  reflexivity.
Defined.

(** X6.  One translation without the metadata the grouping reads (a
    domain that names a table with an empty-key entry) makes the whole
    grouping throw, at the first such translation: no language group is
    returned for the translations that are in order. *)
Theorem grouping_throws_at_first_bad_translation :
  forall (before after : list json) (t : json) (e : js_error),
    (forall t', In t' before -> exists l, translation_lang t' = Ok l) ->
    translation_lang t = Throw e ->
    reduce_outcome group_by_lang (before ++ t :: after) [] = Throw e.
Proof.
  intros before after t e Hb Ht.
  generalize (@nil (string * list json)) as acc.
  induction before as [|b r IH]; intros acc; simpl.
  - rewrite group_by_lang_lang, Ht. reflexivity.
  - rewrite group_by_lang_lang.
    destruct (Hb b (or_introl eq_refl)) as [l ->]. simpl.
    apply IH. intros t' Hin. apply Hb. now right.
Qed.

Lemma grouping_throws_at_first_bad_translation_witness :
  reduce_outcome group_by_lang
    ([sv_one] ++ JObj [("domain", JStr "messages"); ("source", JStr "src/c.js")]
              :: [en_one])%list []
  = Throw cannot_read.
Proof.
  apply grouping_throws_at_first_bad_translation.
  - intros t' [<-|[]]. now exists "sv_SE".
  - reflexivity.
Defined.

(** ** [generateTranslations]: the loop over the manifest *)

Section Loop.

Variable madge : string -> outcome (list string).
Variable md5 : string -> string.
Variables lang domain : string.
Variable paths : Paths.

Let step := generateTranslations_step madge md5 lang domain paths.
Let loop := generateTranslations_loop madge md5 lang domain paths.

Lemma step_not_js (st : loop_state) (key : string) (value : json) :
  is_js_entry (key, value) = false -> step st key value = Ok st.
Proof.
  unfold is_js_entry, step, generateTranslations_step. simpl.
  now intros ->.
Qed.

Lemma loop_skips_other_entries (manifest : object) :
  forall st, loop st manifest = loop st (filter is_js_entry manifest).
Proof.
  induction manifest as [|[key value] rest IH]; intros st; auto.
  simpl filter. destruct (is_js_entry (key, value)) eqn:E.
  - simpl. fold step. destruct (step st key value); auto.
  - simpl. fold step. rewrite step_not_js by assumption. apply IH.
Qed.

(** What a completed loop reports as written is what its state holds. *)
Lemma loop_Ok_writes (manifest : object) :
  forall st ws st', loop st manifest = (ws, Ok st') -> ws = st_writes st'.
Proof.
  induction manifest as [|[key value] rest IH]; intros st ws st'; simpl.
  - now intros [= <- <-].
  - fold step. destruct (step st key value) as [st1| |]; try discriminate.
    apply IH.
Qed.

Lemma loop_app (before after : object) :
  forall st ws st',
    loop st before = (ws, Ok st') ->
    loop st (before ++ after)%list = loop st' after.
Proof.
  induction before as [|[key value] rest IH]; intros st ws st'; simpl.
  - now intros [= _ <-].
  - fold step. destruct (step st key value) as [st1| |]; try discriminate.
    apply IH.
Qed.

Lemma step_inversion (st st' : loop_state) (key : string) (value : json) :
  step st key value = Ok st' ->
  st' = st \/
  exists out deps i0 first others merged redomained,
    value = JStr out /\
    path.extname key = ".js" /\
    madge (path.join (p_src paths) key) = Ok deps /\
    relatedTranslations (p_root paths)
      (map (fun dep => path.join (p_src paths) dep) deps) 0 (st_translations st)
    = Ok ((i0, first) :: others) /\
    merge first (map snd others) = Some merged /\
    redomain domain merged = Ok redomained /\
    let relative :=
      relativeFilename (p_root paths) (path.join (p_dist paths) out) in
    let final := JObj (prop_set "source" (JStr relative) redomained) in
    st' = {| st_translations := update_nth i0 final (st_translations st);
             st_writes :=
               (st_writes st ++
                [(path.join (p_dist paths)
                    (translationName md5 domain lang relative), final)])%list |}.
Proof.
  unfold step, generateTranslations_step.
  destruct (String.eqb (path.extname key) ".js") eqn:Hext; simpl.
  2:{ intros [= <-]. now left. }
  apply String.eqb_eq in Hext.
  destruct value as [| | |out| |]; try discriminate.
  destruct (madge _) as [deps| |] eqn:Hm; simpl; try discriminate.
  destruct (relatedTranslations _ _ _ _) as [[|[i0 first] others]| |] eqn:Hr;
    simpl; try discriminate.
  - intros [= <-]. now left.
  - destruct (merge first _) as [merged|] eqn:Hmerge; try discriminate.
    destruct (redomain domain merged) as [redomained| |] eqn:Hre;
      simpl; try discriminate.
    intros [= <-]. right.
    exists out, deps, i0, first, others, merged, redomained.
    repeat split; auto.
Qed.

End Loop.

(** X7.  An entry of the manifest whose key does not have the extension
    [.js] takes no part in the run, whatever its value: the run over a
    manifest is the run over its [.js] entries. *)
Theorem only_js_entries_count :
  forall (madge : string -> outcome (list string)) (md5 : string -> string)
         (lang domain : string) (paths : Paths) (manifest : object)
         (translations : list json),
    generateTranslations madge md5 lang domain paths (JObj manifest) translations
    = generateTranslations madge md5 lang domain paths
        (JObj (filter is_js_entry manifest)) translations.
Proof.
  intros. unfold generateTranslations. simpl.
  apply loop_skips_other_entries.
Qed.

(** X8.  When the dependency analysis throws for an entrypoint, the run
    ends with that error: the entrypoints listed after it are not looked
    at, and the writes issued for the entrypoints before it stay issued. *)
Theorem madge_failure_ends_the_run :
  forall (madge : string -> outcome (list string)) (md5 : string -> string)
         (lang domain : string) (paths : Paths)
         (before after : object) (key out : string) (e : js_error)
         (st st1 : loop_state) (ws : list write),
    generateTranslations_loop madge md5 lang domain paths st before
    = (ws, Ok st1) ->
    path.extname key = ".js" ->
    madge (path.join (p_src paths) key) = Throw e ->
    generateTranslations_loop madge md5 lang domain paths st
      (before ++ (key, JStr out) :: after)%list
    = (ws, Throw e).
Proof.
  intros madge md5 lang domain paths before after key out e st st1 ws Hb Hext Hm.
  rewrite (loop_app madge md5 lang domain paths before _ st ws st1 Hb).
  rewrite (loop_Ok_writes madge md5 lang domain paths before st ws st1 Hb).
  simpl. unfold generateTranslations_step. rewrite Hext. simpl. now rewrite Hm.
Qed.

Lemma madge_failure_ends_the_run_witness :
  exists catalog,
    generateTranslations_loop failing_madge sample_md5 "en_US" "myplugin"
      sample_paths {| st_translations := [scenario_fragment]; st_writes := [] |}
      ([("a.js", JStr "a.abc123.js")] ++ ("b.js", JStr "b.js")
                                      :: [("c.js", JStr "c.js")])%list
    = ([(sample_output "myplugin" "en_US" "dist/a.abc123.js", catalog)],
       Throw (ExternalFailure "madge")).
Proof.
  eexists.
  eapply (madge_failure_ends_the_run failing_madge sample_md5 "en_US" "myplugin"
            sample_paths).
  - vm_compute. reflexivity.
  - reflexivity.
  - reflexivity.
Defined.

(** ** The selection of related translations *)

Lemma source_of_Ok_object (t : json) (s : string) :
  source_of t = Ok s -> exists o, t = JObj o.
Proof. destruct t; simpl; try discriminate. eauto. Qed.

Lemma source_of_not_Beyond (t : json) : source_of t <> Beyond.
Proof.
  destruct t as [| | | | |o]; simpl; try discriminate.
  destruct (prop_get "source" o) as [[| | | | |]|]; discriminate.
Qed.

Lemma relatedTranslations_spec (root : string) (deps : list string)
  (ts : list json) :
  forall i rel,
    relatedTranslations root deps i ts = Ok rel ->
    map (fun p => JObj (snd p)) rel = filter (is_related root deps) ts /\
    (forall p, In p rel ->
               i <= fst p /\ nth_error ts (fst p - i) = Some (JObj (snd p))) /\
    (forall t, In t ts -> exists s, source_of t = Ok s) /\
    (forall i0 first others,
        rel = (i0, first) :: others ->
        forall k t, k < i0 - i -> nth_error ts k = Some t ->
                    is_related root deps t = false).
Proof.
  induction ts as [|t r IH]; intros i rel; simpl.
  - intros [= <-]. split; [reflexivity|]. split; [intros p []|].
    split; [intros t []|]. intros i0 first others Hnil. discriminate Hnil.
  - destruct (source_of t) as [s| |] eqn:Hs; simpl; try discriminate.
    destruct (relatedTranslations root deps (S i) r) as [r'| |] eqn:Hr;
      simpl; try discriminate.
    destruct (IH (S i) r' Hr) as (Hmap & Hidx & Hsrc & Hfirst).
    unfold is_related at 1. rewrite Hs.
    destruct (source_of_Ok_object t s Hs) as [o ->].
    assert (Hidx' : forall p, In p r' ->
                i <= fst p /\ nth_error (JObj o :: r) (fst p - i)
                              = Some (JObj (snd p))).
    { intros p Hp. destruct (Hidx p Hp) as [Hle Hn]. split; [lia|].
      replace (fst p - i) with (S (fst p - S i)) by lia. exact Hn. }
    assert (Hsrc' : forall t', In t' (JObj o :: r) -> exists s', source_of t' = Ok s').
    { intros t' [<-|Hin]; eauto. }
    destruct (existsb (String.eqb (path.join root s)) deps) eqn:Hex;
      intros [= <-].
    + split; [simpl; now f_equal|]. split; [|split; [exact Hsrc'|]].
      * intros p [<-|Hp]; [|now apply Hidx'].
        simpl. split; [lia|]. now rewrite Nat.sub_diag.
      * intros i0 first others [= <- <- <-] k t'. lia.
    + split; [exact Hmap|]. split; [exact Hidx'|]. split; [exact Hsrc'|].
      intros i0 first others -> k t' Hk Hn.
      destruct k as [|k]; simpl in Hn.
      * injection Hn as <-. unfold is_related. now rewrite Hs.
      * apply (Hfirst i0 first others eq_refl k t'); auto.
        destruct (Hidx (i0, first) (or_introl eq_refl)) as [Hle _].
        simpl in Hle. lia.
Qed.

(** X9.  When the selection of lines 189 to 191 returns, it holds exactly
    the translations whose source, joined to the root, is a dependency,
    in the order of the array, each being the very element at its index;
    and every translation of the array, selected or not, has a string as
    its source. *)
Theorem related_are_the_translations_of_dependencies :
  forall (root : string) (dependecies : list string) (translations : list json)
         (related : list (nat * object)),
    relatedTranslations root dependecies 0 translations = Ok related ->
    map (fun p => JObj (snd p)) related
    = filter (is_related root dependecies) translations /\
    (forall i o, In (i, o) related -> nth_error translations i = Some (JObj o)) /\
    (forall t, In t translations -> exists s, source_of t = Ok s).
Proof.
  intros root deps ts rel H.
  destruct (relatedTranslations_spec root deps ts 0 rel H) as (Hmap & Hidx & Hsrc & _).
  repeat split; auto.
  intros i o Hin. destruct (Hidx (i, o) Hin) as [_ Hn].
  simpl in Hn. now rewrite Nat.sub_0_r in Hn.
Qed.

Lemma related_are_the_translations_of_dependencies_witness :
  relatedTranslations "/proj" ["/proj/src/b.js"; "/proj/src/shared.js"] 0
    [shared_fragment; scenario_fragment; b_fragment]
  = Ok [(0, entries shared_fragment); (2, entries b_fragment)] /\
  filter (is_related "/proj" ["/proj/src/b.js"; "/proj/src/shared.js"])
    [shared_fragment; scenario_fragment; b_fragment]
  = [shared_fragment; b_fragment].
Proof.
  split; [reflexivity|].
  destruct (related_are_the_translations_of_dependencies "/proj"
              ["/proj/src/b.js"; "/proj/src/shared.js"]
              [shared_fragment; scenario_fragment; b_fragment]
              [(0, entries shared_fragment); (2, entries b_fragment)] eq_refl)
    as (Hmap & _).
  rewrite <- Hmap. reflexivity.
Defined.

Lemma relatedTranslations_throws (root : string) (deps : list string)
  (ts : list json) (t : json) (e : js_error) :
  In t ts -> source_of t = Throw e ->
  forall i, exists e', relatedTranslations root deps i ts = Throw e'.
Proof.
  intros Hin Ht. induction ts as [|t0 r IH]; [destruct Hin|]. intros i. simpl.
  destruct (source_of t0) as [s| |] eqn:Hs; simpl; eauto.
  - destruct Hin as [->|Hin]; [congruence|].
    destruct (IH Hin (S i)) as [e' ->]. simpl. eauto.
  - exfalso. now apply (source_of_not_Beyond t0).
Qed.

(** X10.  One translation whose [source] is not a string makes the turn
    of every [.js] entrypoint throw once its dependencies are known,
    whether the translation belongs to the entrypoint or not: nothing is
    written for that entrypoint. *)
Theorem translation_without_source_breaks_every_turn :
  forall (madge : string -> outcome (list string)) (md5 : string -> string)
         (lang domain : string) (paths : Paths) (st : loop_state)
         (key out : string) (deps : list string) (t : json) (e : js_error),
    path.extname key = ".js" ->
    madge (path.join (p_src paths) key) = Ok deps ->
    In t (st_translations st) ->
    source_of t = Throw e ->
    exists e',
      generateTranslations_step madge md5 lang domain paths st key (JStr out)
      = Throw e' /\
      generateTranslations_loop madge md5 lang domain paths st [(key, JStr out)]
      = (st_writes st, Throw e').
Proof.
  intros madge md5 lang domain paths st key out deps t e Hext Hm Hin Ht.
  destruct (relatedTranslations_throws (p_root paths)
              (map (fun dep => path.join (p_src paths) dep) deps)
              (st_translations st) t e Hin Ht 0) as [e' He'].
  assert (Hstep : generateTranslations_step madge md5 lang domain paths st key
                    (JStr out) = Throw e').
  { unfold generateTranslations_step. rewrite Hext. simpl. rewrite Hm. simpl.
    now rewrite He'. }
  exists e'. split; [exact Hstep|]. simpl. now rewrite Hstep.
Qed.

Lemma translation_without_source_breaks_every_turn_witness :
  exists e',
    generateTranslations_loop scenario_madge sample_md5 "sv_SE" "myplugin"
      sample_paths
      {| st_translations := [scenario_fragment; sourceless_fragment];
         st_writes := [] |}
      [("a.js", JStr "a.abc123.js")]
    = ([], Throw e').
Proof.
  destruct (translation_without_source_breaks_every_turn scenario_madge
              sample_md5 "sv_SE" "myplugin" sample_paths
              {| st_translations := [scenario_fragment; sourceless_fragment];
                 st_writes := [] |}
              "a.js" "a.abc123.js" ["a.js"] sourceless_fragment
              (TypeError "The path argument must be of type string"))
    as (e' & _ & Hloop); try reflexivity.
  - right. now left.
  - exists e'. exact Hloop.
Defined.

(** ** What a turn does to the translations *)

Lemma update_nth_length {A : Type} (i : nat) (x : A) (l : list A) :
  List.length (update_nth i x l) = List.length l.
Proof.
  revert i. induction l as [|h r IH]; intros [|i]; simpl; auto.
Qed.

Lemma update_nth_other {A : Type} (i j : nat) (x : A) (l : list A) :
  i <> j -> nth_error (update_nth i x l) j = nth_error l j.
Proof.
  revert i j. induction l as [|h r IH]; intros [|i] [|j] H; simpl; auto.
  congruence.
Qed.

(** X11.  A turn of the loop that returns keeps the length of the
    translations array and changes at most one of its elements: the first
    one selected for the entrypoint, which [_.merge] and the lines after
    it write into.  Every other element, selected or not, is left as it
    was. *)
Theorem turn_changes_only_first_related :
  forall (madge : string -> outcome (list string)) (md5 : string -> string)
         (lang domain : string) (paths : Paths) (st st' : loop_state)
         (key : string) (value : json),
    generateTranslations_step madge md5 lang domain paths st key value = Ok st' ->
    List.length (st_translations st') = List.length (st_translations st) /\
    forall j t,
      nth_error (st_translations st) j = Some t ->
      nth_error (st_translations st') j = Some t \/
      exists deps,
        madge (path.join (p_src paths) key) = Ok deps /\
        let dependecies := map (fun dep => path.join (p_src paths) dep) deps in
        is_related (p_root paths) dependecies t = true /\
        forall k t', k < j -> nth_error (st_translations st) k = Some t' ->
                     is_related (p_root paths) dependecies t' = false.
Proof.
  intros madge md5 lang domain paths st st' key value H.
  apply step_inversion in H.
  destruct H as [->|(out & deps & i0 & first & others & merged & red
                     & -> & Hext & Hm & Hrel & Hmerge & Hred & ->)].
  - split; auto.
  - simpl. split; [apply update_nth_length|].
    intros j t Hj.
    destruct (Nat.eq_dec i0 j) as [<-|Hne].
    + right. exists deps. split; [exact Hm|].
      destruct (relatedTranslations_spec _ _ _ _ _ Hrel) as (Hmap & Hidx & _ & Hfirst).
      destruct (Hidx (i0, first) (or_introl eq_refl)) as [_ Hn].
      simpl in Hn. rewrite Nat.sub_0_r, Hj in Hn. injection Hn as ->.
      split.
      * assert (Hin : In (JObj first)
                        (filter (is_related (p_root paths)
                                   (map (fun dep => path.join (p_src paths) dep) deps))
                           (st_translations st))).
        { rewrite <- Hmap. now left. }
        apply filter_In in Hin. apply Hin.
      * intros k t' Hk Hn'. apply (Hfirst i0 first others eq_refl k t'); auto. lia.
    + left. now rewrite update_nth_other.
Qed.

Lemma turn_changes_only_first_related_witness :
  exists st',
    generateTranslations_step sample_madge sample_md5 "sv_SE" "myplugin"
      sample_paths
      {| st_translations := [shared_fragment; b_fragment]; st_writes := [] |}
      "b.js" (JStr "b.js") = Ok st' /\
    List.length (st_translations st') = 2 /\
    nth_error (st_translations st') 1 = Some b_fragment.
Proof.
  eexists. split; [vm_compute; reflexivity|].
  match goal with
  | |- List.length (st_translations ?s) = _ /\ _ =>
      destruct (turn_changes_only_first_related sample_madge sample_md5
                  "sv_SE" "myplugin" sample_paths
                  {| st_translations := [shared_fragment; b_fragment];
                     st_writes := [] |}
                  s "b.js" (JStr "b.js") eq_refl) as [Hlen Hkeep]
  end.
  split; [exact Hlen|]. reflexivity.
Defined.

(** ** The re-domain step: errors and the written domain *)

(** X12.  The re-domain step throws when the catalog's domain, differing
    from the target, names no table of [locale_data], and when the table
    it names has no metadata entry under the empty key: lines 204 to 207
    then read a property of [undefined]. *)
Theorem redomain_throws_without_table_or_metadata :
  forall (domain original : string) (merged locale_data : object),
    prop_get "domain" merged = Some (JStr original) ->
    original <> "" ->
    original <> domain ->
    prop_get "locale_data" merged = Some (JObj locale_data) ->
    (prop_get original locale_data = None \/
     exists table, prop_get original locale_data = Some (JObj table) /\
                   prop_get "" table = None) ->
    redomain domain merged = Throw cannot_read.
Proof.
  intros domain original merged ld Hd Hne Hdiff Hld Hcase.
  unfold redomain. rewrite Hd. simpl truthy.
  apply String.eqb_neq in Hne, Hdiff. rewrite Hne, Hdiff. simpl.
  rewrite Hld. destruct Hcase as [->|(table & -> & Hm)]; auto.
  apply String.eqb_neq in Hdiff.
  rewrite prop_get_delete_other by congruence.
  now rewrite prop_get_set_same, Hm.
Qed.

Lemma redomain_throws_without_table_or_metadata_witness :
  redomain "myplugin" orphan_domain_catalog = Throw cannot_read.
Proof.
  apply (redomain_throws_without_table_or_metadata "myplugin" "theme"
           orphan_domain_catalog
           [("messages", JObj [("", sample_meta "messages" "sv_SE")])]);
    try reflexivity; try discriminate.
  now left.
Defined.

Lemma redomain_domain_field (domain : string) (merged redomained : object) :
  redomain domain merged = Ok redomained ->
  prop_get "domain" redomained = Some (JStr domain) \/
  truthy (prop_get "domain" redomained) = false.
Proof.
  unfold redomain.
  destruct (truthy (prop_get "domain" merged)) eqn:Ht; simpl.
  - destruct (prop_get "domain" merged) as [[| | |d| |]|] eqn:Hd;
      try (destruct (prop_get "locale_data" merged) as [[| | | | |ld]|];
           try discriminate;
           destruct (prop_get _ ld) as [table|]; try discriminate;
           destruct (prop_get domain _) as [[| | | | |tbl]|]; try discriminate;
           destruct (prop_get "" tbl) as [[| | | | |meta]|]; try discriminate;
           intros [= <-]; left; apply prop_get_set_same).
    destruct (String.eqb_spec d domain) as [->|Hne]; simpl.
    + intros [= <-]. now left.
    + destruct (prop_get "locale_data" merged) as [[| | | | |ld]|];
        try discriminate.
      destruct (prop_get _ ld) as [table|]; try discriminate.
      destruct (prop_get domain _) as [[| | | | |tbl]|]; try discriminate.
      destruct (prop_get "" tbl) as [[| | | | |meta]|]; try discriminate.
      intros [= <-]. left. apply prop_get_set_same.
  - intros [= <-]. now right.
Qed.

(** X13.  Every catalog the run writes is an object whose [domain] is the
    target domain, unless it has no domain or an empty one. *)
Theorem written_catalogs_carry_the_target_domain :
  forall (madge : string -> outcome (list string)) (md5 : string -> string)
         (lang domain : string) (paths : Paths) (manifest : json)
         (translations : list json) (w : write),
    In w (fst (generateTranslations madge md5 lang domain paths manifest
                 translations)) ->
    field "domain" (snd w) = Some (JStr domain) \/
    truthy (field "domain" (snd w)) = false.
Proof.
  intros madge md5 lang domain paths manifest translations w.
  unfold generateTranslations.
  assert (G : forall m st,
             In w (fst (generateTranslations_loop madge md5 lang domain paths st m)) ->
             In w (st_writes st) \/
             (field "domain" (snd w) = Some (JStr domain) \/
              truthy (field "domain" (snd w)) = false)).
  { induction m as [|[key value] rest IH]; intros st; simpl; auto.
    destruct (generateTranslations_step madge md5 lang domain paths st key value)
      as [st'| |] eqn:E; simpl; auto.
    intros Hin. destruct (IH st' Hin) as [Hold|Hp]; auto.
    apply step_inversion in E.
    destruct E as [->|(out & deps & i0 & first & others & merged & red
                       & -> & _ & _ & _ & _ & Hred & ->)]; auto.
    simpl in Hold. apply in_app_or in Hold.
    destruct Hold as [Hold|[<-|[]]]; auto.
    right. simpl. rewrite prop_get_set_other by discriminate.
    exact (redomain_domain_field domain merged red Hred). }
  intros Hin. destruct (G _ _ Hin) as [[]|Hp]. exact Hp.
Qed.

Lemma written_catalogs_carry_the_target_domain_witness :
  field "domain"
    (sample_fragment "myplugin" "dist/a.abc123.js" "en_US"
       [("Hello", JArr [JStr "Hello"])]) = Some (JStr "myplugin") \/
  truthy (field "domain"
            (sample_fragment "myplugin" "dist/a.abc123.js" "en_US"
               [("Hello", JArr [JStr "Hello"])])) = false.
Proof.
  apply (written_catalogs_carry_the_target_domain scenario_madge sample_md5
           "en_US" "myplugin" sample_paths scenario_manifest [scenario_fragment]
           (sample_output "myplugin" "en_US" "dist/a.abc123.js",
            sample_fragment "myplugin" "dist/a.abc123.js" "en_US"
              [("Hello", JArr [JStr "Hello"])])).
  vm_compute. now left.
Defined.

(** ** The scalar fields of the merged catalog *)

Lemma baseMerge_scalar_field (d : string) (s acc acc' : object) (k : string) :
  wf_fragment d s = true ->
  baseMerge s acc = Some acc' ->
  k <> "locale_data" ->
  prop_get k acc' = match prop_get k s with
                    | Some v => Some v
                    | None => prop_get k acc
                    end.
Proof.
  intros Hwf E Hk. unfold wf_fragment in Hwf.
  apply andb_prop in Hwf. destruct Hwf as [Hwf _].
  apply andb_prop in Hwf. destruct Hwf as [Hu Hs].
  pose proof (mergeProps_get mergeValue s (unique_NoDup _ Hu) acc acc' E k) as G.
  destruct (prop_get k s) as [v|] eqn:Ev; auto.
  destruct G as (nv & Hnv & ->).
  rewrite forallb_forall in Hs.
  specialize (Hs (k, v) (prop_get_In _ _ _ Ev)). simpl in Hs.
  apply String.eqb_neq in Hk. rewrite Hk in Hs. simpl in Hs.
  now rewrite mergeValue_scalar in Hnv.
Qed.

(** X14.  Outside [locale_data], the merge is last write wins field by
    field: a field of the merged catalog, such as its [domain], holds the
    value of the last selected fragment that has the field.  The domain
    the re-domain step starts from is thus the last fragment's. *)
Theorem merged_fields_come_from_last_fragment :
  forall (d : string) (first : object) (rest : list object) (merged : object),
    Forall (fun c => wf_fragment d c = true) rest ->
    merge first rest = Some merged ->
    forall k, k <> "locale_data" ->
              prop_get k merged = last_with (prop_get k) (first :: rest).
Proof.
  intros d first rest merged Hrest Hmerge k Hk.
  rewrite last_with_cons.
  revert first Hmerge. induction Hrest as [|s rest Hs Hrest IH]; intros acc.
  - simpl. now intros [= <-].
  - simpl. destruct (baseMerge s acc) as [acc'|] eqn:E; [|discriminate].
    intros Hm. rewrite (IH acc' Hm), last_with_cons.
    destruct (last_with (prop_get k) rest); auto.
    apply (baseMerge_scalar_field d s acc acc' k Hs E Hk).
Qed.

Lemma merged_fields_come_from_last_fragment_witness :
  exists merged,
    merge early_fragment [late_fragment] = Some merged /\
    prop_get "domain" merged = Some (JStr "plugin") /\
    prop_get "translation-revision-date" merged = Some (JStr "2019-06-01").
Proof.
  eexists. split; [vm_compute; reflexivity|].
  match goal with
  | |- prop_get _ ?m = _ /\ _ =>
      pose proof (merged_fields_come_from_last_fragment "messages"
                    early_fragment [late_fragment] m) as H
  end.
  split; (rewrite H; [reflexivity | repeat constructor | reflexivity | discriminate]).
Defined.

(** ** The number of catalogs *)

(** X15.  A run writes at most one catalog for each [.js] entry of the
    manifest, and none for the other entries. *)
Theorem at_most_one_catalog_per_entrypoint :
  forall (madge : string -> outcome (list string)) (md5 : string -> string)
         (lang domain : string) (paths : Paths) (manifest : json)
         (translations : list json),
    List.length (fst (generateTranslations madge md5 lang domain paths manifest
                        translations))
    <= List.length (filter is_js_entry (entries manifest)).
Proof.
  intros madge md5 lang domain paths manifest translations.
  unfold generateTranslations.
  assert (G : forall m st,
             List.length
               (fst (generateTranslations_loop madge md5 lang domain paths st m))
             <= List.length (st_writes st) + List.length (filter is_js_entry m)).
  { induction m as [|[key value] rest IH]; intros st; simpl; [lia|].
    destruct (generateTranslations_step madge md5 lang domain paths st key value)
      as [st'| |] eqn:E; simpl; try lia.
    specialize (IH st').
    apply step_inversion in E.
    destruct E as [->|(out & deps & i0 & first & others & merged & red
                       & -> & Hext & _ & _ & _ & _ & ->)].
    - destruct (is_js_entry (key, value)); simpl; lia.
    - unfold is_js_entry at 1. simpl fst. rewrite Hext. simpl.
      simpl in IH. rewrite length_app in IH. simpl in IH. lia. }
  apply (G (entries manifest) {| st_translations := translations; st_writes := [] |}).
Qed.

(** ** [camelCaseDash] *)

Lemma upper_not_lower (l : ascii) : is_lower l = true -> is_lower (upper l) = false.
Proof.
  destruct l as [[] [] [] [] [] [] [] []]; vm_compute; congruence.
Qed.

Lemma upper_not_dash (l : ascii) :
  is_lower l = true -> Ascii.eqb (upper l) dash = false.
Proof.
  destruct l as [[] [] [] [] [] [] [] []]; vm_compute; congruence.
Qed.

Lemma dash_not_lower : is_lower dash = false.
Proof. reflexivity. Qed.

Lemma camelCaseDash_cons (c l : ascii) (r : string) :
  camelCaseDash (String c (String l r))
  = if (Ascii.eqb c dash && is_lower l)%bool
    then String (upper l) (camelCaseDash r)
    else String c (camelCaseDash (String l r)).
Proof. reflexivity. Qed.

(** The first character of the result is a lower-case letter only if it
    is the first character of the argument. *)
Lemma camelCaseDash_head (s t : string) (h : ascii) :
  camelCaseDash s = String h t -> is_lower h = true -> exists r, s = String h r.
Proof.
  destruct s as [|c [|l r]]; simpl; try discriminate.
  - intros [= <- <-]. eauto.
  - destruct (Ascii.eqb c dash && is_lower l)%bool eqn:E.
    + intros [= <- <-] Hl. apply andb_prop in E. destruct E as [_ E].
      rewrite (upper_not_lower l E) in Hl. discriminate.
    + intros [= <- <-]. eauto.
Qed.

Lemma dash_lower_cons (c : ascii) (s : string) :
  dash_lower (String c s)
  = match s with
    | String l _ => ((Ascii.eqb c dash && is_lower l) || dash_lower s)%bool
    | EmptyString => false
    end.
Proof. reflexivity. Qed.

Lemma camelCaseDash_clean_pair (s : string) :
  dash_lower (camelCaseDash s) = false /\
  forall c, dash_lower (camelCaseDash (String c s)) = false.
Proof.
  induction s as [|l r IH].
  - split; [reflexivity | intros c; reflexivity].
  - destruct IH as [IHr IHc]. split; [apply IHc|]. intros c.
    rewrite camelCaseDash_cons.
    destruct (Ascii.eqb c dash && is_lower l)%bool eqn:E.
    + apply andb_prop in E. destruct E as [_ El].
      rewrite dash_lower_cons.
      destruct (camelCaseDash r) as [|h t]; auto.
      rewrite (upper_not_dash l El). cbn [andb orb]. exact IHr.
    + rewrite dash_lower_cons.
      destruct (camelCaseDash (String l r)) as [|h t] eqn:Er; auto.
      pose proof (IHc l) as Hl. rewrite Er in Hl. rewrite Hl, orb_false_r.
      destruct (Ascii.eqb c dash) eqn:Ec; auto. cbn [andb] in *.
      destruct (is_lower h) eqn:Eh; auto.
      destruct (camelCaseDash_head _ _ _ Er Eh) as [r' Hr'].
      injection Hr' as <- _. congruence.
Qed.

Lemma camelCaseDash_unchanged (s : string) :
  dash_lower s = false -> camelCaseDash s = s.
Proof.
  induction s as [|c r IH]; auto.
  destruct r as [|l r']; auto.
  rewrite dash_lower_cons, camelCaseDash_cons.
  intros H. apply orb_false_elim in H. destruct H as [H1 H2].
  rewrite H1. f_equal. now apply IH.
Qed.

(** X16.  [camelCaseDash] leaves a name unchanged when no dash in it is
    directly followed by a lower-case letter; its result never holds such
    a pair; applying it twice is applying it once. *)
Theorem camelCaseDash_removes_every_dash_pair :
  forall (str : string),
    (dash_lower str = false -> camelCaseDash str = str) /\
    dash_lower (camelCaseDash str) = false /\
    camelCaseDash (camelCaseDash str) = camelCaseDash str.
Proof.
  intros str. split; [apply camelCaseDash_unchanged|].
  pose proof (proj1 (camelCaseDash_clean_pair str)) as H.
  split; [exact H | now apply camelCaseDash_unchanged].
Qed.

Lemma camelCaseDash_removes_every_dash_pair_witness :
  camelCaseDash "element" = "element" /\
  camelCaseDash "block-editor" = "blockEditor".
Proof.
  split; [|reflexivity].
  now apply (camelCaseDash_removes_every_dash_pair "element").
Defined.

(** ** The run of [makeAliases] *)

Lemma for_each_perform_Ok (w : World) {X : Type} (f : X -> event) (l : list X) :
  (forall x, In x l -> w_perform w (f x) = Ok tt) ->
  for_each (fun x => perform w (f x)) l = (map f l, Ok tt).
Proof.
  induction l as [|x l IH]; intros H; [reflexivity|].
  change (for_each (fun x0 => perform w (f x0)) (x :: l))
    with (bindM (perform w (f x))
            (fun _ => for_each (fun x0 => perform w (f x0)) l)).
  rewrite (bindM_Ok _ _ [f x] tt).
  - now rewrite IH by auto using in_cons.
  - unfold perform. now rewrite (H x (or_introl eq_refl)).
Qed.

Lemma removePreviousWpAliases_Ok (w : World) (aliasesDir : string)
  (listed : list string) :
  w_readdir w aliasesDir = Ok listed ->
  (forall ev, w_perform w ev = Ok tt) ->
  removePreviousWpAliases w aliasesDir
  = (map (fun f => fs_unlink (path.join aliasesDir f))
       (filter (includes "wordpress") listed), Ok tt).
Proof.
  intros Hd Hp. unfold removePreviousWpAliases. rewrite Hd, bindM_lift_Ok.
  rewrite (bindM_Ok _ _ _ _
             (all_perform_Ok w (fun f => fs_unlink (path.join aliasesDir f))
                (filter (includes "wordpress") listed) (fun x _ => Hp _))).
  simpl. now rewrite app_nil_r.
Qed.

(** X17.  A run of [makeAliases] in which every call succeeds does three
    things in this order: it removes from the alias directory the files
    with [wordpress] in their name, and no other; it writes one alias file
    for each dependency of [alias_dependencies]; it writes the package
    file, the package being as it was but for its alias table. *)
Theorem makeAliases_successful_run :
  forall (w : World) (pkg : object) (root : string) (listed : list string)
         (dependencies : list dependency),
    w_readPkg w false = Ok (pkg, root) ->
    w_readdir w (path.join root "./src/alias") = Ok listed ->
    (forall ev, w_perform w ev = Ok tt) ->
    alias_dependencies pkg = Ok dependencies ->
    makeAliases w
    = ((map (fun f => fs_unlink (path.join (path.join root "./src/alias") f))
          (filter (includes "wordpress") listed)
        ++ map (alias_file (path.join root "./src/alias")) dependencies
        ++ [fs_writeFile (path.join root "./package.json")
              (JObj (prop_set "alias"
                       (JObj (assign_aliases (fresh_alias pkg) dependencies))
                       pkg))])%list,
       Ok tt).
Proof.
  intros w pkg root listed deps Hpkg Hdir Hp Hdeps.
  unfold makeAliases, makeAliases_body, getData. rewrite Hpkg.
  unfold bind. rewrite bindM_lift_Ok. cbn [fst snd p_root getData_paths].
  rewrite (bindM_Ok _ _ _ _ (removePreviousWpAliases_Ok w _ listed Hdir Hp)).
  rewrite Hdeps, bindM_lift_Ok.
  rewrite (bindM_Ok _ _ _ _
             (for_each_perform_Ok w
                (fun d => fs_writeText
                            (path.join (path.join root "./src/alias") (dep_filename d))
                            (dep_content d))
                deps (fun x _ => Hp _))).
  unfold perform. rewrite Hp. reflexivity.
Qed.

Lemma makeAliases_successful_run_witness :
  makeAliases (alias_world react_package)
  = ([fs_unlink "/proj/src/alias/wordpress-data.js";
      fs_writeText "/proj/src/alias/wordpress-element.js"
        (template "window.wp.element");
      fs_writeText "/proj/src/alias/react.js" (template "window.React");
      fs_writeFile "/proj/package.json"
        (JObj (prop_set "alias"
                 (JObj [("react", JStr "./src/alias/react.js"); ("~", JStr "./src");
                        ("@wordpress/element",
                         JStr "./src/alias/wordpress-element.js")])
                 react_package))],
     Ok tt).
Proof.
  rewrite (makeAliases_successful_run (alias_world react_package) react_package
             "/proj" ["wordpress-data.js"; "react.js"]
             [ {| dep_name := "@wordpress/element";
                  dep_filename := "wordpress-element.js";
                  dep_content := template "window.wp.element" |};
               {| dep_name := "react"; dep_filename := "react.js";
                  dep_content := template "window.React" |} ]);
    reflexivity.
Defined.

Lemma map_outcome_Throw {A B : Type} (f : A -> outcome B) (l : list A)
  (x : A) (e : js_error) :
  (forall y, f y <> Beyond) -> In x l -> f x = Throw e ->
  exists e', map_outcome f l = Throw e'.
Proof.
  intros Hb Hin Hx. induction l as [|y l IH]; [destruct Hin|]. simpl.
  destruct (f y) as [b|e0|] eqn:Ey; simpl; eauto.
  - destruct Hin as [->|Hin]; [congruence|].
    destruct (IH Hin) as [e' ->]. simpl. eauto.
  - exfalso. now apply (Hb y).
Qed.

Lemma wordpress_dependency_not_Beyond (dep : string) :
  wordpress_dependency dep <> Beyond.
Proof.
  unfold wordpress_dependency.
  destruct (split_on slash dep) as [|x [|m r]]; discriminate.
Qed.

(** X18.  A dependency with [@wordpress] in its name and no separator has
    no module name: [camelCaseDash] is called on [undefined] and throws.
    [makeAliases] then prints the error and returns, having removed the
    old alias files and written nothing, neither an alias file nor the
    package file. *)
Theorem makeAliases_stops_at_unscoped_wordpress_name :
  forall (w : World) (pkg : object) (root : string) (listed names : list string)
         (name : string),
    w_readPkg w false = Ok (pkg, root) ->
    w_readdir w (path.join root "./src/alias") = Ok listed ->
    (forall ev, w_perform w ev = Ok tt) ->
    Object_keys (prop_get "dependencies" pkg) = Ok names ->
    In name names ->
    includes "@wordpress" name = true ->
    no_slash name = true ->
    exists e,
      makeAliases w
      = ((map (fun f => fs_unlink (path.join (path.join root "./src/alias") f))
            (filter (includes "wordpress") listed)
          ++ [console_error_value e])%list,
         Ok tt).
Proof.
  intros w pkg root listed names name Hpkg Hdir Hp Hnames Hin Hinc Hns.
  assert (Hthrow : exists e, alias_dependencies pkg = Throw e).
  { unfold alias_dependencies. rewrite Hnames. cbn [bind].
    destruct (map_outcome_Throw wordpress_dependency
                (filter (includes "@wordpress") names) name
                (TypeError "Cannot read property replace of undefined")
                wordpress_dependency_not_Beyond) as [e He].
    - apply filter_In. auto.
    - unfold wordpress_dependency. now rewrite (split_on_no_slash name Hns).
    - exists e. now rewrite He. }
  destruct Hthrow as [e He]. exists e.
  unfold makeAliases, makeAliases_body, getData. rewrite Hpkg.
  unfold bind. rewrite bindM_lift_Ok. cbn [fst snd p_root getData_paths].
  rewrite (bindM_Ok _ _ _ _ (removePreviousWpAliases_Ok w _ listed Hdir Hp)).
  rewrite He, (bindM_Throw (lift (Throw e)) _ [] e eq_refl).
  cbn [fst snd try_catch]. now rewrite app_nil_r.
Qed.

Lemma makeAliases_stops_at_unscoped_wordpress_name_witness :
  exists e,
    makeAliases (alias_world unscoped_package)
    = ([fs_unlink "/proj/src/alias/wordpress-data.js"; console_error_value e],
       Ok tt).
Proof.
  destruct (makeAliases_stops_at_unscoped_wordpress_name
              (alias_world unscoped_package) unscoped_package "/proj"
              ["wordpress-data.js"; "react.js"]
              ["@wordpress/element"; "@wordpress-i18n"] "@wordpress-i18n")
    as [e He]; try reflexivity.
  - right. now left.
  - exists e. exact He.
Defined.

(** ** [makePot] *)

(** X19.  Once [getData] has returned, [makePot] always returns, and its
    run starts with the copy of the source directory to the temporary
    directory and ends with the copy back and the removal of the
    temporary directory, whatever failed in between, the first copy
    included. *)
Theorem makePot_always_restores :
  forall (w : World) (pkg : object) (paths : Paths),
    getData w false = Ok (pkg, paths) ->
    (forall ev, w_perform w ev <> Beyond) ->
    exists middle,
      makePot w
      = ((fs_copy (p_src paths) (path.join (p_temp paths) "src") :: middle
          ++ [fs_copy (path.join (p_temp paths) "src") (p_src paths);
              fs_remove (path.join (p_temp paths) "src")])%list,
         Ok tt).
Proof.
  intros w pkg paths Hd Hp. unfold makePot. rewrite Hd, bindM_lift_Ok.
  cbn [fst snd].
  set (tmp := path.join (p_temp paths) "src").
  assert (Hc : makePot_cleanup w paths tmp
               = ([fs_copy tmp (p_src paths); fs_remove tmp], Ok tt)).
  { unfold makePot_cleanup.
    rewrite (bindM_Ok _ _ _ _ (swallow_perform w _ (Hp _))).
    now rewrite (swallow_perform w _ (Hp _)). }
  rewrite Hc. unfold makePot_body, perform, package_name.
  pose proof (Hp (fs_copy (p_src paths) tmp)) as H1.
  pose proof (Hp (replace_in_files (path.join (p_src paths) "**/*.js"))) as H2.
  destruct (w_perform w (fs_copy (p_src paths) tmp)) as [[]|e1|];
    [| eexists; reflexivity | congruence].
  destruct (w_perform w (replace_in_files _)) as [[]|e2|];
    [| eexists; reflexivity | congruence].
  destruct (prop_get "name" pkg) as [[| | |n| |]|]; try (eexists; reflexivity).
  pose proof (Hp (execa "wp"
                    ["i18n"; "make-pot"; ".";
                     path.join (p_dist paths) (strip_scope n ++ ".pot");
                     "--exclude=dist"])) as H3.
  cbn [lift bindM app fst snd].
  destruct (w_perform w (execa _ _)) as [[]|e3|];
    [eexists; reflexivity | eexists; reflexivity | congruence].
Qed.

Lemma makePot_always_restores_witness :
  exists middle,
    makePot failing_wp_world
    = ((fs_copy "/proj/src" "/tmp/src" :: middle
        ++ [fs_copy "/tmp/src" "/proj/src"; fs_remove "/tmp/src"])%list, Ok tt).
Proof.
  destruct (makePot_always_restores failing_wp_world react_package
              (getData_paths "/proj" "/tmp")) as [middle H].
  - reflexivity.
  - intros ev. destruct ev; discriminate.
  - exists middle. exact H.
Defined.

Lemma after_word_run_scope (scope rest : string) (c : ascii) :
  all_word scope = true -> is_word c = false ->
  after_word_run (scope ++ String c rest) = String c rest.
Proof.
  unfold all_word. induction scope as [|a s IH]; simpl; intros Hs Hc.
  - now rewrite Hc.
  - apply andb_prop in Hs. destruct Hs as [Ha Hs]. rewrite Ha. now apply IH.
Qed.

(** X20.  The name of the template file: a package name that does not
    start with [@] is used as it is; of a scoped name [@scope/name], with
    a scope of letters, digits and underscores, the part after the
    separator is used; and a name whose scope holds another character,
    such as a dash, is used whole, scope and separator included. *)
Theorem strip_scope_removes_npm_scope :
  (forall c name,
      c <> ascii_of_nat 64 -> strip_scope (String c name) = String c name) /\
  (forall scope name,
      scope <> "" -> all_word scope = true ->
      strip_scope ("@" ++ scope ++ "/" ++ name) = name) /\
  (forall scope c rest,
      all_word scope = true -> is_word c = false -> c <> slash ->
      strip_scope ("@" ++ scope ++ String c rest)
      = "@" ++ scope ++ String c rest).
Proof.
  split; [|split].
  - intros c name Hc. unfold strip_scope.
    destruct name as [|c1 r]; auto.
    destruct (Ascii.eqb_spec c (ascii_of_nat 64)); [congruence | reflexivity].
  - intros scope name Hne Hw.
    destruct scope as [|c1 s]; [congruence|].
    change ("@" ++ String c1 s ++ "/" ++ name)
      with (String (ascii_of_nat 64) (String c1 (s ++ String slash name))).
    unfold strip_scope.
    unfold all_word in Hw. simpl in Hw. apply andb_prop in Hw.
    destruct Hw as [Hc1 Hs]. rewrite Hc1. simpl.
    rewrite (after_word_run_scope s name slash Hs eq_refl). reflexivity.
  - intros scope c rest Hw Hc Hs.
    destruct scope as [|c1 s].
    + change ("@" ++ "" ++ String c rest)
        with (String (ascii_of_nat 64) (String c rest)).
      unfold strip_scope. rewrite Hc. now rewrite andb_false_r.
    + change ("@" ++ String c1 s ++ String c rest)
        with (String (ascii_of_nat 64) (String c1 (s ++ String c rest))).
      unfold strip_scope.
      unfold all_word in Hw. simpl in Hw. apply andb_prop in Hw.
      destruct Hw as [Hc1 Hw]. rewrite Hc1. simpl.
      rewrite (after_word_run_scope s rest c Hw Hc).
      destruct (Ascii.eqb_spec c slash); [congruence | reflexivity].
Qed.

Lemma strip_scope_removes_npm_scope_witness :
  strip_scope "@sjofartstidningen/scripts" = "scripts" /\
  strip_scope "scripts" = "scripts".
Proof.
  destruct strip_scope_removes_npm_scope as (Hplain & Hscoped & _). split.
  - apply (Hscoped "sjofartstidningen" "scripts"); [discriminate | reflexivity].
  - apply (Hplain (ascii_of_nat 115) "cripts"). discriminate.
Defined.

(** ** [makeJson] as a whole *)

(** X21.  When no domain can be read from the output directory, [makeJson]
    stops right after the directories are ensured: wp-cli is not started,
    nothing is written, and the error of [extractDomain] is printed after
    the fixed message. *)
Theorem makeJson_stops_without_domain :
  forall (w : World) (pkg : object) (paths : Paths) (e : js_error),
    getData w true = Ok (pkg, paths) ->
    (forall p, In p (paths_values paths) ->
               w_perform w (fs_ensureDir p) = Ok tt) ->
    extractDomain (w_readdir w) (w_readFile w) (p_dist paths) = Throw e ->
    makeJson w
    = ((map fs_ensureDir (paths_values paths)
        ++ [console_error generation_failed; console_error_value e])%list,
       Ok tt).
Proof.
  intros w pkg paths e Hdata Hensure Hdomain.
  unfold makeJson.
  rewrite (try_catch_Throw _ _ (map fs_ensureDir (paths_values paths)) e);
    [reflexivity|].
  unfold makeJson_body. rewrite Hdata, bindM_lift_Ok. cbn [snd].
  rewrite (bindM_Ok _ _ _ _ (all_perform_Ok w fs_ensureDir _ Hensure)).
  rewrite Hdomain. cbn [lift bindM fst snd]. now rewrite app_nil_r.
Qed.

Lemma makeJson_stops_without_domain_witness :
  makeJson domainless_world
  = ([fs_ensureDir "/proj"; fs_ensureDir "/proj/src";
      fs_ensureDir "/proj/dist"; fs_ensureDir "/proj/languages";
      fs_ensureDir "/proj/views"; fs_ensureDir "/tmp";
      console_error generation_failed;
      console_error_value (TypeError "content.match(...) is not iterable")],
     Ok tt).
Proof.
  exact (makeJson_stops_without_domain domainless_world react_package
           (getData_paths "/proj" "/tmp")
           (TypeError "content.match(...) is not iterable")
           eq_refl (fun _ _ => eq_refl) eq_refl).
Defined.

(** X22.  When the manifest cannot be read or parsed, wp-cli has already
    run; no catalog is written, and the error that is printed is always
    the same one: what went wrong with the file is lost. *)
Theorem makeJson_unreadable_manifest :
  forall (w : World) (pkg : object) (paths : Paths) (domain : string)
         (ev : list event) (groups : by_lang) (e : js_error),
    getData w true = Ok (pkg, paths) ->
    (forall p, In p (paths_values paths) ->
               w_perform w (fs_ensureDir p) = Ok tt) ->
    extractDomain (w_readdir w) (w_readFile w) (p_dist paths) = Ok domain ->
    getOriginalTranslations w (p_languages paths) (p_temp paths)
    = (ev, Ok groups) ->
    (let* content := w_readFile w (path.join (p_dist paths) "assets.json") in
     w_JSON_parse w content) = Throw e ->
    makeJson w
    = ((map fs_ensureDir (paths_values paths)
        ++ [execa "wp" ["i18n"; "make-json"; p_languages paths; p_temp paths;
                        "--no-purge"]]
        ++ [console_error generation_failed;
            console_error_value (Error manifest_message)])%list,
       Ok tt).
Proof.
  intros w pkg paths domain ev groups e Hdata Hensure Hdomain Horig Hman.
  assert (Hev : ev = [execa "wp" ["i18n"; "make-json"; p_languages paths;
                                  p_temp paths; "--no-purge"]]).
  { rewrite <- (getOriginalTranslations_events w). now rewrite Horig. }
  subst ev. unfold makeJson.
  rewrite (try_catch_Throw _ _
             (map fs_ensureDir (paths_values paths)
              ++ [execa "wp" ["i18n"; "make-json"; p_languages paths;
                              p_temp paths; "--no-purge"]])%list
             (Error manifest_message)).
  { cbn [log_error fst snd]. now rewrite <- app_assoc. }
  unfold makeJson_body. rewrite Hdata, bindM_lift_Ok. cbn [snd].
  rewrite (bindM_Ok _ _ _ _ (all_perform_Ok w fs_ensureDir _ Hensure)).
  rewrite Hdomain, bindM_lift_Ok.
  rewrite (bindM_Ok _ _ _ _ Horig).
  unfold getAssetsManifest. rewrite Hman.
  cbn [lift bindM fst snd]. now rewrite app_nil_r.
Qed.

Lemma makeJson_unreadable_manifest_witness :
  makeJson (without_file scenario_world "/proj/dist/assets.json")
  = ([fs_ensureDir "/proj"; fs_ensureDir "/proj/src";
      fs_ensureDir "/proj/dist"; fs_ensureDir "/proj/languages";
      fs_ensureDir "/proj/views"; fs_ensureDir "/tmp";
      execa "wp" ["i18n"; "make-json"; "/proj/languages"; "/tmp"; "--no-purge"];
      console_error generation_failed;
      console_error_value (Error manifest_message)],
     Ok tt).
Proof.
  exact (makeJson_unreadable_manifest
           (without_file scenario_world "/proj/dist/assets.json")
           react_package (getData_paths "/proj" "/tmp") "myplugin"
           _ [("en_US", [scenario_fragment])] (ExternalFailure "ENOENT")
           eq_refl (fun _ _ => eq_refl) eq_refl eq_refl eq_refl).
Defined.

(** X23.  Whatever [makeJson] writes is a catalog of [generateTranslations]:
    the package was found, the domain was read from the output directory,
    the manifest was parsed, and the file belongs to one language group of
    the fragments and to one entry of the manifest; it carries the entry's
    output path, relative to the root, as its source and lies under the
    name made of the domain, the language and the hash of that path. *)
Theorem makeJson_writes_only_catalogs :
  forall (w : World) (file : string) (content : json),
    In (fs_writeFile file content) (fst (makeJson w)) ->
    exists pkg rootDir domain groups manifest lang fragments key out final,
      w_readPkg w true = Ok (pkg, rootDir) /\
      let paths := getData_paths rootDir (w_tmpdir w) in
      extractDomain (w_readdir w) (w_readFile w) (p_dist paths) = Ok domain /\
      snd (getOriginalTranslations w (p_languages paths) (p_temp paths))
      = Ok groups /\
      getAssetsManifest w (p_dist paths) = Ok manifest /\
      In (lang, fragments) groups /\
      In (key, JStr out) (entries manifest) /\
      path.extname key = ".js" /\
      let relative := relativeFilename rootDir (path.join (p_dist paths) out) in
      content = JObj final /\
      prop_get "source" final = Some (JStr relative) /\
      file = path.join (p_dist paths)
               (translationName (w_md5 w) domain lang relative).
Proof.
  intros w file content Hin. unfold makeJson in Hin.
  apply try_catch_events in Hin.
  destruct Hin as [Hin|[e [Hin|[Hin|[]]]]]; try discriminate.
  unfold makeJson_body, getData in Hin.
  destruct (w_readPkg w true) as [[pkg rootDir]| |] eqn:Hpkg; cbn [bind] in Hin;
    rewrite bindM_lift_events in Hin; try contradiction.
  cbn [fst snd] in Hin.
  set (paths := getData_paths rootDir (w_tmpdir w)) in *.
  rewrite bindM_events, all_perform_events in Hin.
  apply in_app_or in Hin. destruct Hin as [Hin|Hin].
  { apply in_map_iff in Hin. destruct Hin as (p & Hp & _). discriminate. }
  destruct (snd (all _)) as [done| |]; try contradiction.
  rewrite bindM_lift_events in Hin.
  destruct (extractDomain _ _ _) as [domain| |] eqn:Hdomain; try contradiction.
  rewrite bindM_events, getOriginalTranslations_events in Hin.
  apply in_app_or in Hin. destruct Hin as [[Hin|[]]|Hin]; try discriminate.
  destruct (snd (getOriginalTranslations _ _ _)) as [groups| |] eqn:Hgroups;
    try contradiction.
  rewrite bindM_lift_events in Hin.
  destruct (getAssetsManifest w (p_dist paths)) as [manifest| |] eqn:Hman;
    try contradiction.
  rewrite bindM_events, all_events, map_map in Hin.
  apply in_app_or in Hin. destruct Hin as [Hin|Hin].
  2:{ destruct (snd (all _)); destruct Hin. }
  apply in_concat in Hin. destruct Hin as (evs & Hevs & Hin).
  apply in_map_iff in Hevs. destruct Hevs as ([lang fragments] & <- & Hgroup).
  rewrite generateTranslations_io_events in Hin.
  apply in_app_or in Hin. destruct Hin as [Hin|Hin].
  2:{ destruct (snd (generateTranslations _ _ _ _ _ _ _));
        [destruct Hin| |destruct Hin].
      apply unhandled_perform in Hin.
      destruct Hin as (wr & e' & _ & _ & Hev). discriminate Hev. }
  apply in_map_iff in Hin. destruct Hin as ([f c] & Heq & Hin).
  cbn [fst snd] in Heq, Hin. injection Heq as -> ->.
  unfold generateTranslations in Hin. apply loop_writes in Hin.
  destruct Hin as [[]|(key & out & final & Hk & Hext & Hc & Hsrc & Hn)].
  cbn [fst snd] in Hc, Hn.
  exists pkg, rootDir, domain, groups, manifest, lang, fragments, key, out, final.
  repeat split; auto.
Qed.

Lemma makeJson_writes_only_catalogs_witness :
  exists pkg rootDir domain groups manifest lang fragments key out final,
    w_readPkg scenario_world true = Ok (pkg, rootDir) /\
    let paths := getData_paths rootDir "/tmp" in
    extractDomain (w_readdir scenario_world) (w_readFile scenario_world)
      (p_dist paths) = Ok domain /\
    snd (getOriginalTranslations scenario_world (p_languages paths)
           (p_temp paths)) = Ok groups /\
    getAssetsManifest scenario_world (p_dist paths) = Ok manifest /\
    In (lang, fragments) groups /\
    In (key, JStr out) (entries manifest) /\
    path.extname key = ".js" /\
    let relative := relativeFilename rootDir (path.join (p_dist paths) out) in
    scenario_catalog = JObj final /\
    prop_get "source" final = Some (JStr relative) /\
    "/proj/dist/myplugin-en_US-1337.json"
    = path.join (p_dist paths) (translationName sample_md5 domain lang relative).
Proof.
  apply (makeJson_writes_only_catalogs scenario_world
           "/proj/dist/myplugin-en_US-1337.json" scenario_catalog).
  do 7 right. left. reflexivity.
Defined.

(** ** data.js and generate-plugin.js *)

(** X24.  For a package found under a root of regular segments, the four
    directories of [getData] are the children [src], [dist], [languages]
    and [views] of that root; the root is handed on as it is and the
    temporary directory is the system's, wherever the package lies. *)
Theorem getData_directories :
  forall (w : World) (normalizePackage : bool) (pkg : object)
         (root : list string),
    w_readPkg w normalizePackage = Ok (pkg, absolute root) ->
    Forall (fun s => regular s = true) root ->
    exists paths,
      getData w normalizePackage = Ok (pkg, paths) /\
      p_root paths = absolute root /\
      p_src paths = absolute (root ++ ["src"]) /\
      p_dist paths = absolute (root ++ ["dist"]) /\
      p_languages paths = absolute (root ++ ["languages"]) /\
      p_views paths = absolute (root ++ ["views"]) /\
      p_temp paths = w_tmpdir w.
Proof.
  intros w normalizePackage pkg root Hpkg Hroot.
  unfold getData. rewrite Hpkg. cbn [bind fst snd].
  eexists. split; [reflexivity|]. cbn [getData_paths p_root p_src p_dist
    p_languages p_views p_temp].
  repeat split;
    apply (join_absolute root [_] Hroot);
    try discriminate; repeat constructor.
Qed.

Lemma getData_directories_witness :
  exists paths,
    getData scenario_world true = Ok (react_package, paths) /\
    p_root paths = absolute ["proj"] /\
    p_src paths = absolute (["proj"] ++ ["src"]) /\
    p_dist paths = absolute (["proj"] ++ ["dist"]) /\
    p_languages paths = absolute (["proj"] ++ ["languages"]) /\
    p_views paths = absolute (["proj"] ++ ["views"]) /\
    p_temp paths = w_tmpdir scenario_world.
Proof.
  apply (getData_directories scenario_world true react_package ["proj"]);
    [reflexivity | repeat constructor].
Defined.

(** X25.  [generatePlugin] creates nothing: the object of [getData] has no
    [projectRoot], so once the questions are answered and the package is
    found, joining the plugin's directory throws before the [try] block
    is entered; no directory is made, no file is written, nothing is
    printed, and the operation never ends normally. *)
Theorem generatePlugin_creates_nothing :
  forall (w : World),
    fst (generatePlugin w) = [] /\
    snd (generatePlugin w) <> Ok tt /\
    (forall a data,
        w_prompt w = Ok a -> getData w true = Ok data ->
        snd (generatePlugin w)
        = Throw (TypeError "The path argument must be of type string")).
Proof.
  intros w. unfold generatePlugin.
  destruct (w_prompt w) as [a|e|]; cbn [lift bindM fst snd].
  2,3: repeat split; discriminate.
  destruct (getData w true) as [data|e|]; cbn [lift bindM fst snd].
  2,3: repeat split; discriminate.
  repeat split; try discriminate.
Qed.

Lemma generatePlugin_creates_nothing_witness :
  generatePlugin scenario_world
  = ([], Throw (TypeError "The path argument must be of type string")).
Proof.
  destruct (generatePlugin_creates_nothing scenario_world) as (He & _ & Ht).
  specialize (Ht _ _ eq_refl eq_refl).
  destruct (generatePlugin scenario_world) as [ev r].
  cbn [fst snd] in He, Ht. now subst.
Defined.

(** ** make-pot.js: commenting out the dynamic imports *)

Lemma all_dot_cons (c : ascii) (s : string) :
  all_dot (String c s) = (is_dot c && all_dot s)%bool.
Proof. reflexivity. Qed.

Lemma no_paren_cons (c : ascii) (s : string) :
  no_paren (String c s) = (negb (Ascii.eqb c close_paren) && no_paren s)%bool.
Proof. reflexivity. Qed.

Lemma all_dot_append (a b : string) :
  all_dot (a ++ b) = (all_dot a && all_dot b)%bool.
Proof.
  induction a as [|c a IH]; [reflexivity|].
  change (String c a ++ b) with (String c (a ++ b)).
  now rewrite !all_dot_cons, IH, andb_assoc.
Qed.

Lemma line_end_not_dot (rest : string) (c : ascii) (r : string) :
  line_end rest = true -> rest = String c r -> is_dot c = false.
Proof. intros H ->. simpl in H. now destruct (is_dot c). Qed.

(** On a line, the matchers do not look beyond the end of the line. *)
Lemma argument_end_line (line rest : string) :
  all_dot line = true -> line_end rest = true ->
  argument_end (line ++ rest) = argument_end line.
Proof.
  intros Hl Hr. induction line as [|c l IH].
  - destruct rest as [|t r]; [reflexivity|].
    simpl in Hr. cbn [append argument_end]. now destruct (is_dot t).
  - rewrite all_dot_cons in Hl. apply andb_prop in Hl. destruct Hl as [Hc Hl].
    change (String c l ++ rest) with (String c (l ++ rest)).
    cbn [argument_end]. rewrite Hc, (IH Hl).
    destruct (argument_end l) as [n|]; [reflexivity|].
    destruct l as [|p l'].
    + destruct rest as [|t r]; [reflexivity|].
      cbn [append]. simpl in Hr.
      destruct (Ascii.eqb t close_paren) eqn:Et; [|reflexivity].
      apply Ascii.eqb_eq in Et. subst t. discriminate.
    + change (String p l' ++ rest) with (String p (l' ++ rest)). cbv iota.
      destruct (Ascii.eqb p close_paren); [|reflexivity].
      destruct l' as [|q l'']; [|reflexivity].
      destruct rest as [|t r]; [reflexivity|].
      cbn [append]. simpl in Hr.
      destruct (Ascii.eqb t semicolon) eqn:Et; [|reflexivity].
      apply Ascii.eqb_eq in Et. subst t. discriminate.
Qed.

Lemma prefix_line (pat line rest : string) :
  all_dot pat = true -> line_end rest = true ->
  String.prefix pat (line ++ rest) = String.prefix pat line.
Proof.
  intros Hp Hr. revert line. induction pat as [|a p IH]; intros line.
  - now destruct line, rest.
  - rewrite all_dot_cons in Hp. apply andb_prop in Hp. destruct Hp as [Ha Hp].
    destruct line as [|c l].
    + destruct rest as [|t r]; [reflexivity|].
      cbn [append String.prefix]. simpl in Hr.
      destruct (ascii_dec a t) as [->|]; [|reflexivity].
      rewrite Ha in Hr. discriminate.
    + change (String c l ++ rest) with (String c (l ++ rest)).
      cbn [String.prefix]. destruct (ascii_dec a c); [apply (IH Hp)|reflexivity].
Qed.

Lemma prefix_drop (pat s : string) :
  String.prefix pat s = true -> s = pat ++ drop (String.length pat) s.
Proof.
  revert s. induction pat as [|a p IH]; intros s.
  - now destruct s.
  - destruct s as [|c r]; [discriminate|].
    cbn [String.prefix]. destruct (ascii_dec a c) as [->|]; [|discriminate].
    intros H. cbn [String.length drop append]. f_equal. now apply IH.
Qed.

Lemma import_call_line (line rest : string) :
  all_dot line = true -> line_end rest = true ->
  import_call (line ++ rest) = import_call line.
Proof.
  intros Hl Hr. induction line as [|c l IH].
  - destruct rest as [|t r]; [reflexivity|].
    simpl in Hr. cbn [append import_call]. now destruct (is_dot t).
  - rewrite all_dot_cons in Hl. apply andb_prop in Hl. destruct Hl as [Hc Hl].
    change (String c l ++ rest) with (String c (l ++ rest)).
    cbn [import_call]. rewrite Hc, (IH Hl).
    destruct (import_call l) as [n|]; [reflexivity|].
    rewrite (prefix_line "import(" l rest eq_refl Hr).
    destruct (String.prefix "import(" l) eqn:Ep; [|reflexivity].
    apply prefix_drop in Ep. cbn [String.length] in Ep.
    rewrite Ep in Hl. rewrite all_dot_append in Hl.
    apply andb_prop in Hl. destruct Hl as [_ Hl].
    rewrite Ep at 1. rewrite append_assoc.
    rewrite (drop_append "import("). now rewrite (argument_end_line _ _ Hl Hr).
Qed.

(** Without a closing parenthesis after its first character, nothing is
    an argument. *)
Lemma argument_end_no_paren (x : ascii) (p : string) :
  no_paren p = true -> argument_end (String x p) = None.
Proof.
  revert x. induction p as [|y p IH]; intros x Hp.
  - cbn. now destruct (is_dot x).
  - rewrite no_paren_cons in Hp. apply andb_prop in Hp. destruct Hp as [Hy Hp].
    cbn [argument_end] in *. destruct (is_dot x); [|reflexivity].
    specialize (IH y Hp). cbn [argument_end] in IH. rewrite IH.
    apply negb_true_iff in Hy. now rewrite Hy.
Qed.

(** The argument runs up to the last closing parenthesis of the line. *)
Lemma argument_end_last_paren (arg post : string) :
  arg <> "" -> all_dot arg = true -> no_paren post = true ->
  argument_end (arg ++ String close_paren post)
  = Some (String.length arg + 1 + semi post).
Proof.
  intros Hne Ha Hp. induction arg as [|c a IH]; [congruence|].
  rewrite all_dot_cons in Ha. apply andb_prop in Ha. destruct Ha as [Hc Ha].
  change (String c a ++ String close_paren post)
    with (String c (a ++ String close_paren post)).
  cbn [argument_end]. rewrite Hc.
  destruct a as [|c' a'].
  - cbn [append]. rewrite (argument_end_no_paren close_paren post Hp).
    rewrite Ascii.eqb_refl. destruct post as [|q post']; [reflexivity|].
    cbn [semi String.length]. now destruct (Ascii.eqb q semicolon).
  - rewrite IH by (congruence || assumption). reflexivity.
Qed.

Lemma drop_no_paren (n : nat) (s : string) :
  no_paren s = true -> no_paren (drop n s) = true.
Proof.
  revert s. induction n as [|n IH]; intros s Hs; [now destruct s|].
  destruct s as [|c r]; [reflexivity|].
  rewrite no_paren_cons in Hs. apply andb_prop in Hs. now apply IH.
Qed.

Lemma argument_end_none (s : string) :
  no_paren s = true -> argument_end s = None.
Proof.
  destruct s as [|c r]; [reflexivity|]. rewrite no_paren_cons.
  intros H. apply andb_prop in H. now apply argument_end_no_paren.
Qed.

(** A line without a closing parenthesis holds no match. *)
Lemma import_call_no_paren (s : string) :
  no_paren s = true -> import_call s = None.
Proof.
  induction s as [|c r IH]; [reflexivity|].
  rewrite no_paren_cons. intros H. apply andb_prop in H. destruct H as [_ Hr].
  cbn [import_call]. rewrite (IH Hr).
  rewrite (argument_end_none _ (drop_no_paren 7 r Hr)).
  now destruct (is_dot c), (String.prefix "import(" r).
Qed.

(** A line on which the call does not occur after the first character
    holds no match at its start. *)
Lemma import_call_no_call (c : ascii) (tail : string) :
  includes "import(" tail = false -> import_call (String c tail) = None.
Proof.
  revert c. induction tail as [|c' t IH]; intros c Hi.
  - cbn. now destruct (is_dot c).
  - cbn [includes] in Hi. apply orb_false_iff in Hi. destruct Hi as [Hp Hi].
    cbn [import_call] in *. destruct (is_dot c); [|reflexivity].
    specialize (IH c' Hi). cbn [import_call] in IH. rewrite IH.
    now rewrite Hp.
Qed.

(** Wherever the match starts on a line, it ends after the last closing
    parenthesis of the line and the semicolon that may follow it. *)
Lemma import_call_end (body post : string) (n : nat) :
  all_dot body = true -> no_paren post = true ->
  import_call (body ++ String close_paren post) = Some n ->
  n = String.length body + 1 + semi post.
Proof.
  intros Hb Hp. revert n. induction body as [|c b IH]; intros n.
  - cbn [append import_call].
    rewrite (import_call_no_paren post Hp).
    rewrite (argument_end_none _ (drop_no_paren 7 post Hp)).
    now destruct (is_dot close_paren), (String.prefix "import(" post).
  - rewrite all_dot_cons in Hb. apply andb_prop in Hb. destruct Hb as [Hc Hb].
    change (String c b ++ String close_paren post)
      with (String c (b ++ String close_paren post)).
    cbn [import_call]. rewrite Hc.
    destruct (import_call (b ++ String close_paren post)) as [m|] eqn:Em.
    + intros [= <-]. rewrite (IH Hb m eq_refl). reflexivity.
    + destruct (String.prefix "import(" (b ++ String close_paren post)) eqn:Epre;
        [|discriminate].
      assert (Hb' : exists bt, b = "import(" ++ bt).
      { clear - Epre.
        do 7 (destruct b as [|x b]; cbn [append String.prefix] in Epre;
              [now destruct (ascii_dec _ _)
              |match type of Epre with
               | (if ascii_dec ?a x then _ else _) = true =>
                   destruct (ascii_dec a x) as [<-|]; [|discriminate]
               end]).
        now exists b. }
      destruct Hb' as [bt ->].
      rewrite append_assoc, (drop_append "import(").
      rewrite all_dot_append in Hb. apply andb_prop in Hb. destruct Hb as [_ Hbt].
      destruct bt as [|x bt'].
      * cbn [append]. now rewrite (argument_end_no_paren close_paren post Hp).
      * rewrite (argument_end_last_paren (String x bt') post) by
          (congruence || assumption).
        cbn [option_map]. intros [= <-].
        cbn [append String.length]. lia.
Qed.

(** A call after the first character of a line, with an argument of at
    least one character, is matched from the start of the line. *)
Lemma import_call_found (pre arg post : string) :
  pre <> "" -> arg <> "" ->
  all_dot pre = true -> all_dot arg = true -> no_paren post = true ->
  import_call (pre ++ "import(" ++ arg ++ String close_paren post)
  = Some (String.length (pre ++ "import(" ++ arg) + 1 + semi post).
Proof.
  intros Hpre Harg Hdp Hda Hp.
  assert (Hsome : exists n,
             import_call (pre ++ "import(" ++ arg ++ String close_paren post)
             = Some n).
  { induction pre as [|c p IH]; [congruence|].
    rewrite all_dot_cons in Hdp. apply andb_prop in Hdp. destruct Hdp as [Hc Hdp].
    change (String c p ++ ?x) with (String c (p ++ x)).
    cbn [import_call]. rewrite Hc.
    destruct p as [|c' p'].
    - change ("" ++ ?x) with x.
      destruct (import_call _) as [m|]; [eauto|].
      rewrite (prefix_append "import("), (drop_append "import(").
      rewrite (argument_end_last_paren arg post Harg Hda Hp). cbn. eauto.
    - destruct IH as [m ->]; [congruence|assumption|eauto]. }
  destruct Hsome as [n Hn]. rewrite Hn. f_equal.
  assert (Heq : pre ++ "import(" ++ arg ++ String close_paren post
                = (pre ++ "import(" ++ arg) ++ String close_paren post)
    by now rewrite !append_assoc.
  rewrite Heq in Hn. apply import_call_end in Hn; [assumption| |assumption].
  rewrite !all_dot_append, Hdp, Hda. reflexivity.
Qed.

Lemma comment_imports_skip (m rest : string) :
  comment_imports_from (String.length m) (m ++ rest)
  = m ++ comment_imports_from 0 rest.
Proof.
  induction m as [|c m IH]; [reflexivity|].
  cbn [String.length append comment_imports_from]. now rewrite IH.
Qed.

Lemma comment_imports_terminator (t : ascii) (rest : string) :
  is_dot t = false ->
  comment_imports_from 0 (String t rest)
  = String t (comment_imports_from 0 rest).
Proof. intros Ht. cbn [comment_imports_from import_call]. now rewrite Ht. Qed.

(** A line on which the call does not occur after the first character is
    copied. *)
Lemma comment_imports_copy (line rest : string) :
  all_dot line = true -> line_end rest = true -> call_free line = true ->
  comment_imports_from 0 (line ++ rest) = line ++ comment_imports_from 0 rest.
Proof.
  intros Hl Hr. induction line as [|c l IH]; [reflexivity|].
  intros Hi. cbn [call_free] in Hi. apply negb_true_iff in Hi.
  change (String c l ++ rest) with (String c (l ++ rest)).
  cbn [comment_imports_from].
  change (String c (l ++ rest)) with (String c l ++ rest).
  rewrite (import_call_line _ _ Hl Hr), (import_call_no_call c l Hi).
  rewrite all_dot_cons in Hl. apply andb_prop in Hl. destruct Hl as [_ Hl].
  cbn [append]. f_equal. apply (IH Hl).
  destruct l as [|c' l']; [reflexivity|].
  cbn [includes] in Hi. apply orb_false_iff in Hi.
  cbn [call_free]. now apply negb_true_iff.
Qed.

(** A line without a closing parenthesis is copied. *)
Lemma comment_imports_copy_open (line rest : string) :
  all_dot line = true -> line_end rest = true -> no_paren line = true ->
  comment_imports_from 0 (line ++ rest) = line ++ comment_imports_from 0 rest.
Proof.
  intros Hl Hr. induction line as [|c l IH]; [reflexivity|].
  intros Hp.
  change (String c l ++ rest) with (String c (l ++ rest)).
  cbn [comment_imports_from].
  change (String c (l ++ rest)) with (String c l ++ rest).
  rewrite (import_call_line _ _ Hl Hr), (import_call_no_paren _ Hp).
  rewrite all_dot_cons in Hl. apply andb_prop in Hl. destruct Hl as [_ Hl].
  rewrite no_paren_cons in Hp. apply andb_prop in Hp. destruct Hp as [_ Hp].
  cbn [append]. f_equal. apply (IH Hl Hp).
Qed.

(** A match at the start of a line: the match is copied after the comment
    marker, and so is what is left of the line. *)
Lemma comment_imports_match (m rem rest : string) :
  import_call (m ++ rem ++ rest) = Some (String.length m) ->
  all_dot rem = true -> no_paren rem = true -> line_end rest = true ->
  comment_imports_from 0 (m ++ rem ++ rest)
  = "// " ++ m ++ rem ++ comment_imports_from 0 rest.
Proof.
  intros Hm Hd Hp Hr. destruct m as [|c m'].
  - cbn [append String.length] in Hm.
    rewrite (import_call_line _ _ Hd Hr), (import_call_no_paren _ Hp) in Hm.
    discriminate.
  - change (String c m' ++ rem ++ rest) with (String c (m' ++ rem ++ rest)) in *.
    cbn [comment_imports_from]. rewrite Hm.
    cbn [String.length].
    replace (S (String.length m') - 1) with (String.length m') by lia.
    rewrite comment_imports_skip, (comment_imports_copy_open _ _ Hd Hr Hp).
    reflexivity.
Qed.

(** X26.  A line that holds a call [import(...)] after its first character,
    with at least one character between the parentheses, is commented out
    as a whole, whatever follows the last closing parenthesis of the line;
    the lines after it are treated on their own. *)
Theorem commented_line_with_import_call :
  forall (pre arg post rest : string),
    pre <> "" -> arg <> "" ->
    all_dot pre = true -> all_dot arg = true -> all_dot post = true ->
    no_paren post = true -> line_end rest = true ->
    comment_imports (pre ++ "import(" ++ arg ++ ")" ++ post ++ rest)
    = "// " ++ pre ++ "import(" ++ arg ++ ")" ++ post ++ comment_imports rest.
Proof.
  intros pre arg post rest Hpre Harg Hdp Hda Hdq Hnp Hr.
  unfold comment_imports.
  set (head := pre ++ "import(" ++ arg).
  assert (Hshape : forall tail,
             pre ++ "import(" ++ arg ++ ")" ++ tail
             = head ++ String close_paren tail).
  { intros tail. unfold head. now rewrite !append_assoc. }
  rewrite !Hshape.
  assert (Hline : all_dot (head ++ String close_paren post) = true).
  { unfold head. rewrite !all_dot_append, Hdp, Hda.
    rewrite (all_dot_cons close_paren post), Hdq. reflexivity. }
  assert (Hcall : import_call (head ++ String close_paren (post ++ rest))
                  = Some (String.length head + 1 + semi post)).
  { change (String close_paren (post ++ rest))
      with (String close_paren post ++ rest).
    rewrite <- append_assoc, (import_call_line _ _ Hline Hr).
    unfold head. rewrite append_assoc. rewrite (append_assoc "import(").
    now apply import_call_found. }
  assert (Hsplit : exists m rem,
             String close_paren post = m ++ rem /\
             String.length m = 1 + semi post /\
             all_dot rem = true /\ no_paren rem = true).
  { destruct post as [|q post'].
    - exists (String close_paren ""), "". now cbn.
    - rewrite all_dot_cons in Hdq. apply andb_prop in Hdq.
      rewrite no_paren_cons in Hnp. apply andb_prop in Hnp.
      cbn [semi]. destruct (Ascii.eqb q semicolon).
      + exists (String close_paren (String q "")), post'. now cbn.
      + exists (String close_paren ""), (String q post'). cbn [append].
        rewrite all_dot_cons, no_paren_cons.
        repeat split; try reflexivity; now apply andb_true_intro. }
  destruct Hsplit as (m & rem & Hm & Hlen & Hdr & Hpr).
  assert (Hcut : forall tail,
             head ++ String close_paren (post ++ tail)
             = (head ++ m) ++ rem ++ tail).
  { intros tail.
    change (String close_paren (post ++ tail))
      with (String close_paren post ++ tail).
    now rewrite Hm, !append_assoc. }
  rewrite Hcut in Hcall. rewrite !Hcut.
  rewrite (comment_imports_match (head ++ m) rem rest); auto.
  rewrite Hcall, length_append, Hlen. f_equal. lia.
Qed.

Lemma commented_line_with_import_call_witness :
  comment_imports lazy_source
  = "// const page = import('./page');" ++ nl
    ++ "import('./menu').then(show);" ++ nl
    ++ "export default page;" ++ nl.
Proof.
  exact (commented_line_with_import_call "const page = " "'./page'" ";"
           (nl ++ "import('./menu').then(show);" ++ nl
            ++ "export default page;" ++ nl)
           ltac:(discriminate) ltac:(discriminate)
           eq_refl eq_refl eq_refl eq_refl eq_refl).
Defined.

(** X27.  Every other line is left as it is: a line on which the call
    does not occur after the first character, such as a line that starts
    with the call, and a line without a closing parenthesis, such as the
    first line of a call that is spread over several lines.  The line
    terminators are kept. *)
Theorem lines_left_by_comment_imports :
  (forall line rest,
      all_dot line = true -> line_end rest = true ->
      call_free line = true \/ no_paren line = true ->
      comment_imports (line ++ rest) = line ++ comment_imports rest) /\
  (forall t rest,
      is_dot t = false ->
      comment_imports (String t rest) = String t (comment_imports rest)).
Proof.
  split.
  - intros line rest Hl Hr [Hf|Hp].
    + now apply comment_imports_copy.
    + now apply comment_imports_copy_open.
  - intros t rest Ht. now apply comment_imports_terminator.
Qed.

Lemma lines_left_by_comment_imports_witness :
  comment_imports ("import('./menu').then(show);" ++ nl ++ "load(import(" ++ nl)
  = "import('./menu').then(show);" ++ nl ++ "load(import(" ++ nl.
Proof.
  destruct lines_left_by_comment_imports as [Hline Hnl].
  rewrite (Hline "import('./menu').then(show);" (nl ++ "load(import(" ++ nl)
             eq_refl eq_refl (or_introl eq_refl)).
  change (nl ++ "load(import(" ++ nl)
    with (String (ascii_of_nat 10) ("load(import(" ++ nl)).
  rewrite (Hnl (ascii_of_nat 10) _ eq_refl).
  rewrite (Hline "load(import(" nl eq_refl eq_refl (or_intror eq_refl)).
  reflexivity.
Defined.

